(** * LEOMissionPlanning: population raster conversion and spatial queries

    A shallow embedding of

    - [preprocess_population.py]: [convert_density_to_count], the offline
      density -> count conversion with its pixel-area model and its
      normalisation to a target population;
    - [app.py]: [get_population_estimate] (box query around a point) and
      [get_coverage_score] (footprint sweep along a ground track).

    Numbers.  The Python code computes in IEEE binary64.  The arithmetic core
    of the converter is written once, over an interface [Float64] of the
    operations it uses, and read in three ways: over [PrimFloat.float]
    (binary64 itself, with its rounding, infinities and NaN), over [R]
    (the exact arithmetic the formulas are meant to approximate), and over
    [R] with one rounding of bounded relative error per operation
    ([rounded], binary64 while nothing overflows or underflows).  The code
    that needs [math.cos], [np.sin] or a great-circle distance is read over
    [R]; where the sign of a cosine decides a branch, the argument is the
    binary64 number the machine passes ([km_per_deg_lon_b64]).  Pixel
    indices are [Z].

    Orders.  Where rounding makes a result depend on an order the code
    leaves to its libraries (the order in which [np.sum] adds cells, the
    order in which Python iterates a set), the statements hold for every
    such order ([summation], [iterates]).

    The binary64 reading is that of a raster whose band is stored as
    float64 (NumPy keeps a float32 band in float32 where it only meets
    Python scalars).  What rasterio, geopandas, skyfield and Flask do is
    not modelled: the converter starts from the masked band and the
    raster's transform, resolution and CRS kind; the sweep starts from the
    ground track the propagator yields. *)

From Stdlib Require Import Reals Lra Lia ZArith Floats String Machin.
From stdpp Require Import base option list gmap.

(** ** Python exceptions and the result of a call that may raise *)

Inductive exn : Set :=
  | ZeroDivisionError
  | ValueError
  | TypeError
  | IndexError
  | OverflowError
  | TransformNotInvertibleError.

Inductive result (A : Type) : Type :=
  | Ok (a : A)
  | Raise (e : exn).
Arguments Ok {A} a.
Arguments Raise {A} e.

Definition bind {A B : Type} (m : result A) (k : A -> result B) : result B :=
  match m with
  | Ok a => k a
  | Raise e => Raise e
  end.

Declare Scope py_scope.
Delimit Scope py_scope with py.
Notation "'let*' x ':=' m 'in' k" := (bind m (fun x => k))
  (at level 10, x pattern, m at level 100, k at level 200) : py_scope.
Open Scope py_scope.

(** ** Conversions between reals and Python integers *)

(** [int(x)]: truncation toward zero. *)
Definition py_int (x : R) : Z :=
  if Rle_dec 0 x then Int_part x else (- Int_part (- x))%Z.

(** [round(x)] with one argument: the nearest integer, a tie going to the
    even neighbour. *)
Definition py_round (x : R) : Z :=
  let n := Int_part x in
  let r := (x - IZR n)%R in
  if Rlt_dec r (1 / 2) then n
  else if Rlt_dec (1 / 2) r then (n + 1)%Z
  else if Z.even n then n else (n + 1)%Z.

(** [int(x)] on a binary64 value: NaN raises ValueError, an infinity
    raises OverflowError, a finite value is truncated toward zero. *)
Definition float_int (x : float) : result Z :=
  match Prim2SF x with
  | S754_zero _ => Ok 0%Z
  | S754_infinity _ => Raise OverflowError
  | S754_nan => Raise ValueError
  | S754_finite s m e =>
      let mag := if (0 <=? e)%Z then (Z.pos m * 2 ^ e)%Z
                 else (Z.pos m / 2 ^ (- e))%Z in
      Ok (if s then (- mag)%Z else mag)
  end.

(** ** The arithmetic of array cells *)

Class Float64 (F : Type) : Type := {
  f_zero : F;                 (* the literal 0.0 *)
  f_1e6 : F;                  (* the literal 1e6 *)
  f_add : F -> F -> F;
  f_mul : F -> F -> F;
  f_div : F -> F -> F;
  f_abs : F -> F;
  f_eqb : F -> F -> bool;     (* [==] on floats *)
  f_isnan : F -> bool;        (* [np.isnan] *)
  f_int : F -> result Z       (* [int(x)] *)
}.

(** binary64 as the machine has it. *)
#[export] Instance binary64 : Float64 float := {|
  f_zero := 0%float;
  f_1e6 := 1e6%float;
  f_add := PrimFloat.add;
  f_mul := PrimFloat.mul;
  f_div := PrimFloat.div;
  f_abs := PrimFloat.abs;
  f_eqb := PrimFloat.eqb;
  f_isnan := PrimFloat.is_nan;
  f_int := float_int
|}.

(** Exact arithmetic: no rounding, no infinity, no NaN. *)
Definition Reqb (x y : R) : bool := if Req_dec_T x y then true else false.

#[export] Instance exact : Float64 R := {|
  f_zero := 0%R;
  f_1e6 := 1000000%R;
  f_add := Rplus;
  f_mul := Rmult;
  f_div := Rdiv;
  f_abs := Rabs;
  f_eqb := Reqb;
  f_isnan := fun _ => false;
  f_int := fun x => Ok (py_int x)
|}.

(** Binary64 away from its exceptional values, as error analysis reads it
    (the standard model of floating-point arithmetic): an operation
    returns the exact result rounded by [rnd].  Of [rnd] the statements
    assume what round-to-nearest gives while nothing overflows or
    underflows, a relative error of at most 2^-53 ([standard_model]). *)
Definition rounded (rnd : R -> R) : Float64 R := {|
  f_zero := 0%R;
  f_1e6 := 1000000%R;
  f_add := fun x y => rnd (x + y)%R;
  f_mul := fun x y => rnd (x * y)%R;
  f_div := fun x y => rnd (x / y)%R;
  f_abs := Rabs;
  f_eqb := Reqb;
  f_isnan := fun _ => false;
  f_int := fun x => Ok (py_int x)
|}.

(** ** Affine transforms (the [affine] package behind rasterio)

    [Affine(a, b, c, d, e, f)] maps pixel coordinates (col, row) to
    (x, y) = (a*col + b*row + c, d*col + e*row + f). *)

Module Affine.

Record t : Type := make { a : R; b : R; c : R; d : R; e : R; f : R }.

(** [T * (x, y)]. *)
Definition apply (T : t) (p : R * R) : R * R :=
  let (x, y) := p in
  (x * a T + y * b T + c T, x * d T + y * e T + f T)%R.

Definition determinant (T : t) : R := (a T * e T - b T * d T)%R.

(** [~T]: the inverse, as [Affine.__invert__] computes it; a degenerate
    transform raises. *)
Definition invert (T : t) : result t :=
  if Req_dec_T (determinant T) 0 then Raise TransformNotInvertibleError
  else
    let idet := (1 / determinant T)%R in
    let ra := (e T * idet)%R in
    let rb := (- b T * idet)%R in
    let rd := (- d T * idet)%R in
    let re := (a T * idet)%R in
    Ok (make ra rb (- c T * ra - f T * rb) rd re (- c T * rd - f T * re)).

End Affine.

(** [math.radians] and [np.radians]. *)
Definition radians (deg : R) : R := (deg * (PI / 180))%R.

(** ** preprocess_population.py *)

Module Preprocess.

(** A 2-D array, row-major, as a list of rows. *)
Abbreviation grid F := (list (list F)) (only parsing).

Section Converter.
Context {F : Type} `{Float64 F}.

(** Python's [x / y] on two Python floats ([target_pop / total_pop_raw]):
    a zero divisor raises, anything else is the IEEE quotient. *)
Definition py_div (x y : F) : result F :=
  if f_eqb y f_zero then Raise ZeroDivisionError else Ok (f_div x y).

(** [np.sum] of a 1-D array: the first element is the start value, the
    others are added in index order; the empty sum is 0.0.
    (NumPy adds arrays of 8 cells or more pairwise, in blocks; the order
    only changes the rounding, and not at all where every partial sum is
    exact.  Statements about rounded totals are made for every order,
    through [normalize_with] and [summation].) *)
Definition np_sum1 (xs : list F) : F :=
  match xs with
  | [] => f_zero
  | x :: rest => fold_left f_add rest x
  end.

(** [np.sum] of a 2-D array: all cells, row-major. *)
Definition np_sum (g : grid F) : F := np_sum1 (concat g).

(** [np.ma.masked_array(masked_data[0], mask=(masked_data[0] == src.nodata))]
    followed by [np.ma.filled(density, 0.0)]: a cell equal to the nodata
    sentinel becomes 0.0 (lines 64 and 93). *)
Definition filled (masked_data : grid F) (nodata : F) : grid F :=
  map (map (fun v => if f_eqb v nodata then f_zero else v)) masked_data.

(** [pixel_area_km2] is a column of one area per row (geographic branch,
    shape (nrows, 1)) or one scalar (projected branch). *)
Inductive pixel_area : Type :=
  | AreaColumn (rows : list F)
  | AreaScalar (a : F).

(** Lines 86-88: [(abs(res[0]) * abs(res[1])) / 1e6]. *)
Definition pixel_area_projected (res : F * F) : F :=
  let xres_m := f_abs (fst res) in
  let yres_m := f_abs (snd res) in
  f_div (f_mul xres_m yres_m) f_1e6.

(** [filled * pixel_area_km2] with NumPy broadcasting. *)
Definition times_area (g : grid F) (area : pixel_area) : grid F :=
  match area with
  | AreaColumn rows => zip_with (fun row a => map (fun v => f_mul v a) row) g rows
  | AreaScalar a => map (map (fun v => f_mul v a)) g
  end.

(** Lines 94-99. *)
Definition raw_counts (fl : grid F) (area : pixel_area) (density_units : string)
  : result (grid F) :=
  if String.eqb density_units "per_km2" then Ok (times_area fl area)
  else if String.eqb density_units "per_pixel" then Ok fl
  else Raise ValueError.

(** What a completed run leaves behind: the array written by [np.save]
    and the numbers of the metadata sidecar. *)
Record conversion : Type := {
  saved_array : grid F;
  total_raw : F;
  total_adjusted : F;
  scale_factor : F;
  target_population : F
}.

(** Lines 101-131, with the reduction left open: [total] stands for
    [np.sum], which is free to add the cells in an order of its own
    (NumPy adds long arrays pairwise, in blocks).  [Raise] is an
    exception that leaves the [try] block before [np.save]: nothing has
    been written. *)
Definition normalize_with (total : grid F -> F) (pop_counts : grid F) (target_pop : F)
  : result conversion :=
  let total_pop_raw := total pop_counts in
  let* scale := py_div target_pop total_pop_raw in
  let pop_counts' := map (map (fun v => f_mul v scale)) pop_counts in
  let total_pop_adjusted := total pop_counts' in
  Ok {| saved_array := pop_counts';
        total_raw := total_pop_raw;
        total_adjusted := total_pop_adjusted;
        scale_factor := scale;
        target_population := target_pop |}.

(** Lines 101-131 with the cells added in index order. *)
Definition normalize (pop_counts : grid F) (target_pop : F) : result conversion :=
  normalize_with np_sum pop_counts target_pop.

(** What a reduction may return: [v] is what adding the values of [xs]
    gives, each value once, in some order and some bracketing in which
    no value passes through more than [k] additions; a partial sum may
    start from 0.0. *)
Inductive summation : nat -> list F -> F -> Prop :=
  | summation_zero : summation 0 [] f_zero
  | summation_cell (x : F) : summation 0 [x] x
  | summation_add (k1 k2 : nat) (xs ys : list F) (a b : F) :
      summation k1 xs a -> summation k2 ys b ->
      summation (S (Nat.max k1 k2)) (xs ++ ys) (f_add a b)
  | summation_perm (k : nat) (xs ys : list F) (a : F) :
      xs ≡ₚ ys -> summation k xs a -> summation k ys a.

(** Lines 92-131, from the masked raster and the pixel area on. *)
Definition convert_from_area (masked_data : grid F) (nodata : F) (area : pixel_area)
    (density_units : string) (target_pop : F) : result conversion :=
  let fl := filled masked_data nodata in
  let* pop_counts := raw_counts fl area density_units in
  normalize pop_counts target_pop.

(** The raw total of a run, [total_pop_raw] of line 101, when the units
    are supported. *)
Definition raw_total (masked_data : grid F) (nodata : F) (area : pixel_area)
    (density_units : string) : result F :=
  let* pop_counts := raw_counts (filled masked_data nodata) area density_units in
  Ok (np_sum pop_counts).

End Converter.

Arguments pixel_area F : clear implicits.
Arguments conversion F : clear implicits.

(** *** The geographic branch and the whole conversion, in exact arithmetic *)

(** [xy(transform, rows, cols0, offset='center')]: the coordinates of the
    centre of pixel (row, 0) for every row; the second components are
    the latitudes. *)
Definition xy_center (transform : Affine.t) (rows : list nat) : list R * list R :=
  let pts := map (fun r => Affine.apply transform (0 + 0.5, INR r + 0.5)%R) rows in
  (map fst pts, map snd pts).

(** Lines 73-82: one area per row. *)
Definition pixel_area_geographic (transform : Affine.t) (res : R * R) (nrows : nat)
  : list R :=
  let xres_deg := Rabs (fst res) in
  let yres_deg := Rabs (snd res) in
  let rows := seq 0 nrows in
  let lats := snd (xy_center transform rows) in
  let km_per_deg_lon := map (fun lat => 111.320 * cos (radians lat))%R lats in
  let pixel_width_km := map (fun k => xres_deg * k)%R km_per_deg_lon in
  let pixel_height_km :=
    map (fun lat => yres_deg * (111.132 - 0.559 * sin (radians lat) ^ 2
                                + 0.0012 * sin (radians lat) ^ 4))%R lats in
  zip_with Rmult pixel_width_km pixel_height_km.

(** The opened raster after the land mask has been applied: band 1 of
    [masked_data], [src.nodata], [src.transform], [src.res] and
    [getattr(crs, "is_geographic", False)]. *)
Record raster : Type := {
  masked_data : grid R;
  nodata : R;
  transform : Affine.t;
  res : R * R;
  is_geographic : bool
}.

(** Lines 72-90. *)
Definition pixel_area_km2 (src : raster) : pixel_area R :=
  if is_geographic src
  then AreaColumn (pixel_area_geographic (transform src) (res src)
                     (length (masked_data src)))
  else AreaScalar (pixel_area_projected (res src)).

Definition convert_density_to_count (src : raster) (density_units : string)
    (target_pop : R) : result (conversion R) :=
  convert_from_area (masked_data src) (nodata src) (pixel_area_km2 src)
    density_units target_pop.

(** *** The projected branch in binary64 *)

(** The conversion of a raster whose CRS is not geographic, as the machine
    computes it (the projected branch has no trigonometry). *)
Definition convert_projected (masked : grid float) (nodata_value : float)
    (resolution : float * float) (density_units : string) (target_pop : float)
  : result (conversion float) :=
  convert_from_area masked nodata_value
    (AreaScalar (pixel_area_projected resolution)) density_units target_pop.

End Preprocess.

(** ** app.py *)

Module App.

(** A query-string argument as [float(request.args.get(name))] sees it:
    missing ([float(None)] raises TypeError), not a number ([float] raises
    ValueError), or a number.  The strings "nan" and "inf", which [float]
    accepts, make [int] or [round] raise a few lines later; they are under
    [Malformed] here. *)
Inductive arg : Type :=
  | Absent
  | Malformed
  | Num (x : R).

Definition float_of_arg (v : arg) : result R :=
  match v with
  | Absent => Raise TypeError
  | Malformed => Raise ValueError
  | Num x => Ok x
  end.

(** [float(request.args.get('radius_km', 1))]. *)
Definition float_of_arg_default (v : arg) (default : R) : result R :=
  match v with
  | Absent => Ok default
  | Malformed => Raise ValueError
  | Num x => Ok x
  end.

(** Python's [x / y] on floats. *)
Definition py_div (x y : R) : result R :=
  if Req_dec_T y 0 then Raise ZeroDivisionError else Ok (x / y)%R.

(** [math.atan2(y, x)]. *)
Definition atan2 (y x : R) : R :=
  if Rlt_dec 0 x then atan (y / x)
  else if Rlt_dec x 0 then
    (if Rle_dec 0 y then atan (y / x) + PI else atan (y / x) - PI)%R
  else if Rlt_dec 0 y then (PI / 2)%R
  else if Rlt_dec y 0 then (- (PI / 2))%R
  else 0%R.

(** [geopy.distance.great_circle(p1, p2).kilometers] for points given as
    (latitude, longitude) in degrees, with latitudes in [-90, 90]: the
    central angle, by geopy's [atan2] formula, on a sphere of radius
    6371.009 km. *)
Definition geopy_great_circle (p1 p2 : R * R) : R :=
  let (lat1, lng1) := (radians (fst p1), radians (snd p1)) in
  let (lat2, lng2) := (radians (fst p2), radians (snd p2)) in
  let delta_lng := (lng2 - lng1)%R in
  let y := R_sqrt.sqrt ((cos lat2 * sin delta_lng) ^ 2
                 + (cos lat1 * sin lat2 - sin lat1 * cos lat2 * cos delta_lng) ^ 2)%R in
  let x := (sin lat1 * sin lat2 + cos lat1 * cos lat2 * cos delta_lng)%R in
  (6371.009 * atan2 y x)%R.

(** [a[start:stop]] on a sequence: a negative index counts from the end,
    and both ends are clipped to the sequence. *)
Definition slice_index (n i : Z) : Z :=
  if (i <? 0)%Z then Z.max 0 (i + n) else Z.min i n.

Definition py_slice {A : Type} (l : list A) (start stop : Z) : list A :=
  let n := Z.of_nat (length l) in
  let s := slice_index n start in
  let t := slice_index n stop in
  take (Z.to_nat (t - s)) (drop (Z.to_nat s) l).

(** [a[r0:r1, c0:c1]] on a 2-D array. *)
Definition py_slice2 {A : Type} (g : list (list A)) (r0 r1 c0 c1 : Z)
  : list (list A) :=
  map (fun row => py_slice row c0 c1) (py_slice g r0 r1).

(** [range(start, stop)]. *)
Definition range (start stop : Z) : list Z := seqZ start (stop - start).

(** Lines 165-168 and 211-214: the index box around the centre pixel,
    as (row_start, row_stop, col_start, col_stop). *)
Definition bounding_box (shape : Z * Z) (center_row center_col row_radius col_radius : Z)
  : Z * Z * Z * Z :=
  let row_start := Z.max 0 (center_row - row_radius) in
  let row_stop := Z.min (fst shape) (center_row + row_radius + 1) in
  let col_start := Z.max 0 (center_col - col_radius) in
  let col_stop := Z.min (snd shape) (center_col + col_radius + 1) in
  (row_start, row_stop, col_start, col_stop).

(** Line 154 and line 207, in exact arithmetic: the cosine of the real
    number lat * pi / 180.  It is 0 at lat = 90 and lat = -90, where the
    machine, whose [math.radians(90)] is a binary64 number just below
    pi / 2, finds a tiny positive value: see [km_per_deg_lon_b64]. *)
Definition km_per_deg_lon (lat : R) : R := (111.32 * cos (radians lat))%R.

(** The value of a binary64 number (0 for an infinity or a NaN). *)
Definition B2R (x : float) : R :=
  match Prim2SF x with
  | S754_finite s m e =>
      let mag := if (0 <=? e)%Z then IZR (Z.pos m * 2 ^ e)
                 else (IZR (Z.pos m) / IZR (2 ^ (- e)))%R in
      if s then (- mag)%R else mag
  | _ => 0%R
  end.

(** [math.pi]: the binary64 number nearest to pi. *)
Definition math_pi : float := 0x1.921fb54442d18p+1%float.

(** [math.radians(x)] on a binary64 number: [x * (math.pi / 180)], both
    operations rounded. *)
Definition math_radians (x : float) : float := (x * (math_pi / 180))%float.

(** Line 154 for a binary64 latitude: the cosine is taken at the binary64
    number [math.radians(lat)].  The cosine itself and the product by
    111.32 are read without rounding, which changes neither the sign of
    the factor nor, at the scale of the pixel radii, its size. *)
Definition km_per_deg_lon_b64 (lat : float) : R :=
  (111.32 * cos (B2R (math_radians lat)))%R.

(** Line 153 and line 206. *)
Definition km_per_deg_lat : R := 111.0%R.

Section Service.
Context {F : Type} `{Float64 F}.

(** The module-level data loaded at start-up. *)
Record service : Type := {
  POPULATION_COUNT_DATA : list (list F);
  RASTER_TRANSFORM : Affine.t;
  RASTER_SHAPE : Z * Z           (* (src.height, src.width) *)
}.

Variable svc : service.

(** Lines 150-151 and 202-203: [~RASTER_TRANSFORM * (lon, lat)], then
    [int] on both, as (center_col, center_row).  The inverse is taken in
    exact arithmetic; the machine's rounds, which can move a point that
    lies on a pixel edge into the neighbouring pixel. *)
Definition center_pixel (lat lon : R) : result (Z * Z) :=
  let* inv := Affine.invert (RASTER_TRANSFORM svc) in
  let (center_col, center_row) := Affine.apply inv (lon, lat) in
  Ok (py_int center_col, py_int center_row).

(** *** get_population_estimate *)

(** Lines 156 and 159-161, from the value of [km_per_deg_lon]. *)
Definition col_radius_guarded (km_per_deg_lon radius_km : R) : result Z :=
  let pixel_width_deg := Affine.a (RASTER_TRANSFORM svc) in
  if Rlt_dec 0 km_per_deg_lon then
    let* q := py_div radius_km (km_per_deg_lon * pixel_width_deg) in
    Ok (Z.max 1 (py_round q))
  else Ok 1%Z.

(** Lines 154-161 in exact arithmetic. *)
Definition estimate_col_radius (lat radius_km : R) : result Z :=
  col_radius_guarded (km_per_deg_lon lat) radius_km.

(** Lines 154-161 for a binary64 latitude. *)
Definition estimate_col_radius_b64 (lat : float) (radius_km : R) : result Z :=
  col_radius_guarded (km_per_deg_lon_b64 lat) radius_km.

(** Line 163 and line 209. *)
Definition row_radius_of (radius_km : R) : result Z :=
  let pixel_height_deg := Rabs (Affine.e (RASTER_TRANSFORM svc)) in
  let* q := py_div radius_km (km_per_deg_lat * pixel_height_deg) in
  Ok (Z.max 1 (py_round q)).

(** [np.nansum]: NaN cells are replaced by zero, the rest is [np.sum]. *)
Definition np_nansum (g : list (list F)) : F :=
  Preprocess.np_sum (map (map (fun v => if f_isnan v then f_zero else v)) g).

(** The body of the [try] block, lines 146-177; the value is the
    [estimated_population] of the response. *)
Definition estimate_body (lat lon radius_km : arg) : result Z :=
  let* lat := float_of_arg lat in
  let* lon := float_of_arg lon in
  let* radius_km := float_of_arg_default radius_km 1 in
  let* (center_col, center_row) := center_pixel lat lon in
  let* col_radius := estimate_col_radius lat radius_km in
  let* row_radius := row_radius_of radius_km in
  let '(row_start, row_stop, col_start, col_stop) :=
    bounding_box (RASTER_SHAPE svc) center_row center_col row_radius col_radius in
  let area_slice :=
    py_slice2 (POPULATION_COUNT_DATA svc) row_start row_stop col_start col_stop in
  let population_in_radius := np_nansum area_slice in
  f_int population_in_radius.

(** The endpoint: any exception gives [estimated_population] 0. *)
Definition get_population_estimate (lat lon radius_km : arg) : Z :=
  match estimate_body lat lon radius_km with
  | Ok n => n
  | Raise _ => 0%Z
  end.

(** *** get_coverage_score *)

(** The distance of [geopy], from (lat, lon) to (lat, lon) in km. *)
Variable great_circle : R * R -> R * R -> R.

(** Line 208: no guard on the sign of [km_per_deg_lon] here. *)
Definition coverage_col_radius (lat radius_km : R) : result Z :=
  let* q := py_div radius_km (km_per_deg_lon lat * Affine.a (RASTER_TRANSFORM svc)) in
  Ok (Z.max 1 (py_round q)).

(** Line 218-219: the distance from the sample to the centre of pixel
    (r, c). *)
Definition pixel_distance (center_point : R * R) (r c : Z) : R :=
  let (pixel_lon, pixel_lat) :=
    Affine.apply (RASTER_TRANSFORM svc) (IZR c + 0.5, IZR r + 0.5)%R in
  great_circle center_point (pixel_lat, pixel_lon).

(** Lines 216-221: the two nested loops over the box of one sample. *)
Definition add_circle (center_point : R * R) (radius_km : R) (box : Z * Z * Z * Z)
    (covered_pixels : gset (Z * Z)) : gset (Z * Z) :=
  let '(row_start, row_stop, col_start, col_stop) := box in
  foldl (fun covered r =>
           foldl (fun covered c =>
                    if Rle_dec (pixel_distance center_point r c) radius_km
                    then {[ (r, c) ]} ∪ covered
                    else covered)
                 covered (range col_start col_stop))
        covered_pixels (range row_start row_stop).

(** Lines 201-214: the index box of one sample (lat, lon). *)
Definition sample_box (radius_km : R) (sample : R * R) : result (Z * Z * Z * Z) :=
  let (lat, lon) := sample in
  let* (center_col, center_row) := center_pixel lat lon in
  let* col_radius := coverage_col_radius lat radius_km in
  let* row_radius := row_radius_of radius_km in
  Ok (bounding_box (RASTER_SHAPE svc) center_row center_col row_radius col_radius).

(** Lines 198-221: one pass of the loop over the samples of the track. *)
Definition visit (radius_km : R) (sample : R * R) (covered_pixels : gset (Z * Z))
  : result (gset (Z * Z)) :=
  let* box := sample_box radius_km sample in
  Ok (add_circle sample radius_km box covered_pixels).

(** Lines 190-221: the loop over the ground track, from a given set. *)
Fixpoint sweep (radius_km : R) (track : list (R * R)) (covered_pixels : gset (Z * Z))
  : result (gset (Z * Z)) :=
  match track with
  | [] => Ok covered_pixels
  | sample :: rest =>
      let* covered := visit radius_km sample covered_pixels in
      sweep radius_km rest covered
  end.

(** [POPULATION_COUNT_DATA[r, c]] for indices that are not negative. *)
Definition cell (rc : Z * Z) : result F :=
  let (r, c) := rc in
  match POPULATION_COUNT_DATA svc !! Z.to_nat r with
  | Some row =>
      match row !! Z.to_nat c with
      | Some v => Ok v
      | None => Raise IndexError
      end
  | None => Raise IndexError
  end.

(** [[f(x) for x in xs]], stopping at the first exception. *)
Fixpoint map_result {A B : Type} (f : A -> result B) (xs : list A) : result (list B) :=
  match xs with
  | [] => Ok []
  | x :: rest =>
      let* y := f x in
      let* ys := map_result f rest in
      Ok (y :: ys)
  end.

(** The builtin [sum] of a sequence of cells: it starts from 0 and adds
    from left to right. *)
Definition py_sum (xs : list F) : F := fold_left f_add xs f_zero.

(** Line 223 when the generator yields the pixels in the order [order]:
    the cells are looked up and added in that order. *)
Definition total_population_in (order : list (Z * Z)) : result F :=
  let* cells := map_result cell order in
  Ok (py_sum cells).

(** Python leaves the iteration order of a set unspecified (in CPython
    it depends on the hashes and on the history of insertions): [order]
    is an order in which the set can be iterated when it lists every
    member once and nothing else. *)
Definition iterates (covered_pixels : gset (Z * Z)) (order : list (Z * Z)) : Prop :=
  NoDup order /\ forall p, p ∈ order <-> p ∈ covered_pixels.

(** Line 223 with the order of [elements].  With cells that round, the
    total can depend on the order; statements that are sensitive to it
    are made about [total_population_in] for every order that
    [iterates] the set. *)
Definition total_population (covered_pixels : gset (Z * Z)) : result F :=
  total_population_in (elements covered_pixels).

(** The body of [get_coverage_score] for a ground track (the samples the
    orbit propagator yields over one period) and a footprint radius, in
    a run that iterates over the final set in the order [order]. *)
Definition coverage_score_in (order : list (Z * Z)) (track : list (R * R))
    (radius_km : R) : result Z :=
  let* covered_pixels := sweep radius_km track ∅ in
  let* total := total_population_in order in
  f_int total.

(** The same with the order of [elements]. *)
Definition coverage_score (track : list (R * R)) (radius_km : R) : result Z :=
  let* covered_pixels := sweep radius_km track ∅ in
  let* total := total_population covered_pixels in
  f_int total.

(** Line 185: the endpoint fixes the radius. *)
Definition spotbeam_radius_km : R := 1300%R.

Definition get_coverage_score (track : list (R * R)) : result Z :=
  coverage_score track spotbeam_radius_km.

End Service.

Arguments service F : clear implicits.

(** *** The samples of one orbital period *)

(** [math.ceil]. *)
Definition py_ceil (x : R) : Z := (- Int_part (- x))%Z.

(** [np.arange(start, stop, step)] on floats: the values
    start + i * step for 0 <= i < ceil((stop - start) / step). *)
Definition np_arange (start stop step : R) : list R :=
  map (fun i => (start + IZR i * step)%R)
      (range 0 (py_ceil ((stop - start) / step))).

(** Line 191. *)
Definition time_step_seconds : R := 10%R.

(** Line 188, from the mean motion read off the TLE (revolutions per
    day). *)
Definition period_seconds (mean_motion_revs_per_day : R) : result R :=
  py_div (24 * 60 * 60) mean_motion_revs_per_day.

(** Lines 192-198: the (lat, lon) of the sub-satellite point at every
    sample time of one period.  [subpoint t] stands for what skyfield
    gives for the satellite [t] seconds after the TLE epoch. *)
Definition ground_track (subpoint : R -> R * R) (mean_motion_revs_per_day : R)
  : result (list (R * R)) :=
  let* period := period_seconds mean_motion_revs_per_day in
  Ok (map subpoint (np_arange 0 period time_step_seconds)).

(** Lines 184-225: the body of the [try] block of [get_coverage_score]. *)
Definition coverage_score_of_orbit {F : Type} `{Float64 F} (svc : service F)
    (great_circle : R * R -> R * R -> R) (subpoint : R -> R * R)
    (mean_motion_revs_per_day : R) : result Z :=
  let* track := ground_track subpoint mean_motion_revs_per_day in
  get_coverage_score svc great_circle track.

(** *** calculate_spotbeam_polygon *)

Section Spotbeam.

(** [geodesic().destination(point, bearing, distance)] of geopy, from a
    (latitude, longitude) to a (latitude, longitude). *)
Variable destination : R * R -> R -> R -> R * R.

(** Lines 48-56: the points are [longitude, latitude] pairs; the last
    line indexes the list, which raises on an empty one. *)
Definition calculate_spotbeam_polygon (center_lat center_lon radius_km : R)
    (num_points : Z) : result (list (R * R)) :=
  let polygon_points :=
    map (fun i =>
           let bearing := (IZR i * (360 / IZR num_points))%R in
           let dest_point := destination (center_lat, center_lon) bearing radius_km in
           (snd dest_point, fst dest_point))
        (range 0 num_points) in
  match polygon_points with
  | [] => Raise IndexError
  | first :: _ => Ok (polygon_points ++ [first])
  end.

End Spotbeam.

End App.

(** ** generate_population_map: the shift of the map to [0, 360] *)

Module PopulationMap.

(** [np.roll(row, shift)] along one axis: the element at index i goes to
    index (i + shift) mod n. *)
Definition np_roll {A} (row : list A) (shift : Z) : list A :=
  let n := Z.of_nat (length row) in
  if (n =? 0)%Z then row
  else
    let k := Z.to_nat ((- shift) mod n) in
    drop k row ++ take k row.

(** [data.shape[1]] of a two-dimensional array. *)
Definition shape1 {A} (data : list (list A)) : Z :=
  match data with
  | [] => 0
  | row :: _ => Z.of_nat (length row)
  end.

(** [np.roll(data, shift, axis=1)]: every row is rolled. *)
Definition roll_columns {A} (data : list (list A)) (shift : Z) : list (list A) :=
  map (fun row => np_roll row shift) data.

(** [np.where(mask, data, fill)] on arrays of one shape. *)
Definition np_where {A} (mask : list (list bool)) (data : list (list A)) (fill : A)
  : list (list A) :=
  zip_with (zip_with (fun (m : bool) v => if m then v else fill)) mask data.

(** Lines 97-108: the raster and the land mask, which has the shape of
    the raster, are rolled by the same amount, half the width of the
    raster; then the sea is filled. *)
Definition data_land {A} (land_mask : list (list bool)) (data : list (list A)) (fill : A)
  : list (list A) :=
  let cols := shape1 data in
  let roll_amount := (cols / 2)%Z in
  let data := roll_columns data roll_amount in
  let land_mask := roll_columns land_mask roll_amount in
  np_where land_mask data fill.

(** A two-dimensional array of the given shape. *)
Definition has_shape {A} (data : list (list A)) (rows cols : nat) : Prop :=
  length data = rows /\ Forall (fun row => length row = cols) data.

End PopulationMap.

(** * The vocabulary of the statements, and sample rasters *)

(** ** Quantities the statements speak of *)

(** The mathematical sum of a list of reals. *)
Definition Rsum (xs : list R) : R := foldr Rplus 0%R xs.

(** The latitude of the centre of the pixels of row [r]. *)
Definition row_lat (T : Affine.t) (r : nat) : R :=
  snd (Affine.apply T (0 + 0.5, INR r + 0.5)%R).

(** The two factors and the row area as the specification words them
    (section 4.2), for a latitude in degrees. *)
Definition spec_km_per_deg_lon (lat : R) : R := (111.320 * cos (radians lat))%R.

Definition spec_km_per_deg_lat (lat : R) : R :=
  (111.132 - 0.559 * sin (radians lat) ^ 2 + 0.0012 * sin (radians lat) ^ 4)%R.

Definition spec_row_area (width_deg height_deg lat : R) : R :=
  ((width_deg * spec_km_per_deg_lon lat) * (height_deg * spec_km_per_deg_lat lat))%R.

(** Pixel (r, c) is in the footprint of a sample: it lies in the
    sample's clamped index box and the great-circle distance from the
    sample to its centre [RASTER_TRANSFORM * (c + 0.5, r + 0.5)] is at
    most the radius. *)
Definition in_footprint {F : Type} `{Float64 F} (svc : App.service F)
    (great_circle : R * R -> R * R -> R) (radius_km : R) (sample : R * R) (p : Z * Z)
  : Prop :=
  exists box,
    App.sample_box svc radius_km sample = Ok box
    /\ (box.1.1.1 <= p.1 < box.1.1.2)%Z /\ (box.1.2 <= p.2 < box.2)%Z
    /\ (great_circle sample
          (snd (Affine.apply (App.RASTER_TRANSFORM svc) (IZR p.2 + 0.5, IZR p.1 + 0.5)%R),
           fst (Affine.apply (App.RASTER_TRANSFORM svc) (IZR p.2 + 0.5, IZR p.1 + 0.5)%R))
        <= radius_km)%R.

(** The count of a pixel, 0 where the index is outside the array. *)
Definition cell_value {F : Type} `{Float64 F} (svc : App.service F) (p : Z * Z) : F :=
  match App.cell svc p with
  | Ok v => v
  | Raise _ => f_zero
  end.

(** The cells of a raster with zero in the place of every NaN. *)
Definition nan_to_zero (g : list (list float)) : list (list float) :=
  map (map (fun v => if PrimFloat.is_nan v then 0%float else v)) g.

(** The service with zero in the place of every NaN cell. *)
Definition with_nan_to_zero (svc : App.service float) : App.service float := {|
  App.POPULATION_COUNT_DATA := nan_to_zero (App.POPULATION_COUNT_DATA svc);
  App.RASTER_TRANSFORM := App.RASTER_TRANSFORM svc;
  App.RASTER_SHAPE := App.RASTER_SHAPE svc
|}.

(** The array has the shape the service was started with. *)
Definition well_formed {F : Type} (svc : App.service F) : Prop :=
  Z.of_nat (length (App.POPULATION_COUNT_DATA svc)) = (App.RASTER_SHAPE svc).1
  /\ Forall (fun row => Z.of_nat (length row) = (App.RASTER_SHAPE svc).2)
            (App.POPULATION_COUNT_DATA svc).

(** The index pairs of a box, row by row. *)
Definition box_cells (box : Z * Z * Z * Z) : list (Z * Z) :=
  let '(row_start, row_stop, col_start, col_stop) := box in
  r ← App.range row_start row_stop;
  c ← App.range col_start col_stop;
  [(r, c)].

(** ** Sample rasters *)

(** A small projected raster, counts per pixel, raw total 1 + 2 + 3 + 4. *)
Definition raster_2x2 : Preprocess.raster := {|
  Preprocess.masked_data := [[1; 2]; [3; 4]]%R;
  Preprocess.nodata := (-9999)%R;
  Preprocess.transform := Affine.make 1000 0 0 0 (-1000) 0;
  Preprocess.res := (1000, 1000)%R;
  Preprocess.is_geographic := false
|}.

(** A 3 x 3 grid over the whole globe: pixels of 120 x 60 degrees, row
    centres at latitudes 60, 0 and -60. *)
Definition transform_3x3 : Affine.t := Affine.make 120 0 (-180) 0 (-60) 90.

(** A service over that grid. *)
Definition service_3x3_of {F : Type} (data : list (list F)) : App.service F := {|
  App.POPULATION_COUNT_DATA := data;
  App.RASTER_TRANSFORM := transform_3x3;
  App.RASTER_SHAPE := (3, 3)%Z
|}.

(** All the population in the north-west corner pixel. *)
Definition service_3x3 : App.service R :=
  service_3x3_of [[5; 0; 0]; [0; 0; 0]; [0; 0; 0]]%R.

(** The 3 x 3 raster with a NaN in its middle pixel. *)
Definition service_3x3_nan : App.service float :=
  service_3x3_of [[0; 0; 0]; [0; nan; 0]; [0; 0; 0]]%float.

(** A global raster of one-degree pixels, 180 rows by 360 columns, the
    top-left corner at longitude -180 and latitude 90. *)
Definition transform_1deg : Affine.t := Affine.make 1 0 (-180) 0 (-1) 90.

(** A service over that raster. *)
Definition service_1deg (data : list (list float)) : App.service float := {|
  App.POPULATION_COUNT_DATA := data;
  App.RASTER_TRANSFORM := transform_1deg;
  App.RASTER_SHAPE := (180, 360)%Z
|}.

(** One inhabitant in every pixel. *)
Definition ones_1deg : list (list float) := replicate 180 (replicate 360 1%float).

(** ** Further quantities and samples *)

(** The area that multiplies the cells of row [r]: the row area in the
    geographic branch, the constant one in the projected branch, and
    nothing (1) for counts given per pixel. *)
Definition cell_area (src : Preprocess.raster) (units : string) (r : nat) : R :=
  if String.eqb units "per_km2" then
    if Preprocess.is_geographic src
    then spec_row_area (Rabs (fst (Preprocess.res src))) (Rabs (snd (Preprocess.res src)))
           (row_lat (Preprocess.transform src) r)
    else (Rabs (fst (Preprocess.res src) * snd (Preprocess.res src)) / 1000000)%R
  else 1%R.

(** [filled] cell by cell. *)
Definition unmasked (src : Preprocess.raster) (v : R) : R :=
  if Reqb v (Preprocess.nodata src) then 0%R else v.

(** A 2 x 2 projected raster with one masked cell. *)
Definition raster_masked : Preprocess.raster := {|
  Preprocess.masked_data := [[1; -9999]; [3; 4]]%R;
  Preprocess.nodata := (-9999)%R;
  Preprocess.transform := Affine.make 1000 0 0 0 (-1000) 0;
  Preprocess.res := (1000, 1000)%R;
  Preprocess.is_geographic := false
|}.

Definition all_zero (g : list (list R)) : Prop := Forall (Forall (fun v => v = 0%R)) g.

(** An ocean-only 1 x 2 geographic raster. *)
Definition raster_ocean : Preprocess.raster := {|
  Preprocess.masked_data := [[-9999; -9999]]%R;
  Preprocess.nodata := (-9999)%R;
  Preprocess.transform := Affine.make 1 0 0 0 (-1) 0;
  Preprocess.res := (1, 1)%R;
  Preprocess.is_geographic := true
|}.

(** What the run on [raster_masked] leaves, and the raster read back
    from it. *)
Definition conv_masked : Preprocess.conversion R := {|
  Preprocess.saved_array := map (map (fun v => v * (7000000000 / 8))%R) [[1; 0]; [3; 4]]%R;
  Preprocess.total_raw := 8%R;
  Preprocess.total_adjusted :=
    Preprocess.np_sum (map (map (fun v => v * (7000000000 / 8))%R) [[1; 0]; [3; 4]]%R);
  Preprocess.scale_factor := (7000000000 / 8)%R;
  Preprocess.target_population := 7000000000%R
|}.

Definition raster_rerun : Preprocess.raster := {|
  Preprocess.masked_data := Preprocess.saved_array conv_masked;
  Preprocess.nodata := (-9999)%R;
  Preprocess.transform := Preprocess.transform raster_masked;
  Preprocess.res := Preprocess.res raster_masked;
  Preprocess.is_geographic := false
|}.

(** The cells of an index box, as a 2-D array. *)
Definition box_values {F : Type} `{Float64 F} (svc : App.service F)
    (box : Z * Z * Z * Z) : list (list F) :=
  let '(row_start, row_stop, col_start, col_stop) := box in
  map (fun r => map (fun c => cell_value svc (r, c)) (App.range col_start col_stop))
      (App.range row_start row_stop).

(** The population of the 3 x 3 sample raster, as binary64 cells. *)
Definition service_3x3_float : App.service float :=
  service_3x3_of [[5; 0; 0]; [0; 0; 0]; [0; 0; 0]]%float.

(** ** Quantities and samples of the rounded readings *)

(** CountRaster at pixel (r, c), read off the array itself: 0 where the
    array has no such cell. *)
Definition count_at {F : Type} `{Float64 F} (svc : App.service F) (p : Z * Z) : F :=
  nth (Z.to_nat p.2) (nth (Z.to_nat p.1) (App.POPULATION_COUNT_DATA svc) []) f_zero.

(** The sum of a sequence as the specification reads it: nothing sums to
    0, and the last value is added to the sum of those before it. *)
Definition sum_in_order {F : Type} `{Float64 F} (xs : list F) : F :=
  fold_right (fun x before => f_add before x) f_zero (rev xs).

(** The 3 x 3 grid with 5 inhabitants in the north-west corner pixel and
    7 in the middle pixel. *)
Definition service_3x3_towns : App.service R :=
  service_3x3_of [[5; 0; 0]; [0; 7; 0]; [0; 0; 0]]%R.

(** The 3 x 3 grid with the binary64 cells 0.1, 0.2 and 0.7 in its first
    row. *)
#[warnings="-inexact-float"]
Definition service_3x3_tenths : App.service float :=
  service_3x3_of [[0.1; 0.2; 0.7]; [0; 0; 0]; [0; 0; 0]]%float.

(** One rounding has relative error at most 2^-53: what binary64
    round-to-nearest gives while nothing overflows or underflows. *)
Definition standard_model (rnd : R -> R) : Prop :=
  forall x : R, (Rabs (rnd x - x) <= Rabs x / 2 ^ 53)%R.

(** The unit roundoff of binary64. *)
Definition u53 : R := (/ 2 ^ 53)%R.

(** A rounding that always loses the full relative error. *)
Definition round_down (x : R) : R := (x * (1 - / 2 ^ 53))%R.

(** * Properties *)

(** ** The result monad and the two readings of equality *)

Lemma bind_Ok_inv {A B} (m : result A) (k : A -> result B) (b : B) :
  bind m k = Ok b -> exists a, m = Ok a /\ k a = Ok b.
Proof. destruct m as [a|e]; simpl; [eauto | discriminate]. Qed.

Lemma Reqb_true (x y : R) : Reqb x y = true <-> x = y.
Proof. unfold Reqb; destruct (Req_dec_T x y); split; congruence. Qed.

Lemma Reqb_false (x y : R) : Reqb x y = false <-> x <> y.
Proof. unfold Reqb; destruct (Req_dec_T x y); split; congruence. Qed.

(** ** Sums in exact arithmetic *)

Lemma fold_left_Rplus (xs : list R) (acc : R) :
  fold_left Rplus xs acc = (acc + Rsum xs)%R.
Proof.
  revert acc; induction xs as [|x xs IH]; intros acc; simpl.
  - lra.
  - rewrite IH. unfold Rsum; simpl. lra.
Qed.

Lemma np_sum1_Rsum (xs : list R) : Preprocess.np_sum1 xs = Rsum xs.
Proof.
  destruct xs as [|x xs]; simpl; [reflexivity|].
  change (fold_left f_add xs x) with (fold_left Rplus xs x).
  rewrite fold_left_Rplus. reflexivity.
Qed.

Lemma Rsum_app (xs ys : list R) : Rsum (xs ++ ys) = (Rsum xs + Rsum ys)%R.
Proof. induction xs as [|x xs IH]; simpl; [lra|]. rewrite IH; lra. Qed.

Lemma Rsum_scale (s : R) (xs : list R) :
  Rsum (map (fun v => v * s)%R xs) = (Rsum xs * s)%R.
Proof. induction xs as [|x xs IH]; simpl; [lra|]. rewrite IH; lra. Qed.

Lemma Rsum_Permutation (xs ys : list R) : xs ≡ₚ ys -> Rsum xs = Rsum ys.
Proof. induction 1; simpl; lra. Qed.

Lemma Rsum_nonneg (xs : list R) : Forall (fun v => 0 <= v)%R xs -> (0 <= Rsum xs)%R.
Proof. induction 1; simpl; lra. Qed.

Lemma concat_map_map {A B} (f : A -> B) (g : list (list A)) :
  concat (map (map f) g) = map f (concat g).
Proof. induction g as [|row g IH]; simpl; [reflexivity|]. rewrite IH, map_app. reflexivity. Qed.

Lemma np_sum_scale (s : R) (g : Preprocess.grid R) :
  Preprocess.np_sum (map (map (fun v => f_mul v s)) g) = (Preprocess.np_sum g * s)%R.
Proof.
  unfold Preprocess.np_sum. rewrite concat_map_map, !np_sum1_Rsum.
  apply Rsum_scale.
Qed.

(** ** The count normaliser *)

Section NormalizerFacts.
Context {F : Type} `{Float64 F}.

(** The normaliser raises on a zero total and on nothing else. *)
Lemma normalize_cases (pop_counts : Preprocess.grid F) (target_pop : F) :
  let raw := Preprocess.np_sum pop_counts in
  (f_eqb raw f_zero = true ->
     Preprocess.normalize pop_counts target_pop = Raise ZeroDivisionError) /\
  (f_eqb raw f_zero = false ->
     Preprocess.normalize pop_counts target_pop =
       Ok {| Preprocess.saved_array :=
               map (map (fun v => f_mul v (f_div target_pop raw))) pop_counts;
             Preprocess.total_raw := raw;
             Preprocess.total_adjusted :=
               Preprocess.np_sum
                 (map (map (fun v => f_mul v (f_div target_pop raw))) pop_counts);
             Preprocess.scale_factor := f_div target_pop raw;
             Preprocess.target_population := target_pop |}).
Proof.
  simpl; split; intros E; unfold Preprocess.normalize, Preprocess.normalize_with, Preprocess.py_div;
    rewrite E; reflexivity.
Qed.

Lemma raw_total_inv (masked_data : Preprocess.grid F) (nodata : F)
    (area : Preprocess.pixel_area F) (units : string) (raw : F) :
  Preprocess.raw_total masked_data nodata area units = Ok raw ->
  exists pop_counts,
    Preprocess.raw_counts (Preprocess.filled masked_data nodata) area units = Ok pop_counts
    /\ raw = Preprocess.np_sum pop_counts.
Proof.
  unfold Preprocess.raw_total. intros E.
  apply bind_Ok_inv in E as (pc & E1 & E2). exists pc. split; [exact E1|].
  congruence.
Qed.

End NormalizerFacts.

(** C4 (as amended).  The normaliser has no test on the raw total: a run
    fails there exactly when Python's division raises, that is when the
    raw total compares equal to zero, and then before anything is saved.
    With any other raw total, NaN and the infinities included, the run
    completes and saves the counts multiplied by target / raw. *)
Theorem convert_raises_iff_raw_total_zero {F : Type} `{Float64 F}
    (masked_data : Preprocess.grid F) (nodata : F) (area : Preprocess.pixel_area F)
    (units : string) (target_pop raw : F) :
  Preprocess.raw_total masked_data nodata area units = Ok raw ->
  (f_eqb raw f_zero = true ->
     Preprocess.convert_from_area masked_data nodata area units target_pop
     = Raise ZeroDivisionError) /\
  (f_eqb raw f_zero = false ->
     exists conv pop_counts,
       Preprocess.convert_from_area masked_data nodata area units target_pop = Ok conv
       /\ Preprocess.raw_counts (Preprocess.filled masked_data nodata) area units
          = Ok pop_counts
       /\ Preprocess.total_raw conv = raw
       /\ Preprocess.scale_factor conv = f_div target_pop raw
       /\ Preprocess.saved_array conv
          = map (map (fun v => f_mul v (f_div target_pop raw))) pop_counts
       /\ Preprocess.total_adjusted conv
          = Preprocess.np_sum (Preprocess.saved_array conv)).
Proof.
  intros Hraw. apply raw_total_inv in Hraw as (pc & Hpc & ->).
  destruct (normalize_cases pc target_pop) as [Hz Hnz].
  unfold Preprocess.convert_from_area. rewrite Hpc. simpl. split.
  - exact Hz.
  - intros E. rewrite (Hnz E). eexists _, pc. repeat split; reflexivity.
Qed.

(** A raster of zeros: the run raises ZeroDivisionError. *)
Lemma convert_raises_iff_raw_total_zero_witness :
  Preprocess.convert_from_area [[0%float; 0%float]] (-9999)%float
    (Preprocess.AreaScalar 1%float) "per_km2" 7e9%float
  = Raise ZeroDivisionError.
Proof.
  refine (proj1 (convert_raises_iff_raw_total_zero
                   [[0%float; 0%float]] (-9999)%float
                   (Preprocess.AreaScalar 1%float) "per_km2" 7e9%float
                   0%float _) _);
    vm_compute; reflexivity.
Defined.

(** C4 (as stated) fails.  A raster whose nodata value is NaN keeps its
    NaN cells ([NaN == NaN] is false), the raw total is NaN, and the run
    completes with an array of NaN; an infinite cell gives an infinite raw
    total, a scale factor of 0 and the cells 0 and NaN. *)
Lemma convert_saves_nan_array :
  Preprocess.convert_projected [[1%float; nan]] nan (1000, 1000)%float
    "per_pixel" 7e9%float
  = Ok {| Preprocess.saved_array := [[nan; nan]];
          Preprocess.total_raw := nan;
          Preprocess.total_adjusted := nan;
          Preprocess.scale_factor := nan;
          Preprocess.target_population := 7e9%float |}
  /\
  Preprocess.convert_projected [[1%float; infinity]] (-9999)%float
    (1000, 1000)%float "per_km2" 7e9%float
  = Ok {| Preprocess.saved_array := [[0%float; nan]];
          Preprocess.total_raw := infinity;
          Preprocess.total_adjusted := nan;
          Preprocess.scale_factor := 0%float;
          Preprocess.target_population := 7e9%float |}.
Proof. split; vm_compute; reflexivity. Qed.

(** In exact arithmetic a run whose raw total is not zero completes, and
    the sum of the saved counts is the target population itself. *)
Lemma normalized_total_exact (src : Preprocess.raster) (units : string)
    (target_pop raw : R) :
  Preprocess.raw_total (Preprocess.masked_data src) (Preprocess.nodata src)
    (Preprocess.pixel_area_km2 src) units = Ok raw ->
  raw <> 0%R ->
  exists conv,
    Preprocess.convert_density_to_count src units target_pop = Ok conv
    /\ Preprocess.np_sum (Preprocess.saved_array conv) = target_pop
    /\ Preprocess.total_adjusted conv = target_pop
    /\ (Rabs (Preprocess.total_adjusted conv - target_pop)
        <= 1e-6 * Rabs target_pop)%R.
Proof.
  intros Hraw Hnz. apply raw_total_inv in Hraw as (pc & Hpc & ->).
  destruct (normalize_cases pc target_pop) as [_ Hok].
  unfold Preprocess.convert_density_to_count, Preprocess.convert_from_area.
  rewrite Hpc. cbn [bind]. rewrite Hok by (apply Reqb_false; exact Hnz).
  eexists. split; [reflexivity|].
  cbn [Preprocess.saved_array Preprocess.total_adjusted].
  assert (Hsum : Preprocess.np_sum
                   (map (map (fun v => f_mul v (f_div target_pop (Preprocess.np_sum pc)))) pc)
                 = target_pop).
  { rewrite np_sum_scale. simpl. field. exact Hnz. }
  rewrite Hsum. repeat split.
  replace (target_pop - target_pop)%R with 0%R by lra.
  rewrite Rabs_R0. pose proof (Rabs_pos target_pop). lra.
Qed.


(** C8.  The projected branch takes one area for all pixels,
    |xres * yres| / 10^6.  On the uniform scenario (10 x 10 cells of
    density 10, pixels of 2000 m x 2000 m, nothing masked, target 1600)
    the binary64 run gives raw total 4000, scale factor 0.4 (the double
    nearest to it) and adjusted total 1600, every cell being 16. *)
#[warnings="-inexact-float"]
Theorem projected_area_and_uniform_scenario :
  (forall xres yres : R,
     Preprocess.pixel_area_projected (xres, yres)
     = (Rabs (xres * yres) / 1000000)%R)
  /\
  (forall (data : Preprocess.grid R) (nodata xres yres : R) (T : Affine.t),
     Preprocess.pixel_area_km2
       {| Preprocess.masked_data := data; Preprocess.nodata := nodata;
          Preprocess.transform := T; Preprocess.res := (xres, yres);
          Preprocess.is_geographic := false |}
     = Preprocess.AreaScalar (Rabs (xres * yres) / 1000000)%R)
  /\
  Preprocess.pixel_area_projected (2000, 2000)%float = 4%float
  /\
  Preprocess.convert_projected (replicate 10 (replicate 10 10%float)) (-9999)%float
    (2000, 2000)%float "per_km2" 1600%float
  = Ok {| Preprocess.saved_array := replicate 10 (replicate 10 16%float);
          Preprocess.total_raw := 4000%float;
          Preprocess.total_adjusted := 1600%float;
          Preprocess.scale_factor := 0.4%float;
          Preprocess.target_population := 1600%float |}.
Proof.
  assert (Harea : forall xres yres : R,
             Preprocess.pixel_area_projected (xres, yres)
             = (Rabs (xres * yres) / 1000000)%R).
  { intros. unfold Preprocess.pixel_area_projected. simpl. rewrite Rabs_mult. reflexivity. }
  split; [exact Harea|]. split.
  - intros. cbv [Preprocess.pixel_area_km2 Preprocess.is_geographic Preprocess.res].
    rewrite Harea. reflexivity.
  - split; vm_compute; reflexivity.
Qed.

(** ** The pixel-area model of the geographic branch *)

Lemma lookup_map {A B} (f : A -> B) (l : list A) (i : nat) :
  map f l !! i = f <$> (l !! i).
Proof. revert i; induction l as [|x l IH]; intros [|i]; simpl; auto. Qed.

Lemma pixel_area_geographic_lookup (T : Affine.t) (res : R * R) (nrows r : nat) :
  (r < nrows)%nat ->
  Preprocess.pixel_area_geographic T res nrows !! r
  = Some (spec_row_area (Rabs (fst res)) (Rabs (snd res)) (row_lat T r)).
Proof.
  intros Hr. unfold Preprocess.pixel_area_geographic, Preprocess.xy_center.
  cbn [snd]. rewrite lookup_zip_with, !lookup_map, lookup_seq_lt by exact Hr.
  reflexivity.
Qed.

Lemma pixel_area_geographic_lookup_inv (T : Affine.t) (res : R * R) (nrows r : nat) (a : R) :
  Preprocess.pixel_area_geographic T res nrows !! r = Some a ->
  a = spec_row_area (Rabs (fst res)) (Rabs (snd res)) (row_lat T r).
Proof.
  intros E. destruct (decide (r < nrows)%nat) as [Hr|Hr].
  - rewrite (pixel_area_geographic_lookup _ _ _ _ Hr) in E. congruence.
  - apply lookup_lt_Some in E. exfalso. apply Hr.
    revert E. unfold Preprocess.pixel_area_geographic, Preprocess.xy_center.
    cbn [snd]. rewrite length_zip_with, !length_map, length_seq. lia.
Qed.

Lemma times_area_column_lookup (g : Preprocess.grid R) (areas : list R) (r c : nat)
    (row : list R) (v a : R) :
  g !! r = Some row -> row !! c = Some v -> areas !! r = Some a ->
  exists row', Preprocess.times_area g (Preprocess.AreaColumn areas) !! r = Some row'
               /\ row' !! c = Some (v * a)%R.
Proof.
  intros Hg Hrow Ha. eexists. split.
  - cbn [Preprocess.times_area]. rewrite lookup_zip_with, Hg, Ha. reflexivity.
  - rewrite lookup_map, Hrow. reflexivity.
Qed.

Lemma radians_60 : radians 60 = (PI / 3)%R.
Proof. unfold radians. lra. Qed.

Lemma radians_0 : radians 0 = 0%R.
Proof. unfold radians. lra. Qed.

(** C7.  Row [r] of the geographic pixel-area column is
    (width * 111.320 cos(lat)) * (height * (111.132 - 0.559 sin^2(lat)
    + 0.0012 sin^4(lat))) at the latitude of the row's pixel centres, the
    width and height being the absolute resolutions; every cell of the
    row is multiplied by it; and the longitude factor at 60 degrees is
    half the one at 0 degrees. *)
Theorem geographic_row_area (T : Affine.t) (res : R * R) (nrows r : nat) :
  (r < nrows)%nat ->
  Preprocess.pixel_area_geographic T res nrows !! r
  = Some ((Rabs (fst res) * (111.320 * cos (radians (row_lat T r))))
          * (Rabs (snd res)
             * (111.132 - 0.559 * sin (radians (row_lat T r)) ^ 2
                + 0.0012 * sin (radians (row_lat T r)) ^ 4)))%R
  /\ (forall (g : Preprocess.grid R) (row : list R) (c : nat) (v : R),
        g !! r = Some row -> row !! c = Some v ->
        exists row',
          Preprocess.times_area g
            (Preprocess.AreaColumn (Preprocess.pixel_area_geographic T res nrows)) !! r
          = Some row'
          /\ row' !! c
             = Some (v * spec_row_area (Rabs (fst res)) (Rabs (snd res)) (row_lat T r))%R)
  /\ cos (radians 60) = 0.5%R
  /\ spec_km_per_deg_lon 60 = (0.5 * spec_km_per_deg_lon 0)%R.
Proof.
  intros Hr. pose proof (pixel_area_geographic_lookup T res nrows r Hr) as Hl.
  assert (Hc : cos (radians 60) = 0.5%R).
  { rewrite radians_60, cos_PI3. lra. }
  split; [exact Hl|]. split; [|split; [exact Hc|]].
  - intros g row c v Hg Hrow. eapply times_area_column_lookup; eauto.
  - unfold spec_km_per_deg_lon. rewrite Hc, radians_0, cos_0. lra.
Qed.

Lemma geographic_row_area_witness :
  Preprocess.pixel_area_geographic transform_3x3 (120, 60)%R 3 !! 0%nat
  = Some ((Rabs (fst (120, 60)) * (111.320 * cos (radians (row_lat transform_3x3 0))))
          * (Rabs (snd (120, 60))
             * (111.132 - 0.559 * sin (radians (row_lat transform_3x3 0)) ^ 2
                + 0.0012 * sin (radians (row_lat transform_3x3 0)) ^ 4)))%R.
Proof.
  refine (proj1 (geographic_row_area transform_3x3 (120, 60)%R 3 0 _)). lia.
Defined.

(** *** Monotonicity of the row area in the absolute latitude *)

Lemma radians_Rabs (lat : R) : radians (Rabs lat) = Rabs (radians lat).
Proof.
  unfold radians. pose proof PI_RGT_0.
  rewrite Rabs_mult, (Rabs_right (PI / 180)); [reflexivity | lra].
Qed.

Lemma cos_Rabs (x : R) : cos (Rabs x) = cos x.
Proof.
  unfold Rabs. destruct (Rcase_abs x); [apply cos_neg | reflexivity].
Qed.

Lemma cos_radians_Rabs (lat : R) : cos (radians (Rabs lat)) = cos (radians lat).
Proof. rewrite radians_Rabs. apply cos_Rabs. Qed.

(** Both factors as functions of the cosine c of the latitude. *)
Lemma spec_km_per_deg_lat_cos (lat : R) :
  let c := cos (radians lat) in
  spec_km_per_deg_lat lat
  = (111.132 - 0.559 * (1 - c * c) + 0.0012 * ((1 - c * c) * (1 - c * c)))%R.
Proof.
  intros c. unfold spec_km_per_deg_lat.
  pose proof (sin2_cos2 (radians lat)) as E. unfold Rsqr in E. fold c in E.
  replace (sin (radians lat) ^ 4)%R
    with ((sin (radians lat) * sin (radians lat))
          * (sin (radians lat) * sin (radians lat)))%R by ring.
  replace (sin (radians lat) ^ 2)%R
    with (sin (radians lat) * sin (radians lat))%R by ring.
  replace (sin (radians lat) * sin (radians lat))%R with (1 - c * c)%R by lra.
  reflexivity.
Qed.

(** The cosine of a latitude between the equator and a pole. *)
Lemma cos_latitude_order (lat1 lat2 : R) :
  (Rabs lat1 <= Rabs lat2 <= 90)%R ->
  (0 <= cos (radians lat2) <= cos (radians lat1))%R
  /\ (cos (radians lat1) <= 1)%R
  /\ (Rabs lat1 < Rabs lat2 -> cos (radians lat2) < cos (radians lat1))%R.
Proof.
  intros [H12 H2]. pose proof PI_RGT_0 as Hpi.
  pose proof (Rabs_pos lat1) as P1.
  rewrite <- (cos_radians_Rabs lat1), <- (cos_radians_Rabs lat2).
  assert (B1 : (0 <= radians (Rabs lat1) <= PI / 2)%R).
  { unfold radians. split; nra. }
  assert (B2 : (0 <= radians (Rabs lat2) <= PI / 2)%R).
  { unfold radians. split; nra. }
  assert (B12 : (radians (Rabs lat1) <= radians (Rabs lat2))%R).
  { unfold radians. nra. }
  repeat split.
  - apply cos_ge_0; lra.
  - apply cos_decr_1; lra.
  - apply COS_bound.
  - intros Hlt. apply cos_decreasing_1; try lra. unfold radians. nra.
Qed.

Lemma spec_row_area_poleward (w h lat1 lat2 : R) :
  (0 <= w)%R -> (0 <= h)%R ->
  (Rabs lat1 <= Rabs lat2 <= 90)%R ->
  (spec_row_area w h lat2 <= spec_row_area w h lat1)%R
  /\ (0 < w -> 0 < h -> Rabs lat1 < Rabs lat2 ->
      spec_row_area w h lat2 < spec_row_area w h lat1)%R.
Proof.
  intros Hw Hh Hlat.
  destruct (cos_latitude_order lat1 lat2 Hlat) as ([Hc2 Hc21] & Hc1 & Hstrict).
  unfold spec_row_area, spec_km_per_deg_lon.
  rewrite (spec_km_per_deg_lat_cos lat1), (spec_km_per_deg_lat_cos lat2). cbv zeta.
  set (c1 := cos (radians lat1)) in *. set (c2 := cos (radians lat2)) in *.
  set (k := fun c : R =>
              (111.132 - 0.559 * (1 - c * c) + 0.0012 * ((1 - c * c) * (1 - c * c)))%R).
  change (w * (111.320 * c2) * (h * k c2) <= w * (111.320 * c1) * (h * k c1)
          /\ (0 < w -> 0 < h -> Rabs lat1 < Rabs lat2 ->
              w * (111.320 * c2) * (h * k c2) < w * (111.320 * c1) * (h * k c1)))%R.
  assert (Hk2 : (110 <= k c2)%R) by (unfold k; nra).
  assert (Hk : (k c2 <= k c1)%R).
  { unfold k.
    assert (0 <= c1 * c1 - c2 * c2)%R by nra.
    assert (c1 * c1 <= 1)%R by nra.
    assert (c2 * c2 <= 1)%R by nra.
    nra. }
  assert (Hprod : (c2 * k c2 <= c1 * k c1)%R) by nra.
  split.
  - assert (0 <= w * h)%R by nra.
    replace (w * (111.320 * c2) * (h * k c2))%R
      with (111.320 * (w * h) * (c2 * k c2))%R by ring.
    replace (w * (111.320 * c1) * (h * k c1))%R
      with (111.320 * (w * h) * (c1 * k c1))%R by ring.
    nra.
  - intros Hw' Hh' Hlt. specialize (Hstrict Hlt).
    assert (0 < w * h)%R by nra.
    assert (Hprod' : (c2 * k c2 < c1 * k c1)%R) by nra.
    replace (w * (111.320 * c2) * (h * k c2))%R
      with (111.320 * (w * h) * (c2 * k c2))%R by ring.
    replace (w * (111.320 * c1) * (h * k c1))%R
      with (111.320 * (w * h) * (c1 * k c1))%R by ring.
    nra.
Qed.

(** C6.  In the geographic branch, of two rows whose centre latitudes
    lie between the poles, the one closer to a pole (larger absolute
    latitude) has the smaller or equal area; and a strictly smaller one
    when its absolute latitude is strictly larger and the resolution is
    not zero. *)
Theorem geographic_area_decreases_poleward (T : Affine.t) (res : R * R)
    (nrows r1 r2 : nat) (a1 a2 : R) :
  Preprocess.pixel_area_geographic T res nrows !! r1 = Some a1 ->
  Preprocess.pixel_area_geographic T res nrows !! r2 = Some a2 ->
  (Rabs (row_lat T r1) <= Rabs (row_lat T r2) <= 90)%R ->
  (a2 <= a1)%R
  /\ (fst res <> 0%R -> snd res <> 0%R ->
      (Rabs (row_lat T r1) < Rabs (row_lat T r2))%R -> (a2 < a1)%R).
Proof.
  intros E1 E2 Hlat.
  apply pixel_area_geographic_lookup_inv in E1, E2. subst a1 a2.
  pose proof (Rabs_pos (fst res)) as Hw. pose proof (Rabs_pos (snd res)) as Hh.
  destruct (spec_row_area_poleward _ _ _ _ Hw Hh Hlat) as [Hle Hlt].
  split; [exact Hle|].
  intros Hx Hy Hs. apply Hlt; [apply Rabs_pos_lt; exact Hx | apply Rabs_pos_lt; exact Hy | exact Hs].
Qed.

Lemma row_lat_3x3_0 : row_lat transform_3x3 0 = 60%R.
Proof. unfold row_lat, Affine.apply, transform_3x3. simpl. lra. Qed.

Lemma row_lat_3x3_1 : row_lat transform_3x3 1 = 0%R.
Proof. unfold row_lat, Affine.apply, transform_3x3. simpl. lra. Qed.

(** On the 3 x 3 global grid the row at latitude 60 has a smaller area
    than the row on the equator. *)
Lemma geographic_area_decreases_poleward_witness :
  (spec_row_area (Rabs 120) (Rabs 60) (row_lat transform_3x3 0)
   < spec_row_area (Rabs 120) (Rabs 60) (row_lat transform_3x3 1))%R.
Proof.
  refine (proj2 (geographic_area_decreases_poleward transform_3x3 (120, 60)%R 3 1 0
                   _ _ _ _ _) _ _ _).
  - apply pixel_area_geographic_lookup. lia.
  - apply pixel_area_geographic_lookup. lia.
  - rewrite row_lat_3x3_0, row_lat_3x3_1, Rabs_R0, (Rabs_right 60) by lra. lra.
  - simpl. lra.
  - simpl. lra.
  - rewrite row_lat_3x3_0, row_lat_3x3_1, Rabs_R0, (Rabs_right 60) by lra. lra.
Defined.

(** ** Reals to integers *)

Lemma Int_part_unique (x : R) (z : Z) :
  (IZR z <= x < IZR z + 1)%R -> Int_part x = z.
Proof. intros Hx. symmetry. apply Int_part_spec. lra. Qed.

Lemma Int_part_bounds (x : R) : (IZR (Int_part x) <= x < IZR (Int_part x) + 1)%R.
Proof. destruct (base_Int_part x). lra. Qed.

Lemma Int_part_mono (x y : R) : (x <= y)%R -> (Int_part x <= Int_part y)%Z.
Proof.
  intros Hxy. pose proof (Int_part_bounds x). pose proof (Int_part_bounds y).
  apply Z.lt_succ_r. apply lt_IZR. rewrite succ_IZR. lra.
Qed.

Lemma py_int_nonneg (x : R) (z : Z) :
  (0 <= x)%R -> (IZR z <= x < IZR z + 1)%R -> py_int x = z.
Proof.
  intros H0 Hz. unfold py_int. destruct (Rle_dec 0 x); [|contradiction].
  apply Int_part_unique. exact Hz.
Qed.

Lemma py_int_neg (x : R) (z : Z) :
  (x < 0)%R -> (IZR z - 1 < x <= IZR z)%R -> py_int x = z.
Proof.
  intros H0 Hz. unfold py_int. destruct (Rle_dec 0 x); [lra|].
  rewrite (Int_part_unique (- x) (- z)); [lia|]. rewrite opp_IZR. lra.
Qed.

Lemma py_int_IZR (z : Z) : py_int (IZR z) = z.
Proof.
  destruct (Rle_dec 0 (IZR z)) as [H|H].
  - apply py_int_nonneg; lra.
  - apply py_int_neg; lra.
Qed.

Lemma py_int_mono_nonneg (x y : R) : (0 <= x <= y)%R -> (py_int x <= py_int y)%Z.
Proof.
  intros [H0 Hxy]. unfold py_int.
  destruct (Rle_dec 0 x); [|lra]. destruct (Rle_dec 0 y); [|lra].
  apply Int_part_mono. exact Hxy.
Qed.

Lemma py_round_near (x : R) (z : Z) :
  (IZR z - 1 / 2 < x < IZR z + 1 / 2)%R -> py_round x = z.
Proof.
  intros Hx. unfold py_round.
  destruct (Rle_dec (IZR z) x) as [Hge|Hlt].
  - rewrite (Int_part_unique x z) by lra.
    destruct (Rlt_dec (x - IZR z) (1 / 2)); [reflexivity | lra].
  - rewrite (Int_part_unique x (z - 1)) by (rewrite minus_IZR; lra).
    rewrite minus_IZR.
    destruct (Rlt_dec (x - (IZR z - 1)) (1 / 2)); [lra|].
    destruct (Rlt_dec (1 / 2) (x - (IZR z - 1))); [lia | lra].
Qed.

(** ** The footprint sweep *)

Section SweepFacts.
Context {F : Type} `{Float64 F}.
Variable svc : App.service F.
Variable great_circle : R * R -> R * R -> R.

Lemma elem_of_range (x start stop : Z) :
  x ∈ App.range start stop <-> (start <= x < stop)%Z.
Proof. unfold App.range. rewrite elem_of_seqZ. lia. Qed.

(** The inner loop over the columns of one row. *)
Lemma add_row_spec (cp : R * R) (radius_km : R) (r : Z) (cols : list Z)
    (covered : gset (Z * Z)) (p : Z * Z) :
  p ∈ foldl (fun covered c =>
               if Rle_dec (App.pixel_distance svc great_circle cp r c) radius_km
               then {[ (r, c) ]} ∪ covered else covered) covered cols
  <-> p ∈ covered
      \/ (p.1 = r /\ p.2 ∈ cols
          /\ (App.pixel_distance svc great_circle cp p.1 p.2 <= radius_km)%R).
Proof.
  revert covered. induction cols as [|c cols IH]; intros covered; simpl.
  - split; [auto | intros [?|(_ & Hin & _)]; [assumption | inversion Hin]].
  - rewrite IH. destruct p as [pr pc]. simpl.
    destruct (Rle_dec (App.pixel_distance svc great_circle cp r c) radius_km) as [Hd|Hd].
    + rewrite elem_of_union, elem_of_singleton, elem_of_cons. split.
      * intros [[[= -> ->]|Hc]|(Hr & Hin & Hle)]; auto 10.
      * intros [Hc|(-> & [->|Hin] & Hle)]; auto 10.
    + rewrite elem_of_cons. split.
      * intros [Hc|(Hr & Hin & Hle)]; auto 10.
      * intros [Hc|(-> & [->|Hin] & Hle)]; auto 10. contradiction.
Qed.

(** The two loops over the box of one sample: what was covered stays
    covered, and a pixel of the box is added exactly when its centre is
    within the radius. *)
Lemma add_circle_spec (cp : R * R) (radius_km : R) (box : Z * Z * Z * Z)
    (covered : gset (Z * Z)) (p : Z * Z) :
  p ∈ App.add_circle svc great_circle cp radius_km box covered
  <-> p ∈ covered
      \/ ((box.1.1.1 <= p.1 < box.1.1.2)%Z /\ (box.1.2 <= p.2 < box.2)%Z
          /\ (App.pixel_distance svc great_circle cp p.1 p.2 <= radius_km)%R).
Proof.
  destruct box as [[[r0 r1] c0] c1]. unfold App.add_circle. simpl.
  rewrite <- (elem_of_range p.1 r0 r1), <- (elem_of_range p.2 c0 c1).
  generalize (App.range r0 r1) as rows. intros rows. revert covered.
  induction rows as [|r rows IH]; intros covered; simpl.
  - split; [auto | intros [?|(Hin & _)]; [assumption | inversion Hin]].
  - rewrite IH, add_row_spec, elem_of_cons. split.
    + intros [[Hc|(Hr & Hin & Hle)]|(Hr & Hin & Hle)]; auto 10.
    + intros [Hc|([Hr|Hr] & Hin & Hle)]; auto 10.
Qed.

Lemma pixel_distance_center (cp : R * R) (r c : Z) :
  App.pixel_distance svc great_circle cp r c
  = great_circle cp
      (snd (Affine.apply (App.RASTER_TRANSFORM svc) (IZR c + 0.5, IZR r + 0.5)%R),
       fst (Affine.apply (App.RASTER_TRANSFORM svc) (IZR c + 0.5, IZR r + 0.5)%R)).
Proof.
  unfold App.pixel_distance.
  destruct (Affine.apply (App.RASTER_TRANSFORM svc) (IZR c + 0.5, IZR r + 0.5)%R).
  reflexivity.
Qed.

Lemma visit_inv (radius_km : R) (sample : R * R) (covered covered' : gset (Z * Z)) :
  App.visit svc great_circle radius_km sample covered = Ok covered' ->
  exists box, App.sample_box svc radius_km sample = Ok box
              /\ covered' = App.add_circle svc great_circle sample radius_km box covered.
Proof.
  unfold App.visit. intros E. apply bind_Ok_inv in E as (box & Hbox & E).
  exists box. split; [exact Hbox | congruence].
Qed.

Lemma visit_spec (radius_km : R) (sample : R * R) (covered covered' : gset (Z * Z))
    (p : Z * Z) :
  App.visit svc great_circle radius_km sample covered = Ok covered' ->
  p ∈ covered' <-> p ∈ covered \/ in_footprint svc great_circle radius_km sample p.
Proof.
  intros E. apply visit_inv in E as (box & Hbox & ->).
  rewrite add_circle_spec, pixel_distance_center. unfold in_footprint. split.
  - intros [Hc|(Hr & Hc & Hd)]; [auto|]. right. exists box. auto.
  - intros [Hc|(box' & Hbox' & Hr & Hc & Hd)]; [auto|].
    right. assert (box' = box) as -> by congruence. auto.
Qed.

(** The loop over the track adds to the set the footprints of its
    samples and nothing else. *)
Lemma sweep_spec (radius_km : R) (track : list (R * R)) (covered covered' : gset (Z * Z))
    (p : Z * Z) :
  App.sweep svc great_circle radius_km track covered = Ok covered' ->
  p ∈ covered'
  <-> p ∈ covered \/ exists sample, sample ∈ track /\ in_footprint svc great_circle radius_km sample p.
Proof.
  revert covered. induction track as [|sample rest IH]; intros covered; simpl.
  - intros [= ->]. split; [auto|]. intros [?|(s & Hin & _)]; [assumption | inversion Hin].
  - intros E. apply bind_Ok_inv in E as (mid & Hvisit & Hrest).
    rewrite (IH _ Hrest), (visit_spec _ _ _ _ p Hvisit). split.
    + intros [[Hc|Hf]|(s & Hin & Hf)]; [auto | right | right].
      * exists sample. split; [left | exact Hf].
      * exists s. split; [right; exact Hin | exact Hf].
    + intros [Hc|(s & Hin & Hf)]; [auto|].
      apply elem_of_cons in Hin as [->|Hin]; [auto|]. right. eauto.
Qed.

(** The loop completes exactly when every sample has an index box. *)
Lemma sweep_Ok_iff (radius_km : R) (track : list (R * R)) (covered : gset (Z * Z)) :
  (exists covered', App.sweep svc great_circle radius_km track covered = Ok covered')
  <-> (forall sample, sample ∈ track ->
         exists box, App.sample_box svc radius_km sample = Ok box).
Proof.
  revert covered. induction track as [|sample rest IH]; intros covered; simpl.
  - split; [intros _ s Hin; inversion Hin | eauto].
  - split.
    + intros (covered' & E). apply bind_Ok_inv in E as (mid & Hvisit & Hrest).
      intros s Hin. apply elem_of_cons in Hin as [->|Hin].
      * apply visit_inv in Hvisit as (box & Hbox & _). eauto.
      * eapply IH; eauto.
    + intros Hall. destruct (Hall sample) as (box & Hbox); [left|].
      unfold App.visit at 1. rewrite Hbox. simpl.
      apply IH. intros s Hin. apply Hall. right. exact Hin.
Qed.

End SweepFacts.

(** The sweep as a whole, when every sample has an index box. *)
Lemma coverage_score_unfold {F : Type} `{Float64 F} (svc : App.service F)
    (great_circle : R * R -> R * R -> R) (track : list (R * R)) (radius_km : R) :
  (forall sample, sample ∈ track ->
     exists box, App.sample_box svc radius_km sample = Ok box) ->
  exists covered,
    App.sweep svc great_circle radius_km track ∅ = Ok covered
    /\ (forall p, p ∈ covered
          <-> exists sample, sample ∈ track
                             /\ in_footprint svc great_circle radius_km sample p)
    /\ NoDup (elements covered)
    /\ App.coverage_score svc great_circle track radius_km
       = (let* cells := App.map_result (App.cell svc) (elements covered) in
          f_int (App.py_sum cells)).
Proof.
  intros Hall.
  destruct (proj2 (sweep_Ok_iff svc great_circle radius_km track ∅) Hall)
    as (covered & Hsweep).
  exists covered. split; [exact Hsweep|]. split; [|split].
  - intros p. rewrite (sweep_spec svc great_circle _ _ _ _ p Hsweep).
    split; [intros [Hin|Hex]; [set_solver | exact Hex] | auto].
  - apply NoDup_elements.
  - unfold App.coverage_score, App.total_population, App.total_population_in. rewrite Hsweep. simpl.
    destruct (App.map_result (App.cell svc) (elements covered)); reflexivity.
Qed.

(** The guard of line 160. *)
Lemma estimate_col_radius_nonpos {F : Type} `{Float64 F} (svc : App.service F)
    (lat radius_km : R) :
  (App.km_per_deg_lon lat <= 0)%R ->
  App.estimate_col_radius svc lat radius_km = Ok 1%Z.
Proof.
  intros Hk. unfold App.estimate_col_radius, App.col_radius_guarded.
  destruct (Rlt_dec 0 (App.km_per_deg_lon lat)); [lra | reflexivity].
Qed.

(** An index box exists for a sample exactly when no division of
    lines 202-209 is by zero. *)
Lemma sample_box_Ok_iff {F : Type} `{Float64 F} (svc : App.service F)
    (radius_km lat lon : R) :
  (exists box, App.sample_box svc radius_km (lat, lon) = Ok box)
  <-> Affine.determinant (App.RASTER_TRANSFORM svc) <> 0%R
      /\ (App.km_per_deg_lon lat * Affine.a (App.RASTER_TRANSFORM svc))%R <> 0%R
      /\ (App.km_per_deg_lat * Rabs (Affine.e (App.RASTER_TRANSFORM svc)))%R <> 0%R.
Proof.
  unfold App.sample_box, App.center_pixel, Affine.invert, App.coverage_col_radius,
    App.row_radius_of, App.py_div.
  destruct (Req_dec_T (Affine.determinant (App.RASTER_TRANSFORM svc)) 0) as [D|D];
    cbn [bind].
  { split; [intros (box & [=]) | intros (N & _); contradiction]. }
  destruct (Affine.apply _ (lon, lat)) as [col row]. cbn [bind].
  destruct (Req_dec_T (App.km_per_deg_lon lat * Affine.a (App.RASTER_TRANSFORM svc)) 0)
    as [K|K]; cbn [bind].
  { split; [intros (box & [=]) | intros (_ & N & _); contradiction]. }
  destruct (Req_dec_T (App.km_per_deg_lat * Rabs (Affine.e (App.RASTER_TRANSFORM svc))) 0)
    as [E|E]; cbn [bind].
  { split; [intros (box & [=]) | intros (_ & _ & N); contradiction]. }
  split; [auto | eauto].
Qed.

(** ** Evaluating the queries on the 3 x 3 raster *)

Lemma radians_90 : radians 90 = (PI / 2)%R.
Proof. unfold radians. lra. Qed.

Lemma km_per_deg_lon_90 : App.km_per_deg_lon 90 = 0%R.
Proof. unfold App.km_per_deg_lon. rewrite radians_90, cos_PI2. lra. Qed.

Lemma km_per_deg_lon_0 : App.km_per_deg_lon 0 = 111.32%R.
Proof. unfold App.km_per_deg_lon. rewrite radians_0, cos_0. lra. Qed.

Ltac svc_unfold :=
  cbv [App.center_pixel App.coverage_col_radius App.estimate_col_radius
       App.col_radius_guarded
       App.row_radius_of App.py_div App.km_per_deg_lat
       Affine.invert Affine.determinant Affine.apply
       Affine.a Affine.b Affine.c Affine.d Affine.e Affine.f
       App.RASTER_TRANSFORM App.RASTER_SHAPE service_3x3_of transform_3x3].

Ltac not_zero :=
  match goal with
  | |- context [Req_dec_T ?x 0] =>
      destruct (Req_dec_T x 0) as [?E|_]; [exfalso; lra|]
  end.

Lemma center_pixel_3x3_origin {F : Type} (data : list (list F)) :
  App.center_pixel (service_3x3_of data) 0 0 = Ok (1, 1)%Z.
Proof.
  svc_unfold. not_zero. cbn [bind].
  f_equal. f_equal; apply py_int_nonneg; lra.
Qed.

Lemma coverage_col_radius_3x3 {F : Type} (data : list (list F)) :
  App.coverage_col_radius (service_3x3_of data) 0 1300 = Ok 1%Z.
Proof.
  svc_unfold. rewrite km_per_deg_lon_0. not_zero. cbn [bind].
  rewrite (py_round_near _ 0); [reflexivity|]. lra.
Qed.

Lemma row_radius_3x3 {F : Type} (data : list (list F)) :
  App.row_radius_of (service_3x3_of data) 1300 = Ok 1%Z.
Proof.
  svc_unfold. replace (Rabs (-60)) with 60%R by (rewrite Rabs_left; lra). not_zero. cbn [bind].
  rewrite (py_round_near _ 0); [reflexivity|]. lra.
Qed.

Lemma estimate_col_radius_3x3 {F : Type} (data : list (list F)) :
  App.estimate_col_radius (service_3x3_of data) 0 1300 = Ok 1%Z.
Proof.
  svc_unfold. rewrite km_per_deg_lon_0.
  destruct (Rlt_dec 0 111.32) as [_|N]; [|exfalso; lra].
  not_zero. cbn [bind].
  rewrite (py_round_near _ 0); [reflexivity|]. lra.
Qed.

Lemma sample_box_3x3_origin {F : Type} (data : list (list F)) :
  App.sample_box (service_3x3_of data) 1300 (0, 0)%R = Ok (0, 3, 0, 3)%Z.
Proof.
  unfold App.sample_box.
  rewrite center_pixel_3x3_origin, coverage_col_radius_3x3, row_radius_3x3.
  reflexivity.
Qed.

Lemma pixel_center_3x3_corner {F : Type} (data : list (list F)) :
  Affine.apply (App.RASTER_TRANSFORM (service_3x3_of data)) (IZR 0 + 0.5, IZR 0 + 0.5)%R
  = (-120, 60)%R.
Proof. svc_unfold. f_equal; lra. Qed.

Lemma radians_m120 : radians (-120) = (- (2 * (PI / 3)))%R.
Proof. unfold radians. lra. Qed.

Lemma atan2_left_half (y x : R) : (0 <= y)%R -> (x < 0)%R -> (PI / 2 < App.atan2 y x)%R.
Proof.
  intros Hy Hx. unfold App.atan2.
  destruct (Rlt_dec 0 x); [lra|]. destruct (Rlt_dec x 0); [|lra].
  destruct (Rle_dec 0 y); [|lra].
  pose proof (atan_bound (y / x)). lra.
Qed.

Lemma great_circle_corner_far :
  (1300 < App.geopy_great_circle (0, 0) (60, -120))%R.
Proof.
  unfold App.geopy_great_circle. cbn [fst snd].
  rewrite radians_0, radians_60, radians_m120.
  match goal with |- (_ < _ * App.atan2 ?y ?x)%R =>
    assert (Hx : (x < 0)%R);
    [| pose proof (atan2_left_half y x (sqrt_pos _) Hx); pose proof PI2_3_2; nra ]
  end.
  replace (- (2 * (PI / 3)) - 0)%R with (- (2 * (PI / 3)))%R by lra.
  rewrite sin_0, cos_0, cos_neg, cos_PI3, cos_2PI3. lra.
Qed.

(** In exact arithmetic no cell is NaN: [np.nansum] is the sum. *)
Lemma np_nansum_exact (g : list (list R)) : App.np_nansum g = Rsum (concat g).
Proof.
  unfold App.np_nansum, Preprocess.np_sum.
  change (fun v : R => if f_isnan v then f_zero else v) with (fun v : R => v).
  rewrite concat_map_map, List.map_id. apply np_sum1_Rsum.
Qed.

Lemma py_sum_exact (xs : list R) : App.py_sum xs = Rsum xs.
Proof.
  unfold App.py_sum. change (fold_left f_add xs f_zero) with (fold_left Rplus xs 0%R).
  rewrite fold_left_Rplus. lra.
Qed.

Lemma py_slice2_full_3x3 {A : Type} (a b c d e f g h i : A) :
  App.py_slice2 [[a; b; c]; [d; e; f]; [g; h; i]] 0 3 0 3
  = [[a; b; c]; [d; e; f]; [g; h; i]].
Proof. reflexivity. Qed.

Lemma estimate_3x3_origin :
  App.get_population_estimate service_3x3 (App.Num 0) (App.Num 0) (App.Num 1300) = 5%Z.
Proof.
  unfold App.get_population_estimate, App.estimate_body, service_3x3.
  cbn [App.float_of_arg App.float_of_arg_default bind].
  rewrite center_pixel_3x3_origin. cbn [bind].
  rewrite estimate_col_radius_3x3, row_radius_3x3. cbn [bind].
  change (App.bounding_box (App.RASTER_SHAPE (service_3x3_of _)) 1 1 1 1)
    with (0, 3, 0, 3)%Z.
  cbv iota beta. cbn [App.POPULATION_COUNT_DATA service_3x3_of].
  rewrite py_slice2_full_3x3, np_nansum_exact.
  cbv [concat app Rsum foldr]. cbn [f_int exact].
  replace (5 + (0 + (0 + (0 + (0 + (0 + (0 + (0 + (0 + 0)))))))))%R with (IZR 5) by lra.
  rewrite py_int_IZR. reflexivity.
Qed.

(** ** Sums over the covered set, in exact arithmetic *)

Lemma map_result_Ok_inv {A B} (f : A -> result B) (l : list A) (ys : list B) :
  App.map_result f l = Ok ys -> Forall2 (fun x y => f x = Ok y) l ys.
Proof.
  revert ys. induction l as [|x l IH]; intros ys; simpl.
  - intros [= <-]. constructor.
  - intros E. apply bind_Ok_inv in E as (y & Hy & E).
    apply bind_Ok_inv in E as (ys' & Hys & E). injection E as <-.
    constructor; auto.
Qed.

Lemma map_result_Ok_elem {A B} (f : A -> result B) (l : list A) (ys : list B) (x : A) :
  App.map_result f l = Ok ys -> x ∈ l -> exists y, f x = Ok y.
Proof.
  intros E Hx. apply map_result_Ok_inv in E.
  induction E as [|x' y l ys Hxy _ IH]; [inversion Hx|].
  apply elem_of_cons in Hx as [->|Hx]; eauto.
Qed.

Lemma map_result_Ok_intro {A B} (f : A -> result B) (g : A -> B) (l : list A) :
  (forall x, x ∈ l -> f x = Ok (g x)) -> App.map_result f l = Ok (map g l).
Proof.
  induction l as [|x l IH]; intros Hall; simpl; [reflexivity|].
  rewrite (Hall x) by left. simpl. rewrite IH; [reflexivity|].
  intros y Hy. apply Hall. right. exact Hy.
Qed.

Section ExactCoverage.
Variable svc : App.service R.
Variable great_circle : R * R -> R * R -> R.

Lemma map_result_cell_values (l : list (Z * Z)) (cells : list R) :
  App.map_result (App.cell svc) l = Ok cells -> cells = map (cell_value svc) l.
Proof.
  intros E. apply map_result_Ok_inv in E.
  induction E as [|x y l ys Hxy _ IH]; simpl; [reflexivity|].
  unfold cell_value at 1. rewrite Hxy, IH. reflexivity.
Qed.

Hypothesis counts_nonneg :
  Forall (Forall (fun v => 0 <= v)%R) (App.POPULATION_COUNT_DATA svc).

Lemma cell_value_nonneg (p : Z * Z) : (0 <= (cell_value svc) p)%R.
Proof.
  unfold cell_value, App.cell. cbn [f_zero exact]. destruct p as [r c].
  destruct (App.POPULATION_COUNT_DATA svc !! Z.to_nat r) as [row|] eqn:Er; [|lra].
  destruct (row !! Z.to_nat c) as [v|] eqn:Ec; [|lra].
  eapply Forall_lookup_1 in Er; [|exact counts_nonneg].
  eapply Forall_lookup_1 in Ec; [|exact Er]. exact Ec.
Qed.

Lemma Rsum_cell_values_subseteq (X Y : gset (Z * Z)) :
  X ⊆ Y ->
  (Rsum (map (cell_value svc) (elements X)) <= Rsum (map (cell_value svc) (elements Y)))%R.
Proof.
  intros Hsub.
  assert (Hperm : elements Y ≡ₚ elements X ++ elements (Y ∖ X)).
  { rewrite (union_difference_L X Y Hsub) at 1.
    apply elements_disj_union.
    intros q Hq1 Hq2. apply elem_of_difference in Hq2 as [_ Hn]. exact (Hn Hq1). }
  rewrite (Rsum_Permutation _ _ (Permutation_map (cell_value svc) Hperm)).
  rewrite map_app, Rsum_app.
  assert (0 <= Rsum (map (cell_value svc) (elements (Y ∖ X))))%R; [|lra].
  apply Rsum_nonneg. apply Forall_forall. intros v Hv.
  apply list_elem_of_In, in_map_iff in Hv as (p & <- & _). apply cell_value_nonneg.
Qed.

End ExactCoverage.

Lemma Rsum_zeros (xs : list R) : Forall (fun v => v = 0%R) xs -> Rsum xs = 0%R.
Proof. induction 1; simpl; lra. Qed.

(** On the 3 x 3 raster a footprint of 1300 km around (0, 0) holds no
    pixel with population: the corner pixel (0, 0), centred at latitude
    60 and longitude -120, is too far. *)
Lemma footprint_3x3_cells_empty (p : Z * Z) :
  in_footprint service_3x3 App.geopy_great_circle 1300 (0, 0)%R p ->
  App.cell service_3x3 p = Ok 0%R.
Proof.
  unfold service_3x3. intros (box & Hbox & Hr & Hc & Hd).
  rewrite sample_box_3x3_origin in Hbox. revert Hbox; intros [= <-].
  destruct p as [r c]. cbn [fst snd] in *.
  assert (Hrc : (r = 0 \/ r = 1 \/ r = 2)%Z /\ (c = 0 \/ c = 1 \/ c = 2)%Z) by lia.
  destruct Hrc as [[-> | [-> | ->]] [-> | [-> | ->]]]; try reflexivity.
  exfalso. rewrite pixel_center_3x3_corner in Hd. cbn [fst snd] in Hd.
  pose proof great_circle_corner_far. lra.
Qed.

Lemma coverage_3x3_origin :
  App.get_coverage_score service_3x3 App.geopy_great_circle [(0, 0)%R] = Ok 0%Z.
Proof.
  unfold App.get_coverage_score, App.spotbeam_radius_km.
  destruct (coverage_score_unfold service_3x3 App.geopy_great_circle [(0, 0)%R] 1300)
    as (X & _ & HX & _ & ->).
  { intros sample Hin. apply list_elem_of_singleton in Hin as ->.
    unfold service_3x3. rewrite sample_box_3x3_origin. eauto. }
  rewrite (map_result_Ok_intro _ (fun _ => 0%R)).
  - cbn [bind f_int exact]. rewrite py_sum_exact, Rsum_zeros.
    + rewrite py_int_IZR. reflexivity.
    + apply Forall_forall. intros v Hv.
      apply list_elem_of_In, in_map_iff in Hv as (q & <- & _). reflexivity.
  - intros q Hq. apply elem_of_elements, HX in Hq as (sample & Hin & Hf).
    apply list_elem_of_singleton in Hin as ->.
    apply footprint_3x3_cells_empty. exact Hf.
Qed.

(** C3 (as stated) fails.  On the 3 x 3 raster, with the one-sample track
    at (0, 0) and radius 1300 km, the point query sums the whole index
    box, which holds the populated corner pixel, and answers 5; the sweep
    keeps only pixels whose centre is within 1300 km and scores 0. *)
Lemma coverage_below_estimate :
  App.get_coverage_score service_3x3 App.geopy_great_circle [(0, 0)%R] = Ok 0%Z
  /\ App.get_population_estimate service_3x3
       (App.Num 0) (App.Num 0) (App.Num 1300) = 5%Z.
Proof. split; [exact coverage_3x3_origin | exact estimate_3x3_origin]. Qed.

(** ** NaN in binary64 sums *)

Lemma is_nan_Prim2SF (v : float) : PrimFloat.is_nan v = true -> Prim2SF v = S754_nan.
Proof.
  unfold PrimFloat.is_nan. rewrite FloatAxioms.eqb_spec. unfold SFeqb.
  destruct (Prim2SF v) as [s|s| |s m e]; simpl; [discriminate | | reflexivity |].
  - destruct s; discriminate.
  - destruct s; rewrite Z.compare_refl, Pos.compare_cont_refl; discriminate.
Qed.

Lemma is_nan_eq (v : float) : PrimFloat.is_nan v = true -> v = nan.
Proof. intros Hv. apply FloatAxioms.Prim2SF_inj. rewrite (is_nan_Prim2SF v Hv). reflexivity. Qed.

Lemma add_nan_l (x : float) : (nan + x)%float = nan.
Proof. apply FloatAxioms.Prim2SF_inj. rewrite FloatAxioms.add_spec. reflexivity. Qed.

Lemma add_nan_r (x : float) : (x + nan)%float = nan.
Proof.
  apply FloatAxioms.Prim2SF_inj. rewrite FloatAxioms.add_spec.
  change (Prim2SF nan) with S754_nan. destruct (Prim2SF x); reflexivity.
Qed.

Lemma fold_add_nan (xs : list float) : fold_left PrimFloat.add xs nan = nan.
Proof. induction xs as [|x xs IH]; simpl; [reflexivity|]. rewrite add_nan_l. exact IH. Qed.

Lemma fold_add_has_nan (xs : list float) (acc : float) :
  nan ∈ xs -> fold_left PrimFloat.add xs acc = nan.
Proof.
  revert acc. induction xs as [|x xs IH]; intros acc Hin; [inversion Hin|].
  simpl. apply elem_of_cons in Hin as [<-|Hin].
  - rewrite add_nan_r. apply fold_add_nan.
  - apply IH. exact Hin.
Qed.

Lemma py_slice_map {A B} (f : A -> B) (l : list A) (start stop : Z) :
  App.py_slice (map f l) start stop = map f (App.py_slice l start stop).
Proof.
  unfold App.py_slice. rewrite length_map.
  rewrite List.skipn_map, List.firstn_map. reflexivity.
Qed.

Lemma py_slice2_map {A B} (f : A -> B) (g : list (list A)) (r0 r1 c0 c1 : Z) :
  App.py_slice2 (map (map f) g) r0 r1 c0 c1 = map (map f) (App.py_slice2 g r0 r1 c0 c1).
Proof.
  unfold App.py_slice2. rewrite py_slice_map, !List.map_map.
  apply List.map_ext. intros row. apply py_slice_map.
Qed.

Lemma np_nansum_nan_to_zero (g : list (list float)) :
  App.np_nansum (nan_to_zero g) = App.np_nansum g.
Proof.
  unfold App.np_nansum, nan_to_zero. f_equal.
  rewrite List.map_map. apply List.map_ext. intros row.
  rewrite List.map_map. apply List.map_ext. intros v. simpl.
  destruct (PrimFloat.is_nan v) eqn:E; [reflexivity | rewrite E; reflexivity].
Qed.

Lemma bind_ext {A B} (m : result A) (k k' : A -> result B) :
  (forall a, k a = k' a) -> bind m k = bind m k'.
Proof. intros E. destruct m; simpl; [apply E | reflexivity]. Qed.

Lemma estimate_ignores_nan (svc : App.service float) (lat lon radius_km : App.arg) :
  App.get_population_estimate (with_nan_to_zero svc) lat lon radius_km
  = App.get_population_estimate svc lat lon radius_km.
Proof.
  unfold App.get_population_estimate.
  enough (E : App.estimate_body (with_nan_to_zero svc) lat lon radius_km
              = App.estimate_body svc lat lon radius_km) by (rewrite E; reflexivity).
  unfold App.estimate_body.
  apply bind_ext; intros lat'. apply bind_ext; intros lon'. apply bind_ext; intros rad.
  change (App.center_pixel (with_nan_to_zero svc)) with (App.center_pixel svc).
  apply bind_ext; intros [ccol crow].
  change (App.estimate_col_radius (with_nan_to_zero svc))
    with (App.estimate_col_radius svc).
  apply bind_ext; intros cr.
  change (App.row_radius_of (with_nan_to_zero svc)) with (App.row_radius_of svc).
  apply bind_ext; intros rr.
  change (App.RASTER_SHAPE (with_nan_to_zero svc)) with (App.RASTER_SHAPE svc).
  destruct (App.bounding_box (App.RASTER_SHAPE svc) crow ccol rr cr) as [[[r0 r1] c0] c1].
  cbn [App.POPULATION_COUNT_DATA with_nan_to_zero]. unfold nan_to_zero at 1.
  rewrite py_slice2_map. fold (nan_to_zero (App.py_slice2 (App.POPULATION_COUNT_DATA svc) r0 r1 c0 c1)).
  rewrite np_nansum_nan_to_zero. reflexivity.
Qed.

Lemma total_population_nan (svc : App.service float) (covered : gset (Z * Z))
    (p : Z * Z) (v total : float) :
  p ∈ covered -> App.cell svc p = Ok v -> PrimFloat.is_nan v = true ->
  App.total_population svc covered = Ok total ->
  total = nan.
Proof.
  intros Hp Hcell Hnan Htotal. apply is_nan_eq in Hnan as ->.
  unfold App.total_population, App.total_population_in in Htotal.
  apply bind_Ok_inv in Htotal as (cells & Hcells & [= <-]).
  apply fold_add_has_nan.
  apply map_result_Ok_inv in Hcells. apply elem_of_elements in Hp.
  induction Hcells as [|x y l ys Hxy _ IH]; [inversion Hp|].
  apply elem_of_cons in Hp as [->|Hp].
  - assert (y = nan) as -> by congruence. left.
  - right. auto.
Qed.

Lemma float_int_nan : float_int nan = Raise ValueError.
Proof. reflexivity. Qed.

Lemma coverage_score_nan (svc : App.service float)
    (great_circle : R * R -> R * R -> R) (track : list (R * R)) (radius_km : R)
    (covered : gset (Z * Z)) :
  App.sweep svc great_circle radius_km track ∅ = Ok covered ->
  App.total_population svc covered = Ok nan ->
  App.coverage_score svc great_circle track radius_km = Raise ValueError.
Proof.
  intros Hsweep Htotal. unfold App.coverage_score.
  rewrite Hsweep. cbn [bind]. rewrite Htotal. reflexivity.
Qed.


Lemma pixel_center_3x3_middle {F : Type} (data : list (list F)) :
  Affine.apply (App.RASTER_TRANSFORM (service_3x3_of data)) (IZR 1 + 0.5, IZR 1 + 0.5)%R
  = (0, 0)%R.
Proof. svc_unfold. f_equal; lra. Qed.

Lemma great_circle_same_origin : App.geopy_great_circle (0, 0)%R (0, 0)%R = 0%R.
Proof.
  unfold App.geopy_great_circle. cbn [fst snd]. rewrite radians_0.
  replace (0 - 0)%R with 0%R by lra. rewrite sin_0, cos_0.
  replace ((1 * 0) ^ 2 + (1 * 0 - 0 * 1 * 1) ^ 2)%R with 0%R by lra.
  rewrite sqrt_0. replace (0 * 0 + 1 * 1 * 1)%R with 1%R by lra.
  unfold App.atan2. destruct (Rlt_dec 0 1); [|lra].
  replace (0 / 1)%R with 0%R by lra. rewrite atan_0. lra.
Qed.

Lemma footprint_3x3_in_grid {F : Type} `{Float64 F} (data : list (list F))
    (great_circle : R * R -> R * R -> R) (p : Z * Z) :
  in_footprint (service_3x3_of data) great_circle 1300 (0, 0)%R p ->
  (0 <= p.1 < 3)%Z /\ (0 <= p.2 < 3)%Z.
Proof.
  intros (box & Hbox & Hr & Hc & _).
  rewrite sample_box_3x3_origin in Hbox. revert Hbox; intros [= <-]. auto.
Qed.


(** ** The point query outside the grid *)

Ltac svc1_unfold :=
  cbv [App.center_pixel App.coverage_col_radius App.estimate_col_radius
       App.col_radius_guarded
       App.row_radius_of App.py_div App.km_per_deg_lat
       Affine.invert Affine.determinant Affine.apply
       Affine.a Affine.b Affine.c Affine.d Affine.e Affine.f
       App.RASTER_TRANSFORM App.RASTER_SHAPE service_1deg transform_1deg].

Lemma center_pixel_1deg_north (data : list (list float)) :
  App.center_pixel (service_1deg data) 200 0 = Ok (180, -110)%Z.
Proof.
  svc1_unfold. not_zero. cbn [bind]. f_equal. f_equal.
  - apply py_int_nonneg; lra.
  - apply py_int_neg; lra.
Qed.

Lemma center_pixel_1deg_south (data : list (list float)) :
  App.center_pixel (service_1deg data) (-200) 0 = Ok (180, 290)%Z.
Proof.
  svc1_unfold. not_zero. cbn [bind]. f_equal. f_equal; apply py_int_nonneg; lra.
Qed.

Lemma km_per_deg_lon_200 : (App.km_per_deg_lon 200 < 0)%R.
Proof.
  unfold App.km_per_deg_lon, radians. pose proof PI_RGT_0.
  assert (cos (200 * (PI / 180)) < 0)%R; [|lra].
  apply cos_lt_0; lra.
Qed.

Lemma km_per_deg_lon_m200 : (App.km_per_deg_lon (-200) < 0)%R.
Proof.
  unfold App.km_per_deg_lon, radians. pose proof PI_RGT_0.
  assert (cos (-200 * (PI / 180)) < 0)%R; [|lra].
  replace (-200 * (PI / 180))%R with (- (200 * (PI / 180)))%R by lra.
  rewrite cos_neg. apply cos_lt_0; lra.
Qed.

Lemma row_radius_1deg (data : list (list float)) :
  App.row_radius_of (service_1deg data) 1 = Ok 1%Z.
Proof.
  svc1_unfold. replace (Rabs (-1)) with 1%R by (rewrite Rabs_left; lra).
  not_zero. cbn [bind]. rewrite (py_round_near _ 0); [reflexivity|]. lra.
Qed.

(** A missing or malformed latitude is answered with 0. *)
Lemma estimate_malformed_latitude {F : Type} `{Float64 F} (svc : App.service F)
    (lon radius_km : App.arg) :
  App.get_population_estimate svc App.Malformed lon radius_km = 0%Z
  /\ App.get_population_estimate svc App.Absent lon radius_km = 0%Z.
Proof. split; reflexivity. Qed.

(** C2 at a failing input.  On the one-degree global raster with one
    inhabitant per pixel, the query at latitude 200 (longitude 0, radius
    1 km) has centre row -110 and row_stop -108; the slice [0:-108]
    counts from the end and takes rows 0 to 71, so the answer is
    72 * 3 = 216 and not 0.  At latitude -200 the slice starts past the
    last row, is empty, and the answer is 0. *)
Theorem estimate_lat_200_wraps_around :
  App.get_population_estimate (service_1deg ones_1deg)
    (App.Num 200) (App.Num 0) (App.Num 1) = 216%Z
  /\ App.get_population_estimate (service_1deg ones_1deg)
    (App.Num (-200)) (App.Num 0) (App.Num 1) = 0%Z.
Proof.
  split.
  - unfold App.get_population_estimate, App.estimate_body.
    cbn [App.float_of_arg App.float_of_arg_default bind].
    rewrite center_pixel_1deg_north. cbn [bind].
    rewrite (estimate_col_radius_nonpos _ 200 1) by (pose proof km_per_deg_lon_200; lra).
    rewrite row_radius_1deg. cbn [bind].
    change (App.bounding_box (App.RASTER_SHAPE (service_1deg ones_1deg)) (-110) 180 1 1)
      with (0, -108, 179, 182)%Z.
    cbv iota beta. cbn [App.POPULATION_COUNT_DATA service_1deg].
    vm_compute. reflexivity.
  - unfold App.get_population_estimate, App.estimate_body.
    cbn [App.float_of_arg App.float_of_arg_default bind].
    rewrite center_pixel_1deg_south. cbn [bind].
    rewrite (estimate_col_radius_nonpos _ (-200) 1) by (pose proof km_per_deg_lon_m200; lra).
    rewrite row_radius_1deg. cbn [bind].
    change (App.bounding_box (App.RASTER_SHAPE (service_1deg ones_1deg)) 290 180 1 1)
      with (289, 180, 179, 182)%Z.
    cbv iota beta. cbn [App.POPULATION_COUNT_DATA service_1deg].
    vm_compute. reflexivity.
Qed.

(** * Further properties of the converter *)

Lemma raw_counts_cell (src : Preprocess.raster) (units : string)
    (pc : list (list R)) (r c : nat) (row : list R) (v : R) :
  Preprocess.raw_counts (Preprocess.filled (Preprocess.masked_data src) (Preprocess.nodata src))
    (Preprocess.pixel_area_km2 src) units = Ok pc ->
  Preprocess.masked_data src !! r = Some row -> row !! c = Some v ->
  exists row' x, pc !! r = Some row' /\ length row' = length row
                 /\ row' !! c = Some x
                 /\ x = (unmasked src v * cell_area src units r)%R.
Proof.
  intros Hpc Hrow Hv. unfold Preprocess.raw_counts in Hpc. unfold cell_area.
  assert (Hf : Preprocess.filled (Preprocess.masked_data src) (Preprocess.nodata src) !! r
               = Some (map (unmasked src) row)).
  { unfold Preprocess.filled. rewrite lookup_map, Hrow. reflexivity. }
  destruct (String.eqb units "per_km2") eqn:Ekm.
  - revert Hpc; intros [= <-]. unfold Preprocess.pixel_area_km2.
    destruct (Preprocess.is_geographic src).
    + cbn [Preprocess.times_area]. rewrite lookup_zip_with, Hf. cbn [mbind option_bind].
      rewrite pixel_area_geographic_lookup by (apply lookup_lt_Some in Hrow; exact Hrow).
      cbn [mbind option_bind]. eexists _, _. split; [reflexivity|].
      rewrite !length_map, !lookup_map, Hv. cbn [fmap option_fmap option_map].
      repeat split.
    + cbn [Preprocess.times_area]. rewrite lookup_map, Hf. cbn [fmap option_fmap option_map].
      eexists _, _. split; [reflexivity|].
      rewrite !length_map, !lookup_map, Hv. cbn [fmap option_fmap option_map].
      repeat split. unfold Preprocess.pixel_area_projected. simpl.
      rewrite Rabs_mult. reflexivity.
  - destruct (String.eqb units "per_pixel"); [|discriminate].
    revert Hpc; intros [= <-]. rewrite Hf. eexists _, _. split; [reflexivity|].
    rewrite length_map, lookup_map, Hv. cbn [fmap option_fmap option_map].
    repeat split. lra.
Qed.

Lemma convert_inv (src : Preprocess.raster) (units : string) (target_pop : R)
    (conv : Preprocess.conversion R) :
  Preprocess.convert_density_to_count src units target_pop = Ok conv ->
  exists pc,
    Preprocess.raw_counts (Preprocess.filled (Preprocess.masked_data src) (Preprocess.nodata src))
      (Preprocess.pixel_area_km2 src) units = Ok pc
    /\ Preprocess.np_sum pc <> 0%R
    /\ conv = {| Preprocess.saved_array :=
                   map (map (fun v => v * (target_pop / Preprocess.np_sum pc))%R) pc;
                 Preprocess.total_raw := Preprocess.np_sum pc;
                 Preprocess.total_adjusted :=
                   Preprocess.np_sum
                     (map (map (fun v => v * (target_pop / Preprocess.np_sum pc))%R) pc);
                 Preprocess.scale_factor := (target_pop / Preprocess.np_sum pc)%R;
                 Preprocess.target_population := target_pop |}.
Proof.
  unfold Preprocess.convert_density_to_count, Preprocess.convert_from_area.
  intros E. apply bind_Ok_inv in E as (pc & Hpc & Hn). exists pc. split; [exact Hpc|].
  destruct (normalize_cases pc target_pop) as [Hz Hnz]. cbv zeta in Hz, Hnz.
  destruct (f_eqb (Preprocess.np_sum pc) f_zero) eqn:E0.
  - rewrite Hz in Hn by reflexivity. discriminate.
  - rewrite Hnz in Hn by reflexivity. split; [apply Reqb_false; exact E0|].
    revert Hn; intros [= <-]. reflexivity.
Qed.

(** The saved array cell by cell: the unmasked density times the area of
    its row times the scale factor, in the place of the input cell. *)
Theorem saved_cell_formula (src : Preprocess.raster) (units : string) (target_pop : R)
    (conv : Preprocess.conversion R) (r c : nat) (row : list R) (v : R) :
  Preprocess.convert_density_to_count src units target_pop = Ok conv ->
  Preprocess.masked_data src !! r = Some row -> row !! c = Some v ->
  exists row' x,
    Preprocess.saved_array conv !! r = Some row' /\ length row' = length row
    /\ row' !! c = Some x
    /\ x = (unmasked src v * cell_area src units r * Preprocess.scale_factor conv)%R.
Proof.
  intros Hconv Hrow Hv. apply convert_inv in Hconv as (pc & Hpc & Hnz & ->).
  destruct (raw_counts_cell src units pc r c row v Hpc Hrow Hv)
    as (row' & x & Hrow' & Hlen & Hx & ->).
  cbn [Preprocess.saved_array Preprocess.scale_factor].
  eexists _, _. rewrite lookup_map, Hrow'. cbn [fmap option_fmap option_map].
  split; [reflexivity|]. rewrite length_map, lookup_map, Hx.
  cbn [fmap option_fmap option_map]. repeat split. exact Hlen.
Qed.

Lemma convert_Ok_intro (src : Preprocess.raster) (units : string) (target_pop : R)
    (pc : list (list R)) :
  Preprocess.raw_counts (Preprocess.filled (Preprocess.masked_data src) (Preprocess.nodata src))
    (Preprocess.pixel_area_km2 src) units = Ok pc ->
  Preprocess.np_sum pc <> 0%R ->
  exists conv, Preprocess.convert_density_to_count src units target_pop = Ok conv.
Proof.
  intros Hpc Hnz. unfold Preprocess.convert_density_to_count, Preprocess.convert_from_area.
  rewrite Hpc. cbn [bind].
  destruct (normalize_cases pc target_pop) as [_ Hok]. cbv zeta in Hok.
  rewrite Hok by (apply Reqb_false; exact Hnz). eauto.
Qed.

Lemma convert_raster_masked :
  exists conv,
    Preprocess.convert_density_to_count raster_masked "per_pixel" 7000000000 = Ok conv.
Proof.
  apply (convert_Ok_intro _ _ _ [[1; 0]; [3; 4]]%R).
  - unfold Preprocess.raw_counts, Preprocess.filled, raster_masked. simpl.
    rewrite (proj2 (Reqb_true (-9999) (-9999))) by reflexivity.
    rewrite !(proj2 (Reqb_false _ _)) by lra. reflexivity.
  - unfold Preprocess.np_sum. rewrite np_sum1_Rsum. simpl. lra.
Qed.

(** Masked cells hold 0 in the saved array. *)
Theorem masked_cells_are_zero (src : Preprocess.raster) (units : string) (target_pop : R)
    (conv : Preprocess.conversion R) (r c : nat) (row : list R) :
  Preprocess.convert_density_to_count src units target_pop = Ok conv ->
  Preprocess.masked_data src !! r = Some row ->
  row !! c = Some (Preprocess.nodata src) ->
  exists row', Preprocess.saved_array conv !! r = Some row' /\ row' !! c = Some 0%R.
Proof.
  intros Hconv Hrow Hv. apply convert_inv in Hconv as (pc & Hpc & Hnz & ->).
  destruct (raw_counts_cell src units pc r c row _ Hpc Hrow Hv)
    as (row' & x & Hrow' & _ & Hx & ->).
  cbn [Preprocess.saved_array]. eexists. rewrite lookup_map, Hrow'.
  cbn [fmap option_fmap option_map]. split; [reflexivity|].
  rewrite lookup_map, Hx. cbn [fmap option_fmap option_map]. f_equal.
  unfold unmasked. rewrite (proj2 (Reqb_true _ _)) by reflexivity. lra.
Qed.

Lemma masked_cells_are_zero_witness :
  exists conv row',
    Preprocess.convert_density_to_count raster_masked "per_pixel" 7000000000 = Ok conv
    /\ Preprocess.saved_array conv !! 0%nat = Some row' /\ row' !! 1%nat = Some 0%R.
Proof.
  destruct convert_raster_masked as (conv & Hconv).
  destruct (masked_cells_are_zero raster_masked "per_pixel" 7000000000 conv 0 1
              [1; -9999]%R Hconv eq_refl eq_refl) as (row' & H1 & H2).
  exists conv, row'. auto.
Defined.

(** ** Degenerate rasters *)

Lemma all_zero_np_sum (g : list (list R)) : all_zero g -> Preprocess.np_sum g = 0%R.
Proof.
  intros Hg. unfold Preprocess.np_sum. rewrite np_sum1_Rsum. apply Rsum_zeros.
  induction Hg as [|row g Hrow _ IH]; simpl; [constructor|].
  apply Forall_app. split; assumption.
Qed.

Lemma all_zero_times_area (g : list (list R)) (area : Preprocess.pixel_area R) :
  all_zero g -> all_zero (Preprocess.times_area g area).
Proof.
  intros Hg. destruct area as [rows|a]; cbn [Preprocess.times_area].
  - revert rows. induction Hg as [|row g Hrow _ IH]; intros [|a rows]; simpl;
      try constructor; [|apply IH].
    induction Hrow as [|v row -> _ IHrow]; simpl; constructor; [simpl; lra | exact IHrow].
  - induction Hg as [|row g Hrow _ IH]; simpl; constructor; [|exact IH].
    induction Hrow as [|v row -> _ IHrow]; simpl; constructor; [simpl; lra | exact IHrow].
Qed.

(** A raster with every cell masked (an empty one included) has raw total
    zero: the run raises ZeroDivisionError, whatever the supported unit,
    the CRS kind and the target. *)
Theorem all_masked_raster_raises (src : Preprocess.raster) (units : string)
    (target_pop : R) :
  Forall (Forall (fun v => v = Preprocess.nodata src)) (Preprocess.masked_data src) ->
  units = "per_km2"%string \/ units = "per_pixel"%string ->
  Preprocess.convert_density_to_count src units target_pop = Raise ZeroDivisionError.
Proof.
  intros Hmasked Hunits.
  assert (Hf : all_zero (Preprocess.filled (Preprocess.masked_data src) (Preprocess.nodata src))).
  { unfold Preprocess.filled.
    induction Hmasked as [|row g Hrow _ IH]; simpl; constructor; [|exact IH].
    induction Hrow as [|v row -> _ IHrow]; simpl; constructor; [|exact IHrow].
    simpl. rewrite (proj2 (Reqb_true _ _)) by reflexivity. reflexivity. }
  unfold Preprocess.convert_density_to_count, Preprocess.convert_from_area,
    Preprocess.raw_counts.
  destruct Hunits as [-> | ->]; cbn [String.eqb Ascii.eqb Bool.eqb bind].
  - destruct (normalize_cases (Preprocess.times_area
                (Preprocess.filled (Preprocess.masked_data src) (Preprocess.nodata src))
                (Preprocess.pixel_area_km2 src)) target_pop) as [Hz _].
    apply Hz. apply Reqb_true. apply all_zero_np_sum, all_zero_times_area, Hf.
  - destruct (normalize_cases
                (Preprocess.filled (Preprocess.masked_data src) (Preprocess.nodata src))
                target_pop) as [Hz _].
    apply Hz. apply Reqb_true. apply all_zero_np_sum, Hf.
Qed.

Lemma all_masked_raster_raises_witness :
  Preprocess.convert_density_to_count raster_ocean "per_km2" 7000000000
  = Raise ZeroDivisionError.
Proof.
  apply (all_masked_raster_raises raster_ocean "per_km2" 7000000000).
  - repeat constructor.
  - left. reflexivity.
Defined.

(** ** The shape of the output *)

Lemma map_length_map_map {A B} (f : A -> B) (g : list (list A)) :
  map length (map (map f) g) = map length g.
Proof. induction g as [|row g IH]; simpl; [reflexivity|]. rewrite length_map, IH. reflexivity. Qed.

Lemma saved_array_shape_lemma (src : Preprocess.raster) (units : string) (target_pop : R)
    (conv : Preprocess.conversion R) :
  Preprocess.convert_density_to_count src units target_pop = Ok conv ->
  map length (Preprocess.saved_array conv) = map length (Preprocess.masked_data src).
Proof.
  intros Hconv. apply convert_inv in Hconv as (pc & Hpc & _ & ->).
  cbn [Preprocess.saved_array]. rewrite map_length_map_map.
  unfold Preprocess.raw_counts in Hpc.
  destruct (String.eqb units "per_km2").
  - revert Hpc; intros [= <-]. unfold Preprocess.pixel_area_km2.
    destruct (Preprocess.is_geographic src); cbn [Preprocess.times_area].
    + unfold Preprocess.filled.
      assert (Hlen : length (Preprocess.pixel_area_geographic (Preprocess.transform src)
                               (Preprocess.res src) (length (Preprocess.masked_data src)))
                     = length (Preprocess.masked_data src)).
      { unfold Preprocess.pixel_area_geographic, Preprocess.xy_center. cbn [snd].
        rewrite length_zip_with, !length_map, length_seq. lia. }
      revert Hlen.
      generalize (Preprocess.pixel_area_geographic (Preprocess.transform src)
                    (Preprocess.res src) (length (Preprocess.masked_data src))) as areas.
      induction (Preprocess.masked_data src) as [|row g IH]; intros [|a areas] Hlen;
        simpl in *; try discriminate; [reflexivity|].
      rewrite !length_map. f_equal. apply IH. lia.
    + unfold Preprocess.filled. rewrite !map_length_map_map. reflexivity.
  - destruct (String.eqb units "per_pixel"); [|discriminate].
    revert Hpc; intros [= <-]. unfold Preprocess.filled. apply map_length_map_map.
Qed.

(** The saved array has the shape of the input band. *)
Theorem saved_array_shape (src : Preprocess.raster) (units : string) (target_pop : R)
    (conv : Preprocess.conversion R) :
  Preprocess.convert_density_to_count src units target_pop = Ok conv ->
  map length (Preprocess.saved_array conv) = map length (Preprocess.masked_data src).
Proof.
  intros Hconv. pose proof (saved_array_shape_lemma src units target_pop conv Hconv) as E.
  rewrite E. reflexivity.
Qed.

Lemma saved_array_shape_witness :
  exists conv,
    Preprocess.convert_density_to_count raster_masked "per_pixel" 7000000000 = Ok conv
    /\ map length (Preprocess.saved_array conv) = [2; 2]%nat.
Proof.
  destruct convert_raster_masked as (conv & Hconv). exists conv. split; [exact Hconv|].
  exact (saved_array_shape raster_masked "per_pixel" 7000000000 conv Hconv).
Defined.

(** ** Units and re-runs *)

Lemma map_map_ext_R (f g : R -> R) (l : list (list R)) :
  (forall v, f v = g v) -> map (map f) l = map (map g) l.
Proof. intros E. apply List.map_ext. intros row. apply List.map_ext. exact E. Qed.

(** For a projected raster the pixel size cancels in the normalisation:
    densities per km2 and counts per pixel give the same saved array. *)
Theorem projected_units_do_not_matter (src : Preprocess.raster) (target_pop : R)
    (conv_pp : Preprocess.conversion R) :
  Preprocess.is_geographic src = false ->
  fst (Preprocess.res src) <> 0%R -> snd (Preprocess.res src) <> 0%R ->
  Preprocess.convert_density_to_count src "per_pixel" target_pop = Ok conv_pp ->
  exists conv_km,
    Preprocess.convert_density_to_count src "per_km2" target_pop = Ok conv_km
    /\ Preprocess.saved_array conv_km = Preprocess.saved_array conv_pp
    /\ Preprocess.total_adjusted conv_km = Preprocess.total_adjusted conv_pp.
Proof.
  intros Hgeo Hx Hy Hpp. apply convert_inv in Hpp as (pc & Hpc & Hnz & ->).
  revert Hpc. cbn [Preprocess.raw_counts String.eqb Ascii.eqb Bool.eqb]. intros [= <-].
  set (fl := Preprocess.filled (Preprocess.masked_data src) (Preprocess.nodata src)) in *.
  set (a := Preprocess.pixel_area_projected (Preprocess.res src)).
  assert (Ha : a <> 0%R).
  { unfold a, Preprocess.pixel_area_projected. simpl.
    pose proof (Rabs_pos_lt _ Hx). pose proof (Rabs_pos_lt _ Hy).
    assert (0 < Rabs (fst (Preprocess.res src)) * Rabs (snd (Preprocess.res src)))%R by nra.
    intros E. apply Rmult_integral in E as [E|E]; [lra|].
    assert (/ 1000000 = 1 / 1000000)%R by lra. lra. }
  assert (Hsum : Preprocess.np_sum (map (map (fun v => f_mul v a)) fl)
                 = (Preprocess.np_sum fl * a)%R) by apply np_sum_scale.
  assert (Hsaved : map (map (fun v => v * (target_pop / (Preprocess.np_sum fl * a)))%R)
                     (map (map (fun v => f_mul v a)) fl)
                   = map (map (fun v => v * (target_pop / Preprocess.np_sum fl))%R) fl).
  { rewrite List.map_map.
    apply List.map_ext. intros row. rewrite List.map_map. apply List.map_ext. intros v.
    simpl. field. split; assumption. }
  unfold Preprocess.convert_density_to_count, Preprocess.convert_from_area,
    Preprocess.pixel_area_km2.
  rewrite Hgeo. cbn [Preprocess.raw_counts String.eqb Ascii.eqb Bool.eqb
                     Preprocess.times_area bind].
  fold fl. fold a.
  destruct (normalize_cases (map (map (fun v => f_mul v a)) fl) target_pop) as [_ Hok].
  cbv zeta in Hok. rewrite Hok.
  2:{ apply Reqb_false. rewrite Hsum. intros E. apply Rmult_integral in E as [E|E]; auto. }
  eexists. split; [reflexivity|].
  cbn [Preprocess.saved_array Preprocess.total_adjusted]. rewrite Hsum.
  change (fun v : R => f_mul v (f_div target_pop (Preprocess.np_sum fl * a)%R))
    with (fun v : R => (v * (target_pop / (Preprocess.np_sum fl * a)))%R).
  rewrite Hsaved. split; reflexivity.
Qed.

Lemma projected_units_do_not_matter_witness :
  exists conv_pp conv_km,
    Preprocess.convert_density_to_count raster_masked "per_pixel" 7000000000 = Ok conv_pp
    /\ Preprocess.convert_density_to_count raster_masked "per_km2" 7000000000 = Ok conv_km
    /\ Preprocess.saved_array conv_km = Preprocess.saved_array conv_pp.
Proof.
  destruct convert_raster_masked as (conv_pp & Hpp).
  destruct (projected_units_do_not_matter raster_masked 7000000000 conv_pp eq_refl)
    as (conv_km & Hkm & Hs & _); [simpl; lra | simpl; lra | exact Hpp |].
  exists conv_pp, conv_km. auto.
Defined.

Lemma filled_without_nodata (g : list (list R)) (nodata : R) :
  Forall (Forall (fun v => v <> nodata)) g -> Preprocess.filled g nodata = g.
Proof.
  intros Hnd. unfold Preprocess.filled.
  induction Hnd as [|row g' Hrow _ IH]; simpl; [reflexivity|]. f_equal; [|exact IH].
  induction Hrow as [|v row' Hv _ IHrow]; simpl; [reflexivity|]. f_equal; [|exact IHrow].
  simpl. rewrite (proj2 (Reqb_false _ _) Hv). reflexivity.
Qed.

(** Running the converter again on its own output, read as counts per
    pixel, reproduces it with scale factor 1: provided the target is not
    zero and no saved cell is the nodata value of the second raster. *)
Theorem rerun_on_output_is_identity (src src2 : Preprocess.raster) (units : string)
    (target_pop : R) (conv : Preprocess.conversion R) :
  Preprocess.convert_density_to_count src units target_pop = Ok conv ->
  target_pop <> 0%R ->
  Preprocess.masked_data src2 = Preprocess.saved_array conv ->
  Forall (Forall (fun v => v <> Preprocess.nodata src2)) (Preprocess.saved_array conv) ->
  exists conv2,
    Preprocess.convert_density_to_count src2 "per_pixel" target_pop = Ok conv2
    /\ Preprocess.saved_array conv2 = Preprocess.saved_array conv
    /\ Preprocess.total_raw conv2 = target_pop
    /\ Preprocess.scale_factor conv2 = 1%R.
Proof.
  intros Hconv Ht Hdata Hnd. apply convert_inv in Hconv as (pc & Hpc & Hnz & ->).
  cbn [Preprocess.saved_array] in *.
  set (saved := map (map (fun v => v * (target_pop / Preprocess.np_sum pc))%R) pc) in *.
  assert (Hfl : Preprocess.filled (Preprocess.masked_data src2) (Preprocess.nodata src2)
                = saved).
  { rewrite Hdata. apply filled_without_nodata. exact Hnd. }
  assert (Hsum : Preprocess.np_sum saved = target_pop).
  { unfold saved. rewrite (np_sum_scale (target_pop / Preprocess.np_sum pc) pc).
    field. exact Hnz. }
  unfold Preprocess.convert_density_to_count, Preprocess.convert_from_area.
  cbn [Preprocess.raw_counts String.eqb Ascii.eqb Bool.eqb bind]. rewrite Hfl.
  destruct (normalize_cases saved target_pop) as [_ Hok]. cbv zeta in Hok.
  rewrite Hok by (apply Reqb_false; rewrite Hsum; exact Ht).
  eexists. split; [reflexivity|].
  cbn [Preprocess.saved_array Preprocess.total_raw Preprocess.scale_factor].
  rewrite Hsum. repeat split.
  - rewrite (map_map_ext_R _ (fun v => v)).
    + rewrite (List.map_ext _ (fun row => row)); [apply List.map_id|].
      intros row. apply List.map_id.
    + intros v. simpl. field. exact Ht.
  - simpl. field. exact Ht.
Qed.

Lemma convert_raster_masked_value :
  Preprocess.convert_density_to_count raster_masked "per_pixel" 7000000000
  = Ok conv_masked.
Proof.
  destruct convert_raster_masked as (conv & Hconv). rewrite Hconv.
  apply convert_inv in Hconv as (pc & Hpc & Hnz & ->).
  revert Hpc. unfold Preprocess.raw_counts, Preprocess.filled, raster_masked. simpl.
  rewrite (proj2 (Reqb_true (-9999) (-9999))) by reflexivity.
  rewrite !(proj2 (Reqb_false _ _)) by lra. intros [= <-].
  assert (E : Preprocess.np_sum [[1; 0]; [3; 4]]%R = 8%R).
  { unfold Preprocess.np_sum. rewrite np_sum1_Rsum. simpl. lra. }
  rewrite !E. reflexivity.
Qed.

Lemma rerun_on_output_is_identity_witness :
  exists conv2,
    Preprocess.convert_density_to_count raster_rerun "per_pixel" 7000000000 = Ok conv2
    /\ Preprocess.saved_array conv2 = Preprocess.saved_array conv_masked
    /\ Preprocess.total_raw conv2 = 7000000000%R
    /\ Preprocess.scale_factor conv2 = 1%R.
Proof.
  apply (rerun_on_output_is_identity raster_masked raster_rerun "per_pixel"
           7000000000 conv_masked convert_raster_masked_value).
  - lra.
  - reflexivity.
  - cbn [Preprocess.saved_array conv_masked raster_rerun Preprocess.nodata map].
    repeat constructor; lra.
Defined.

(** ** Signs *)

Lemma spec_row_area_nonneg (w h lat : R) :
  (0 <= w)%R -> (0 <= h)%R -> (Rabs lat <= 90)%R -> (0 <= spec_row_area w h lat)%R.
Proof.
  intros Hw Hh Hlat.
  destruct (cos_latitude_order lat lat) as ([Hc _] & Hc1 & _); [lra|].
  unfold spec_row_area, spec_km_per_deg_lon.
  rewrite (spec_km_per_deg_lat_cos lat). cbv zeta.
  set (c := cos (radians lat)) in *.
  assert (0 <= 111.132 - 0.559 * (1 - c * c) + 0.0012 * ((1 - c * c) * (1 - c * c)))%R by nra.
  assert (0 <= w * (111.320 * c))%R by nra.
  apply Rmult_le_pos; [assumption|]. apply Rmult_le_pos; assumption.
Qed.

Lemma cell_area_nonneg (src : Preprocess.raster) (units : string) (r : nat) :
  (Preprocess.is_geographic src = true ->
   (Rabs (row_lat (Preprocess.transform src) r) <= 90)%R) ->
  (0 <= cell_area src units r)%R.
Proof.
  intros Hlat. unfold cell_area. destruct (String.eqb units "per_km2"); [|lra].
  destruct (Preprocess.is_geographic src).
  - apply spec_row_area_nonneg; [apply Rabs_pos | apply Rabs_pos | auto].
  - pose proof (Rabs_pos (fst (Preprocess.res src) * snd (Preprocess.res src))). lra.
Qed.

Lemma Forall_Forall_lookup {A} (P : A -> Prop) (g : list (list A)) :
  (forall r c row v, g !! r = Some row -> row !! c = Some v -> P v) ->
  Forall (Forall P) g.
Proof.
  intros Hall. apply Forall_lookup. intros r row Hrow.
  apply Forall_lookup. intros c v Hv. eauto.
Qed.

Lemma Rsum_concat_nonneg (g : list (list R)) :
  Forall (Forall (fun v => 0 <= v)%R) g -> (0 <= Rsum (concat g))%R.
Proof.
  intros Hg. apply Rsum_nonneg.
  induction Hg as [|row g' Hrow _ IH]; simpl; [constructor|].
  apply Forall_app. split; assumption.
Qed.

(** No negative count comes out when none goes in: with a target that
    is not negative, unmasked densities that are not negative and, in
    the geographic branch, row latitudes between the poles, every saved
    cell is at least 0. *)
Theorem saved_counts_nonneg (src : Preprocess.raster) (units : string) (target_pop : R)
    (conv : Preprocess.conversion R) :
  Preprocess.convert_density_to_count src units target_pop = Ok conv ->
  (0 <= target_pop)%R ->
  Forall (Forall (fun v => v <> Preprocess.nodata src -> 0 <= v)%R)
         (Preprocess.masked_data src) ->
  (Preprocess.is_geographic src = true ->
   forall r, (r < length (Preprocess.masked_data src))%nat ->
             (Rabs (row_lat (Preprocess.transform src) r) <= 90)%R) ->
  Forall (Forall (fun v => 0 <= v)%R) (Preprocess.saved_array conv).
Proof.
  intros Hconv Ht Hdens Hlat.
  pose proof (saved_array_shape_lemma src units target_pop conv Hconv) as Hshape.
  pose proof Hconv as Hinv. apply convert_inv in Hinv as (pc & Hpc & Hnz & Econv).
  assert (Hcell : forall r c row v,
             Preprocess.masked_data src !! r = Some row -> row !! c = Some v ->
             (0 <= unmasked src v * cell_area src units r)%R).
  { intros r c row v Hrow Hv. apply Rmult_le_pos.
    - unfold unmasked. destruct (Reqb v (Preprocess.nodata src)) eqn:E; [lra|].
      apply Reqb_false in E.
      eapply Forall_lookup_1 in Hrow; [|exact Hdens].
      eapply Forall_lookup_1 in Hv; [|exact Hrow]. auto.
    - apply cell_area_nonneg. intros Hg. apply Hlat; [exact Hg|].
      apply lookup_lt_Some in Hrow. exact Hrow. }
  assert (Hpcshape : map length pc = map length (Preprocess.masked_data src)).
  { rewrite <- Hshape, Econv. cbn [Preprocess.saved_array].
    rewrite map_length_map_map. reflexivity. }
  assert (Hin : forall (g : list (list R)) r c row' x,
             map length g = map length (Preprocess.masked_data src) ->
             g !! r = Some row' -> row' !! c = Some x ->
             exists row v, Preprocess.masked_data src !! r = Some row /\ row !! c = Some v).
  { intros g r c row' x Hg Hrow' Hx.
    assert (Hl : map length g !! r = Some (length row')) by (rewrite lookup_map, Hrow'; reflexivity).
    rewrite Hg, lookup_map in Hl.
    destruct (Preprocess.masked_data src !! r) as [row|] eqn:Erow; [|discriminate].
    revert Hl; intros [= Hl].
    apply lookup_lt_Some in Hx. rewrite <- Hl in Hx.
    apply lookup_lt_is_Some_2 in Hx as [v Hv]. eauto. }
  assert (Hpcnn : Forall (Forall (fun v => 0 <= v)%R) pc).
  { apply Forall_Forall_lookup. intros r c row' x Hrow' Hx.
    destruct (Hin pc r c row' x Hpcshape Hrow' Hx) as (row & v & Hrow & Hv).
    destruct (raw_counts_cell src units pc r c row v Hpc Hrow Hv)
      as (row'' & x' & Hrow'' & _ & Hx' & ->).
    assert (row'' = row') as -> by congruence.
    assert (x = (unmasked src v * cell_area src units r)%R) as -> by congruence.
    eauto. }
  assert (Hraw : (0 < Preprocess.np_sum pc)%R).
  { pose proof (Rsum_concat_nonneg pc Hpcnn) as Hs.
    unfold Preprocess.np_sum in *. rewrite np_sum1_Rsum in *. lra. }
  rewrite Econv. cbn [Preprocess.saved_array].
  assert (Hscale : (0 <= target_pop / Preprocess.np_sum pc)%R).
  { apply Rmult_le_pos; [exact Ht|]. left. apply Rinv_0_lt_compat. exact Hraw. }
  generalize dependent (target_pop / Preprocess.np_sum pc)%R. intros s _ Hs.
  clear -Hpcnn Hs.
  induction Hpcnn as [|row g Hrow _ IH]; simpl; [constructor|].
  constructor; [|exact IH].
  induction Hrow as [|v row' Hv _ IHrow]; simpl; [constructor|].
  constructor; [|exact IHrow]. apply Rmult_le_pos; assumption.
Qed.

Lemma saved_counts_nonneg_witness :
  Forall (Forall (fun v => 0 <= v)%R) (Preprocess.saved_array conv_masked).
Proof.
  apply (saved_counts_nonneg raster_masked "per_pixel" 7000000000 conv_masked
           convert_raster_masked_value).
  - lra.
  - apply Forall_Forall_lookup. intros r c row v Hrow Hv Hne.
    destruct r as [|[|r]]; revert Hrow; intros [= <-];
      destruct c as [|[|c]]; revert Hv; intros [= <-]; try lra.
    exfalso. apply Hne. reflexivity.
  - discriminate.
Defined.

Lemma saved_cell_formula_witness :
  exists row' x,
    Preprocess.saved_array conv_masked !! 1%nat = Some row' /\ length row' = 2%nat
    /\ row' !! 0%nat = Some x
    /\ x = (unmasked raster_masked 3 * cell_area raster_masked "per_pixel" 1
            * Preprocess.scale_factor conv_masked)%R.
Proof.
  exact (saved_cell_formula raster_masked "per_pixel" 7000000000 conv_masked 1 0
           [3; 4]%R 3%R convert_raster_masked_value eq_refl eq_refl).
Defined.

(** ** More on the geographic pixel area *)

(** Rows at opposite latitudes have the same area. *)
Theorem geographic_area_north_south (T : Affine.t) (res : R * R) (nrows r1 r2 : nat)
    (a1 a2 : R) :
  Preprocess.pixel_area_geographic T res nrows !! r1 = Some a1 ->
  Preprocess.pixel_area_geographic T res nrows !! r2 = Some a2 ->
  row_lat T r1 = (- row_lat T r2)%R ->
  a1 = a2.
Proof.
  intros E1 E2 Hlat. apply pixel_area_geographic_lookup_inv in E1, E2. subst a1 a2.
  unfold spec_row_area, spec_km_per_deg_lon, spec_km_per_deg_lat. rewrite Hlat.
  replace (radians (- row_lat T r2)) with (- radians (row_lat T r2))%R
    by (unfold radians; lra).
  rewrite cos_neg, sin_neg. ring.
Qed.

Lemma row_lat_3x3_2 : row_lat transform_3x3 2 = (-60)%R.
Proof. unfold row_lat, Affine.apply, transform_3x3. simpl. lra. Qed.

Lemma geographic_area_north_south_witness :
  spec_row_area (Rabs 120) (Rabs 60) (row_lat transform_3x3 0)
  = spec_row_area (Rabs 120) (Rabs 60) (row_lat transform_3x3 2).
Proof.
  refine (geographic_area_north_south transform_3x3 (120, 60)%R 3 0 2 _ _ _ _ _).
  - apply pixel_area_geographic_lookup. lia.
  - apply pixel_area_geographic_lookup. lia.
  - rewrite row_lat_3x3_0, row_lat_3x3_2. lra.
Defined.

(** Between the poles the row area lies between 0 and the area of an
    equatorial pixel, |xres| |yres| 111.320 * 111.132; it is that maximum
    on the equator and 0 at a pole. *)
Theorem geographic_area_bounds (T : Affine.t) (res : R * R) (nrows r : nat) (a : R) :
  Preprocess.pixel_area_geographic T res nrows !! r = Some a ->
  (Rabs (row_lat T r) <= 90)%R ->
  (0 <= a <= Rabs (fst res) * Rabs (snd res) * (111.320 * 111.132))%R
  /\ (row_lat T r = 0%R -> a = (Rabs (fst res) * Rabs (snd res) * (111.320 * 111.132))%R)
  /\ (Rabs (row_lat T r) = 90%R -> a = 0%R).
Proof.
  intros E Hlat. apply pixel_area_geographic_lookup_inv in E. subst a.
  pose proof (Rabs_pos (fst res)) as Hw. pose proof (Rabs_pos (snd res)) as Hh.
  assert (Heq : spec_row_area (Rabs (fst res)) (Rabs (snd res)) 0
                = (Rabs (fst res) * Rabs (snd res) * (111.320 * 111.132))%R).
  { unfold spec_row_area, spec_km_per_deg_lon, spec_km_per_deg_lat.
    rewrite radians_0, cos_0, sin_0. ring. }
  repeat split.
  - apply spec_row_area_nonneg; assumption.
  - rewrite <- Heq.
    apply (spec_row_area_poleward (Rabs (fst res)) (Rabs (snd res)) 0 (row_lat T r) Hw Hh).
    rewrite Rabs_R0. split; [apply Rabs_pos | exact Hlat].
  - intros ->. exact Heq.
  - intros H90. unfold spec_row_area, spec_km_per_deg_lon.
    rewrite <- cos_radians_Rabs, H90, radians_90, cos_PI2. ring.
Qed.

Lemma geographic_area_bounds_witness :
  (0 <= spec_row_area (Rabs 120) (Rabs 60) (row_lat transform_3x3 0)
   <= Rabs (fst (120, 60)) * Rabs (snd (120, 60)) * (111.320 * 111.132))%R.
Proof.
  refine (proj1 (geographic_area_bounds transform_3x3 (120, 60)%R 3 0 _ _ _)).
  - apply pixel_area_geographic_lookup. lia.
  - rewrite row_lat_3x3_0, (Rabs_right 60) by lra. lra.
Defined.

(** * Further properties of the queries *)

(** ** Pixel and geographic coordinates *)

Lemma invert_inv (T T' : Affine.t) :
  Affine.invert T = Ok T' ->
  Affine.determinant T <> 0%R
  /\ T' = Affine.make
            (Affine.e T * (1 / Affine.determinant T))
            (- Affine.b T * (1 / Affine.determinant T))
            (- Affine.c T * (Affine.e T * (1 / Affine.determinant T))
             - Affine.f T * (- Affine.b T * (1 / Affine.determinant T)))
            (- Affine.d T * (1 / Affine.determinant T))
            (Affine.a T * (1 / Affine.determinant T))
            (- Affine.c T * (- Affine.d T * (1 / Affine.determinant T))
             - Affine.f T * (Affine.a T * (1 / Affine.determinant T))).
Proof.
  unfold Affine.invert. destruct (Req_dec_T (Affine.determinant T) 0) as [E|E];
    [discriminate|].
  intros [= <-]. split; [exact E | reflexivity].
Qed.

Lemma invert_apply (T T' : Affine.t) (p : R * R) :
  Affine.invert T = Ok T' -> Affine.apply T' (Affine.apply T p) = p.
Proof.
  intros E. apply invert_inv in E as (Hdet & ->). destruct p as [x y].
  unfold Affine.determinant in *. unfold Affine.apply. cbn [Affine.a Affine.b Affine.c
    Affine.d Affine.e Affine.f].
  f_equal; field; exact Hdet.
Qed.

(** The inverse transform undoes the transform, and the other way
    round: pixel -> geographic -> pixel and geographic -> pixel ->
    geographic are the identity. *)
Theorem affine_round_trip (T T' : Affine.t) (p : R * R) :
  Affine.invert T = Ok T' ->
  Affine.apply T' (Affine.apply T p) = p /\ Affine.apply T (Affine.apply T' p) = p.
Proof.
  intros E. apply invert_inv in E as (Hdet & ->). destruct p as [x y].
  unfold Affine.determinant in *. unfold Affine.apply. cbn [Affine.a Affine.b Affine.c
    Affine.d Affine.e Affine.f].
  split; f_equal; field; exact Hdet.
Qed.

Lemma invert_transform_1deg : exists T', Affine.invert transform_1deg = Ok T'.
Proof.
  unfold Affine.invert, Affine.determinant, transform_1deg. cbn [Affine.a Affine.b
    Affine.d Affine.e].
  destruct (Req_dec_T (1 * -1 - 0 * 0) 0) as [E|_]; [exfalso; lra | eauto].
Qed.

Lemma affine_round_trip_witness :
  exists T', Affine.invert transform_1deg = Ok T'
             /\ Affine.apply T' (Affine.apply transform_1deg (10, 20)%R) = (10, 20)%R.
Proof.
  destruct invert_transform_1deg as (T' & HT'). exists T'. split; [exact HT'|].
  exact (proj1 (affine_round_trip transform_1deg T' (10, 20)%R HT')).
Defined.

(** A point of pixel (col, row), for indices that are not negative, has
    that pixel as its centre pixel.  [int] truncates toward zero, so
    the points up to one pixel before column 0 or row 0, outside the
    raster, are given index 0 as well. *)
Theorem center_pixel_of_pixel_point {F : Type} `{Float64 F} (svc : App.service F)
    (x y : R) (col row : Z) :
  Affine.determinant (App.RASTER_TRANSFORM svc) <> 0%R ->
  (0 <= col)%Z -> (0 <= row)%Z ->
  (IZR col <= x < IZR col + 1 \/ (col = 0%Z /\ -1 < x < 0))%R ->
  (IZR row <= y < IZR row + 1 \/ (row = 0%Z /\ -1 < y < 0))%R ->
  App.center_pixel svc
    (snd (Affine.apply (App.RASTER_TRANSFORM svc) (x, y)))
    (fst (Affine.apply (App.RASTER_TRANSFORM svc) (x, y)))
  = Ok (col, row).
Proof.
  intros Hdet Hc Hr Hx Hy. unfold App.center_pixel.
  destruct (Affine.invert (App.RASTER_TRANSFORM svc)) as [T'|e] eqn:E.
  2:{ unfold Affine.invert in E.
      destruct (Req_dec_T (Affine.determinant (App.RASTER_TRANSFORM svc)) 0);
        [contradiction | discriminate]. }
  cbn [bind].
  pose proof (invert_apply _ _ (x, y) E) as Hrt.
  rewrite <- surjective_pairing, Hrt.
  assert (Hint : forall (v : R) (n : Z), (0 <= n)%Z ->
            (IZR n <= v < IZR n + 1 \/ (n = 0%Z /\ -1 < v < 0))%R -> py_int v = n).
  { intros v n Hn [Hv|[-> Hv]].
    - apply py_int_nonneg; [|exact Hv]. apply IZR_le in Hn. lra.
    - apply py_int_neg; lra. }
  rewrite (Hint x col Hc Hx), (Hint y row Hr Hy). reflexivity.
Qed.

(** ** Slices and index boxes *)

Lemma take_drop_nth {A} (d : A) (l : list A) (s k : nat) :
  (s + k <= length l)%nat ->
  take k (drop s l) = map (fun j => nth (s + j) l d) (seq 0 k).
Proof.
  intros Hlen. apply list_eq. intros i.
  rewrite lookup_map. destruct (decide (i < k)%nat) as [Hi|Hi].
  - rewrite lookup_take_lt, lookup_drop, lookup_seq_lt by lia. simpl.
    rewrite nth_lookup. destruct (l !! (s + i)%nat) as [x|] eqn:E; [reflexivity|].
    apply lookup_ge_None in E. lia.
  - rewrite lookup_take_ge, lookup_seq_ge by lia. reflexivity.
Qed.

Lemma range_seq (s t : Z) :
  App.range s t = map (fun j => (s + Z.of_nat j)%Z) (seq 0 (Z.to_nat (t - s))).
Proof.
  unfold App.range, seqZ. change (fmap ?f ?l) with (map f l) at 1.
  apply List.map_ext. intros j. lia.
Qed.

(** A slice with both ends inside the sequence, or an empty one: element
    [i] of [l[s:t]] is [l[s + i]]. *)
Lemma py_slice_range {A} (d : A) (l : list A) (s t : Z) :
  (0 <= s)%Z -> (0 <= t <= Z.of_nat (length l))%Z ->
  App.py_slice l s t = map (fun i => nth (Z.to_nat i) l d) (App.range s t).
Proof.
  intros Hs Ht. unfold App.py_slice, App.slice_index.
  destruct (Z.ltb_spec s 0) as [?|_]; [lia|]. destruct (Z.ltb_spec t 0) as [?|_]; [lia|].
  rewrite range_seq, List.map_map.
  destruct (Z.le_gt_cases s t) as [Hst|Hst].
  - rewrite !Z.min_l by lia.
    rewrite (take_drop_nth d) by lia.
    apply List.map_ext. intros j. f_equal. lia.
  - replace (Z.to_nat (t - s)) with 0%nat by lia.
    replace (Z.to_nat (Z.min t (Z.of_nat (length l)) - Z.min s (Z.of_nat (length l))))
      with 0%nat by lia.
    reflexivity.
Qed.

Lemma cell_value_nth {F : Type} `{Float64 F} (svc : App.service F) (r c : Z) :
  (0 <= r < Z.of_nat (length (App.POPULATION_COUNT_DATA svc)))%Z ->
  cell_value svc (r, c)
  = nth (Z.to_nat c) (nth (Z.to_nat r) (App.POPULATION_COUNT_DATA svc) []) f_zero.
Proof.
  intros Hr. unfold cell_value, App.cell. rewrite !nth_lookup.
  destruct (App.POPULATION_COUNT_DATA svc !! Z.to_nat r) as [row|] eqn:E.
  - simpl. destruct (row !! Z.to_nat c); reflexivity.
  - apply lookup_ge_None in E. lia.
Qed.

(** With both stops inside the array, the slice of the point query is
    the box cell by cell. *)
Lemma py_slice2_box_values {F : Type} `{Float64 F} (svc : App.service F)
    (r0 r1 c0 c1 : Z) :
  well_formed svc ->
  (0 <= r0)%Z -> (0 <= r1 <= (App.RASTER_SHAPE svc).1)%Z ->
  (0 <= c0)%Z -> (0 <= c1 <= (App.RASTER_SHAPE svc).2)%Z ->
  App.py_slice2 (App.POPULATION_COUNT_DATA svc) r0 r1 c0 c1
  = box_values svc (r0, r1, c0, c1).
Proof.
  intros [Hrows Hcols] Hr0 Hr1 Hc0 Hc1. unfold App.py_slice2, box_values.
  rewrite (py_slice_range [] _ r0 r1) by lia. rewrite List.map_map.
  apply List.map_ext_in. intros r Hr.
  apply list_elem_of_In, elem_of_range in Hr.
  assert (Hrow : (0 <= r < Z.of_nat (length (App.POPULATION_COUNT_DATA svc)))%Z) by lia.
  assert (Hlen : Z.of_nat (length (nth (Z.to_nat r) (App.POPULATION_COUNT_DATA svc) []))
                 = (App.RASTER_SHAPE svc).2).
  { rewrite nth_lookup.
    destruct (App.POPULATION_COUNT_DATA svc !! Z.to_nat r) as [row|] eqn:E.
    - simpl. eapply Forall_lookup_1 in E; [|exact Hcols]. exact E.
    - apply lookup_ge_None in E. lia. }
  rewrite (py_slice_range f_zero _ c0 c1) by lia.
  apply List.map_ext. intros c. rewrite cell_value_nth by exact Hrow. reflexivity.
Qed.

(** ** Pixel radii *)

Lemma py_round_nonpos (x : R) : (x <= 0)%R -> (py_round x <= 0)%Z.
Proof.
  intros Hx. unfold py_round. pose proof (Int_part_bounds x) as [Hlo Hhi].
  assert (Hn : (Int_part x <= 0)%Z).
  { destruct (Z.le_gt_cases (Int_part x) 0) as [?|Hgt]; [assumption|].
    assert (1 <= Int_part x)%Z by lia. apply IZR_le in H. lra. }
  destruct (Rlt_dec (x - IZR (Int_part x)) (1 / 2)); [exact Hn|].
  assert (Int_part x <= -1)%Z.
  { destruct (Z.le_gt_cases (Int_part x) (-1)) as [?|Hgt]; [assumption|].
    assert (Int_part x = 0)%Z as E by lia. rewrite E in *. lra. }
  destruct (Rlt_dec (1 / 2) (x - IZR (Int_part x))); [lia|].
  destruct (Z.even (Int_part x)); lia.
Qed.

Lemma py_round_0 : py_round 0 = 0%Z.
Proof. apply py_round_near. simpl. lra. Qed.

(** Every pixel radius is at least 1, and a radius of 0 km gives
    exactly 1. *)
Lemma pixel_radii_at_least_one {F : Type} `{Float64 F} (svc : App.service F)
    (lat radius_km : R) (n : Z) :
  App.row_radius_of svc radius_km = Ok n
  \/ App.estimate_col_radius svc lat radius_km = Ok n
  \/ App.coverage_col_radius svc lat radius_km = Ok n ->
  (1 <= n)%Z /\ (radius_km = 0%R -> n = 1%Z).
Proof.
  assert (Hq : forall d k, App.py_div radius_km d = Ok k ->
                           radius_km = 0%R -> py_round k = 0%Z).
  { intros d k Hk ->. unfold App.py_div in Hk.
    destruct (Req_dec_T d 0); [discriminate|]. revert Hk; intros [= <-].
    replace (0 / d)%R with 0%R by (unfold Rdiv; ring). apply py_round_0. }
  unfold App.row_radius_of, App.estimate_col_radius, App.col_radius_guarded, App.coverage_col_radius.
  intros [E|[E|E]].
  - apply bind_Ok_inv in E as (q & Hdiv & [= <-]).
    split; [lia|]. intros H0. rewrite (Hq _ _ Hdiv H0). reflexivity.
  - destruct (Rlt_dec 0 (App.km_per_deg_lon lat)).
    + apply bind_Ok_inv in E as (q & Hdiv & [= <-]).
      split; [lia|]. intros H0. rewrite (Hq _ _ Hdiv H0). reflexivity.
    + revert E; intros [= <-]. split; [lia | reflexivity].
  - apply bind_Ok_inv in E as (q & Hdiv & [= <-]).
    split; [lia|]. intros H0. rewrite (Hq _ _ Hdiv H0). reflexivity.
Qed.

Lemma coverage_col_radius_estimate {F : Type} `{Float64 F} (svc : App.service F)
    (lat radius_km : R) (n : Z) :
  (0 <= radius_km)%R ->
  (0 < Affine.a (App.RASTER_TRANSFORM svc))%R ->
  App.coverage_col_radius svc lat radius_km = Ok n ->
  App.estimate_col_radius svc lat radius_km = Ok n.
Proof.
  intros Hrad Ha E. unfold App.estimate_col_radius, App.col_radius_guarded.
  unfold App.coverage_col_radius in E.
  destruct (Rlt_dec 0 (App.km_per_deg_lon lat)) as [Hpos|Hneg]; [exact E|].
  apply bind_Ok_inv in E as (q & Hdiv & [= <-]).
  unfold App.py_div in Hdiv.
  destruct (Req_dec_T (App.km_per_deg_lon lat * Affine.a (App.RASTER_TRANSFORM svc)) 0)
    as [|Hnz]; [discriminate|].
  revert Hdiv; intros [= <-]. f_equal.
  assert (Hd : (App.km_per_deg_lon lat * Affine.a (App.RASTER_TRANSFORM svc) < 0)%R) by nra.
  assert (Hq : (radius_km / (App.km_per_deg_lon lat * Affine.a (App.RASTER_TRANSFORM svc))
                <= 0)%R).
  { unfold Rdiv. apply Rinv_lt_0_compat in Hd. nra. }
  pose proof (py_round_nonpos _ Hq). lia.
Qed.

(** The sweep has no guard on the sign of 111.32 cos(lat), yet, for a
    radius that is not negative and a positive pixel width, it takes the
    column radius the point query takes whenever its own division does
    not raise: where the factor is negative the quotient is not positive
    and [max] gives 1. *)
Theorem coverage_col_radius_agrees {F : Type} `{Float64 F} (svc : App.service F)
    (lat radius_km : R) (n : Z) :
  (0 <= radius_km)%R ->
  (0 < Affine.a (App.RASTER_TRANSFORM svc))%R ->
  App.coverage_col_radius svc lat radius_km = Ok n ->
  App.estimate_col_radius svc lat radius_km = Ok n.
Proof.
  intros Hrad Ha E.
  exact (coverage_col_radius_estimate svc lat radius_km n Hrad Ha E).
Qed.

Lemma coverage_col_radius_agrees_witness :
  App.estimate_col_radius service_3x3 0 1300 = Ok 1%Z.
Proof.
  apply (coverage_col_radius_agrees service_3x3 0 1300 1).
  - lra.
  - simpl. lra.
  - unfold service_3x3. apply coverage_col_radius_3x3.
Defined.

(** ** What the point query sums *)

Lemma estimate_body_unfold {F : Type} `{Float64 F} (svc : App.service F)
    (lat lon radius_km : R) (ccol crow cr rr : Z) :
  App.center_pixel svc lat lon = Ok (ccol, crow) ->
  App.estimate_col_radius svc lat radius_km = Ok cr ->
  App.row_radius_of svc radius_km = Ok rr ->
  App.estimate_body svc (App.Num lat) (App.Num lon) (App.Num radius_km)
  = f_int (App.np_nansum
             (App.py_slice2 (App.POPULATION_COUNT_DATA svc)
                (Z.max 0 (crow - rr)) (Z.min (App.RASTER_SHAPE svc).1 (crow + rr + 1))
                (Z.max 0 (ccol - cr)) (Z.min (App.RASTER_SHAPE svc).2 (ccol + cr + 1)))).
Proof.
  intros Hc Hcr Hrr. unfold App.estimate_body.
  cbn [App.float_of_arg App.float_of_arg_default bind].
  rewrite Hc. cbn [bind]. rewrite Hcr, Hrr. cbn [bind]. reflexivity.
Qed.

Lemma well_formed_shape_nonneg {F : Type} (svc : App.service F) :
  well_formed svc -> (0 <= (App.RASTER_SHAPE svc).1)%Z.
Proof. intros [Hrows _]. lia. Qed.

(** When the centre pixel is not before the first row or column, the
    point query is [int] of the NaN-ignoring sum of the cells whose row
    and column are within the pixel radii of the centre, cut at the edges
    of the raster. *)
Theorem estimate_sums_the_box {F : Type} `{Float64 F} (svc : App.service F)
    (lat lon radius_km : R) (ccol crow cr rr : Z) :
  well_formed svc ->
  (0 <= (App.RASTER_SHAPE svc).2)%Z ->
  App.center_pixel svc lat lon = Ok (ccol, crow) ->
  App.estimate_col_radius svc lat radius_km = Ok cr ->
  App.row_radius_of svc radius_km = Ok rr ->
  (0 <= crow)%Z -> (0 <= ccol)%Z ->
  App.estimate_body svc (App.Num lat) (App.Num lon) (App.Num radius_km)
  = f_int (App.np_nansum
             (box_values svc (App.bounding_box (App.RASTER_SHAPE svc) crow ccol rr cr))).
Proof.
  intros Hwf Hcols Hc Hcr Hrr Hrow Hcol.
  rewrite (estimate_body_unfold svc lat lon radius_km ccol crow cr rr Hc Hcr Hrr).
  pose proof (well_formed_shape_nonneg svc Hwf) as Hrows.
  destruct (pixel_radii_at_least_one svc lat radius_km rr (or_introl Hrr)) as [Hrr1 _].
  destruct (pixel_radii_at_least_one svc lat radius_km cr (or_intror (or_introl Hcr)))
    as [Hcr1 _].
  rewrite py_slice2_box_values by (try exact Hwf; lia).
  reflexivity.
Qed.

Lemma well_formed_3x3_float : well_formed service_3x3_float.
Proof. split; [reflexivity | repeat constructor]. Qed.

Lemma estimate_sums_the_box_witness :
  App.estimate_body service_3x3_float (App.Num 0) (App.Num 0) (App.Num 1300)
  = f_int (App.np_nansum
             (box_values service_3x3_float
                (App.bounding_box (App.RASTER_SHAPE service_3x3_float) 1 1 1 1))).
Proof.
  apply (estimate_sums_the_box service_3x3_float 0 0 1300 1 1 1 1).
  - exact well_formed_3x3_float.
  - simpl. lia.
  - apply center_pixel_3x3_origin.
  - apply estimate_col_radius_3x3.
  - apply row_radius_3x3.
  - lia.
  - lia.
Defined.

(** With a radius of 0 km the point query still sums the 3 x 3 block
    around the centre pixel (for a centre pixel off the border and a
    transform with nonzero pixel width and height). *)
Theorem estimate_radius_zero_sums_3x3 {F : Type} `{Float64 F} (svc : App.service F)
    (lat lon : R) (ccol crow : Z) :
  well_formed svc ->
  Affine.a (App.RASTER_TRANSFORM svc) <> 0%R ->
  Affine.e (App.RASTER_TRANSFORM svc) <> 0%R ->
  App.center_pixel svc lat lon = Ok (ccol, crow) ->
  (1 <= crow < (App.RASTER_SHAPE svc).1 - 1)%Z ->
  (1 <= ccol < (App.RASTER_SHAPE svc).2 - 1)%Z ->
  App.estimate_body svc (App.Num lat) (App.Num lon) (App.Num 0)
  = f_int (App.np_nansum
             (box_values svc (crow - 1, crow + 2, ccol - 1, ccol + 2)%Z)).
Proof.
  intros Hwf Ha He Hc Hrow Hcol.
  assert (Hrr : App.row_radius_of svc 0 = Ok 1%Z).
  { unfold App.row_radius_of, App.py_div, App.km_per_deg_lat.
    destruct (Req_dec_T _ 0) as [E|_].
    - exfalso. pose proof (Rabs_pos_lt _ He). apply Rmult_integral in E as [E|E]; lra.
    - cbn [bind]. replace (0 / _)%R with 0%R by (unfold Rdiv; ring).
      rewrite py_round_0. reflexivity. }
  assert (Hcr : App.estimate_col_radius svc lat 0 = Ok 1%Z).
  { unfold App.estimate_col_radius, App.col_radius_guarded, App.py_div.
    destruct (Rlt_dec 0 (App.km_per_deg_lon lat)) as [Hk|_]; [|reflexivity].
    destruct (Req_dec_T _ 0) as [E|_].
    - exfalso. apply Rmult_integral in E as [E|E]; [lra | contradiction].
    - cbn [bind]. replace (0 / _)%R with 0%R by (unfold Rdiv; ring).
      rewrite py_round_0. reflexivity. }
  rewrite (estimate_body_unfold svc lat lon 0 ccol crow 1 1 Hc Hcr Hrr).
  rewrite py_slice2_box_values by (try exact Hwf; lia).
  replace (Z.max 0 (crow - 1)) with (crow - 1)%Z by lia.
  replace (Z.min (App.RASTER_SHAPE svc).1 (crow + 1 + 1)) with (crow + 2)%Z by lia.
  replace (Z.max 0 (ccol - 1)) with (ccol - 1)%Z by lia.
  replace (Z.min (App.RASTER_SHAPE svc).2 (ccol + 1 + 1)) with (ccol + 2)%Z by lia.
  reflexivity.
Qed.

Lemma estimate_radius_zero_sums_3x3_witness :
  App.estimate_body service_3x3_float (App.Num 0) (App.Num 0) (App.Num 0)
  = f_int (App.np_nansum (box_values service_3x3_float (1 - 1, 1 + 2, 1 - 1, 1 + 2)%Z)).
Proof.
  apply (estimate_radius_zero_sums_3x3 service_3x3_float 0 0 1 1).
  - exact well_formed_3x3_float.
  - simpl. lra.
  - simpl. lra.
  - apply center_pixel_3x3_origin.
  - simpl. lia.
  - simpl. lia.
Defined.

(** ** The point query off the raster *)

Lemma py_slice_empty {A} (l : list A) (s t : Z) :
  (0 <= t <= s)%Z \/ (Z.of_nat (length l) <= s /\ 0 <= t)%Z
  \/ (t <= - Z.of_nat (length l) /\ 0 <= s)%Z ->
  App.py_slice l s t = [].
Proof.
  intros Hst. unfold App.py_slice, App.slice_index.
  destruct (Z.ltb_spec s 0), (Z.ltb_spec t 0);
    (replace (Z.to_nat _) with 0%nat at 1 by lia); reflexivity.
Qed.

(** Past the last row or the last column by more than the pixel radius,
    the slice is empty and the point query answers [int(0.0)]. *)
Theorem estimate_past_far_edge_is_empty {F : Type} `{Float64 F} (svc : App.service F)
    (lat lon radius_km : R) (ccol crow cr rr : Z) :
  well_formed svc ->
  App.center_pixel svc lat lon = Ok (ccol, crow) ->
  App.estimate_col_radius svc lat radius_km = Ok cr ->
  App.row_radius_of svc radius_km = Ok rr ->
  ((App.RASTER_SHAPE svc).1 <= crow - rr)%Z ->
  App.estimate_body svc (App.Num lat) (App.Num lon) (App.Num radius_km) = f_int f_zero.
Proof.
  intros [Hrows _] Hc Hcr Hrr Hfar.
  rewrite (estimate_body_unfold svc lat lon radius_km ccol crow cr rr Hc Hcr Hrr).
  destruct (pixel_radii_at_least_one svc lat radius_km rr (or_introl Hrr)) as [Hrr1 _].
  unfold App.py_slice2. rewrite py_slice_empty; [reflexivity|]. lia.
Qed.

(** Before the first row by more than the pixel radius plus one, the
    stop index of the row slice is negative and NumPy counts it from the
    end: the point query sums the first [nrows + row_stop] rows of the
    raster (none when that is not positive), in the columns of the box. *)
Theorem estimate_before_first_row_wraps {F : Type} `{Float64 F} (svc : App.service F)
    (lat lon radius_km : R) (ccol crow cr rr : Z) :
  well_formed svc ->
  App.center_pixel svc lat lon = Ok (ccol, crow) ->
  App.estimate_col_radius svc lat radius_km = Ok cr ->
  App.row_radius_of svc radius_km = Ok rr ->
  (crow + rr + 1 < 0)%Z ->
  App.estimate_body svc (App.Num lat) (App.Num lon) (App.Num radius_km)
  = f_int (App.np_nansum
             (map (fun row => App.py_slice row (Z.max 0 (ccol - cr))
                                (Z.min (App.RASTER_SHAPE svc).2 (ccol + cr + 1)))
                  (take (Z.to_nat ((App.RASTER_SHAPE svc).1 + (crow + rr + 1)))
                        (App.POPULATION_COUNT_DATA svc)))).
Proof.
  intros [Hrows _] Hc Hcr Hrr Hneg.
  rewrite (estimate_body_unfold svc lat lon radius_km ccol crow cr rr Hc Hcr Hrr).
  destruct (pixel_radii_at_least_one svc lat radius_km rr (or_introl Hrr)) as [Hrr1 _].
  unfold App.py_slice2. do 3 f_equal.
  unfold App.py_slice, App.slice_index.
  destruct (Z.ltb_spec (Z.max 0 (crow - rr)) 0) as [?|_]; [lia|].
  destruct (Z.ltb_spec (Z.min (App.RASTER_SHAPE svc).1 (crow + rr + 1)) 0) as [_|?]; [|lia].
  replace (Z.max 0 (crow - rr)) with 0%Z by lia.
  replace (Z.min (App.RASTER_SHAPE svc).1 (crow + rr + 1)) with (crow + rr + 1)%Z by lia.
  rewrite Hrows. cbn [Z.to_nat drop]. rewrite Z.min_l by lia. cbn [Z.to_nat drop].
  f_equal. lia.
Qed.

Lemma well_formed_1deg_ones : well_formed (service_1deg ones_1deg).
Proof.
  split.
  - vm_compute. reflexivity.
  - unfold service_1deg, ones_1deg. cbn [App.POPULATION_COUNT_DATA App.RASTER_SHAPE snd].
    apply Forall_replicate. vm_compute. reflexivity.
Qed.

Lemma estimate_col_radius_1deg_200 (data : list (list float)) :
  App.estimate_col_radius (service_1deg data) 200 1 = Ok 1%Z.
Proof. apply estimate_col_radius_nonpos. pose proof km_per_deg_lon_200. lra. Qed.

Lemma estimate_col_radius_1deg_m200 (data : list (list float)) :
  App.estimate_col_radius (service_1deg data) (-200) 1 = Ok 1%Z.
Proof. apply estimate_col_radius_nonpos. pose proof km_per_deg_lon_m200. lra. Qed.

Lemma estimate_past_far_edge_is_empty_witness :
  App.estimate_body (service_1deg ones_1deg) (App.Num (-200)) (App.Num 0) (App.Num 1)
  = f_int (F := float) f_zero.
Proof.
  apply (estimate_past_far_edge_is_empty (service_1deg ones_1deg) (-200) 0 1 180 290 1 1).
  - exact well_formed_1deg_ones.
  - apply center_pixel_1deg_south.
  - apply estimate_col_radius_1deg_m200.
  - apply row_radius_1deg.
  - simpl. lia.
Defined.

Lemma estimate_before_first_row_wraps_witness :
  App.estimate_body (service_1deg ones_1deg) (App.Num 200) (App.Num 0) (App.Num 1)
  = f_int (App.np_nansum
             (map (fun row => App.py_slice row (Z.max 0 (180 - 1))
                     (Z.min (App.RASTER_SHAPE (service_1deg ones_1deg)).2 (180 + 1 + 1)))
                  (take (Z.to_nat ((App.RASTER_SHAPE (service_1deg ones_1deg)).1
                                   + (-110 + 1 + 1)))
                        (App.POPULATION_COUNT_DATA (service_1deg ones_1deg))))).
Proof.
  apply (estimate_before_first_row_wraps (service_1deg ones_1deg) 200 0 1 180 (-110) 1 1).
  - exact well_formed_1deg_ones.
  - apply center_pixel_1deg_north.
  - apply estimate_col_radius_1deg_200.
  - apply row_radius_1deg.
  - lia.
Defined.

(** ** More on the sweep *)

Section SweepMore.
Context {F : Type} `{Float64 F}.
Variable svc : App.service F.
Variable great_circle : R * R -> R * R -> R.

Lemma sample_box_in_grid (radius_km : R) (sample : R * R) (box : Z * Z * Z * Z) :
  App.sample_box svc radius_km sample = Ok box ->
  (0 <= box.1.1.1)%Z /\ (box.1.1.2 <= (App.RASTER_SHAPE svc).1)%Z
  /\ (0 <= box.1.2)%Z /\ (box.2 <= (App.RASTER_SHAPE svc).2)%Z.
Proof.
  unfold App.sample_box. destruct sample as [lat lon]. intros E.
  apply bind_Ok_inv in E as ([ccol crow] & _ & E).
  apply bind_Ok_inv in E as (cr & _ & E).
  apply bind_Ok_inv in E as (rr & _ & E).
  revert E; intros [= <-]. unfold App.bounding_box. cbn [fst snd]. lia.
Qed.

Lemma cell_in_grid (p : Z * Z) :
  well_formed svc ->
  (0 <= p.1 < (App.RASTER_SHAPE svc).1)%Z -> (0 <= p.2 < (App.RASTER_SHAPE svc).2)%Z ->
  exists v, App.cell svc p = Ok v.
Proof.
  intros [Hrows Hcols] Hr Hc. destruct p as [r c]. cbn [fst snd] in *. unfold App.cell.
  destruct (App.POPULATION_COUNT_DATA svc !! Z.to_nat r) as [row|] eqn:Er.
  - pose proof (Forall_lookup_1 _ _ _ _ Hcols Er) as Hlen. cbn beta in Hlen.
    destruct (row !! Z.to_nat c) as [v|] eqn:Ec; [eauto|].
    apply lookup_ge_None in Ec. lia.
  - apply lookup_ge_None in Er. lia.
Qed.

Lemma covered_in_grid (radius_km : R) (track : list (R * R)) (covered : gset (Z * Z))
    (p : Z * Z) :
  App.sweep svc great_circle radius_km track ∅ = Ok covered ->
  p ∈ covered ->
  (0 <= p.1 < (App.RASTER_SHAPE svc).1)%Z /\ (0 <= p.2 < (App.RASTER_SHAPE svc).2)%Z.
Proof.
  intros Hsweep Hp. apply (sweep_spec svc great_circle _ _ _ _ p Hsweep) in Hp.
  destruct Hp as [Hp|(sample & _ & box & Hbox & Hr & Hc & _)]; [set_solver|].
  apply sample_box_in_grid in Hbox. lia.
Qed.

End SweepMore.

(** The sweep never indexes outside the array: every covered pixel is a
    pixel of the raster, and once every sample has an index box the
    total over the covered set is computed without IndexError. *)
Theorem sweep_stays_in_grid {F : Type} `{Float64 F} (svc : App.service F)
    (great_circle : R * R -> R * R -> R) (track : list (R * R)) (radius_km : R) :
  well_formed svc ->
  (forall sample, sample ∈ track ->
     exists box, App.sample_box svc radius_km sample = Ok box) ->
  exists covered total,
    App.sweep svc great_circle radius_km track ∅ = Ok covered
    /\ (forall p, p ∈ covered ->
          (0 <= p.1 < (App.RASTER_SHAPE svc).1)%Z
          /\ (0 <= p.2 < (App.RASTER_SHAPE svc).2)%Z)
    /\ App.total_population svc covered = Ok total
    /\ App.coverage_score svc great_circle track radius_km = f_int total.
Proof.
  intros Hwf Hall.
  destruct (proj2 (sweep_Ok_iff svc great_circle radius_km track ∅) Hall)
    as (covered & Hsweep).
  assert (Hin : forall p, p ∈ covered ->
            (0 <= p.1 < (App.RASTER_SHAPE svc).1)%Z
            /\ (0 <= p.2 < (App.RASTER_SHAPE svc).2)%Z).
  { intros p Hp. eapply covered_in_grid; eauto. }
  assert (Hcells : App.map_result (App.cell svc) (elements covered)
                   = Ok (map (cell_value svc) (elements covered))).
  { apply map_result_Ok_intro. intros p Hp. apply elem_of_elements in Hp.
    destruct (Hin p Hp) as [Hr Hc].
    destruct (cell_in_grid svc p Hwf Hr Hc) as (v & Hv).
    unfold cell_value. rewrite Hv. reflexivity. }
  exists covered, (App.py_sum (map (cell_value svc) (elements covered))).
  split; [exact Hsweep|]. split; [exact Hin|].
  unfold App.coverage_score, App.total_population, App.total_population_in. rewrite Hsweep. cbn [bind].
  rewrite Hcells. cbn [bind]. split; reflexivity.
Qed.

Lemma sweep_stays_in_grid_witness :
  exists covered total,
    App.sweep service_3x3 App.geopy_great_circle 1300 [(0, 0)%R] ∅ = Ok covered
    /\ (forall p, p ∈ covered ->
          (0 <= p.1 < (App.RASTER_SHAPE service_3x3).1)%Z
          /\ (0 <= p.2 < (App.RASTER_SHAPE service_3x3).2)%Z)
    /\ App.total_population service_3x3 covered = Ok total
    /\ App.coverage_score service_3x3 App.geopy_great_circle [(0, 0)%R] 1300 = f_int total.
Proof.
  apply (sweep_stays_in_grid service_3x3 App.geopy_great_circle [(0, 0)%R] 1300).
  - split; [reflexivity | repeat constructor].
  - intros sample Hin. apply list_elem_of_singleton in Hin as ->.
    unfold service_3x3. rewrite sample_box_3x3_origin. eauto.
Defined.

(** ** Scores compared, in exact arithmetic *)

Section ExactScores.
Variable svc : App.service R.
Variable great_circle : R * R -> R * R -> R.
Hypothesis counts_nonneg :
  Forall (Forall (fun v => 0 <= v)%R) (App.POPULATION_COUNT_DATA svc).

Lemma coverage_score_exact_inv (track : list (R * R)) (radius_km : R) (s : Z) :
  App.coverage_score svc great_circle track radius_km = Ok s ->
  exists covered,
    App.sweep svc great_circle radius_km track ∅ = Ok covered
    /\ App.map_result (App.cell svc) (elements covered)
       = Ok (map (cell_value svc) (elements covered))
    /\ s = py_int (Rsum (map (cell_value svc) (elements covered))).
Proof.
  intros Hs. unfold App.coverage_score in Hs.
  apply bind_Ok_inv in Hs as (Y & HY & Hs).
  apply bind_Ok_inv in Hs as (total & Htotal & Hs).
  unfold App.total_population, App.total_population_in in Htotal.
  apply bind_Ok_inv in Htotal as (cells & Hcells & Htotal).
  revert Htotal; intros [= <-]. cbn [f_int exact] in Hs. revert Hs; intros [= <-].
  exists Y. split; [exact HY|].
  pose proof (map_result_cell_values svc _ _ Hcells) as ->.
  split; [exact Hcells|]. rewrite py_sum_exact. reflexivity.
Qed.

Lemma Rsum_cell_values_nonneg (l : list (Z * Z)) :
  (0 <= Rsum (map (cell_value svc) l))%R.
Proof.
  apply Rsum_nonneg. apply Forall_forall. intros v Hv.
  apply list_elem_of_In, in_map_iff in Hv as (q & <- & _).
  apply (cell_value_nonneg svc counts_nonneg).
Qed.

Lemma coverage_score_monotone_lemma
    (track1 track2 : list (R * R)) (radius_km : R) (s2 : Z) :
  (forall sample, sample ∈ track1 -> sample ∈ track2) ->
  App.coverage_score svc great_circle track2 radius_km = Ok s2 ->
  exists s1, App.coverage_score svc great_circle track1 radius_km = Ok s1
             /\ (s1 <= s2)%Z.
Proof.
  intros Hsub Hs2.
  apply coverage_score_exact_inv in Hs2 as (Y & HY & HcY & ->).
  assert (Hboxes : forall sample, sample ∈ track1 ->
            exists box, App.sample_box svc radius_km sample = Ok box).
  { intros sample Hin. apply Hsub in Hin.
    apply (sweep_Ok_iff svc great_circle radius_km track2 ∅); eauto. }
  apply (sweep_Ok_iff svc great_circle radius_km track1 ∅) in Hboxes as (X & HX).
  assert (HXY : X ⊆ Y).
  { intros p Hp. apply (sweep_spec svc great_circle _ _ _ _ p HX) in Hp.
    apply (sweep_spec svc great_circle _ _ _ _ p HY).
    destruct Hp as [Hp|(sample & Hin & Hf)]; [left; exact Hp|]. right. eauto. }
  assert (HcX : App.map_result (App.cell svc) (elements X)
                = Ok (map (cell_value svc) (elements X))).
  { apply map_result_Ok_intro. intros q Hq.
    apply elem_of_elements, HXY, elem_of_elements in Hq.
    destruct (map_result_Ok_elem _ _ _ q HcY Hq) as (v & Hv).
    unfold cell_value. rewrite Hv. reflexivity. }
  exists (py_int (Rsum (map (cell_value svc) (elements X)))). split.
  - unfold App.coverage_score, App.total_population, App.total_population_in. rewrite HX. cbn [bind].
    rewrite HcX. cbn [bind f_int exact]. rewrite py_sum_exact. reflexivity.
  - apply py_int_mono_nonneg. split; [apply Rsum_cell_values_nonneg|].
    apply (Rsum_cell_values_subseteq svc counts_nonneg). exact HXY.
Qed.

End ExactScores.

(** With counts that are not negative the score grows with the set of
    samples: a track whose samples all belong to a second track scores
    at most what the second one scores, and does not raise when the
    second one does not. *)
Theorem coverage_score_monotone (svc : App.service R)
    (great_circle : R * R -> R * R -> R) (track1 track2 : list (R * R))
    (radius_km : R) (s2 : Z) :
  Forall (Forall (fun v => 0 <= v)%R) (App.POPULATION_COUNT_DATA svc) ->
  (forall sample, sample ∈ track1 -> sample ∈ track2) ->
  App.coverage_score svc great_circle track2 radius_km = Ok s2 ->
  exists s1, App.coverage_score svc great_circle track1 radius_km = Ok s1
             /\ (s1 <= s2)%Z.
Proof.
  intros Hnn Hsub Hs2.
  exact (coverage_score_monotone_lemma svc great_circle Hnn track1 track2 radius_km s2
           Hsub Hs2).
Qed.

(** ** The point query against the sweep of one sample *)

Lemma bind_singleton_map {A B} (f : A -> B) (l : list A) :
  (c ← l; [f c]) = map f l.
Proof. induction l as [|x l IH]; [reflexivity|]. cbn. f_equal. Qed.

Lemma map_box_cells {B} (f : Z * Z -> B) (r0 r1 c0 c1 : Z) :
  map f (box_cells (r0, r1, c0, c1))
  = concat (map (fun r => map (fun c => f (r, c)) (App.range c0 c1)) (App.range r0 r1)).
Proof.
  unfold box_cells. induction (App.range r0 r1) as [|r rows IH]; [reflexivity|].
  rewrite bind_cons, map_app, IH. cbn [map concat]. f_equal.
  rewrite (bind_singleton_map (fun c => (r, c))), List.map_map. reflexivity.
Qed.

Lemma elem_of_box_cells (box : Z * Z * Z * Z) (p : Z * Z) :
  p ∈ box_cells box
  <-> (box.1.1.1 <= p.1 < box.1.1.2)%Z /\ (box.1.2 <= p.2 < box.2)%Z.
Proof.
  destruct box as [[[r0 r1] c0] c1]. destruct p as [r c]. unfold box_cells. cbn [fst snd].
  rewrite list_elem_of_bind. split.
  - intros (r' & Hc & Hr). apply list_elem_of_bind in Hc as (c' & Hp & Hc).
    apply list_elem_of_singleton in Hp. revert Hp; intros [= -> ->].
    apply elem_of_range in Hr, Hc. auto.
  - intros [Hr Hc]. exists r. split; [|apply elem_of_range; exact Hr].
    apply list_elem_of_bind. exists c. split; [left | apply elem_of_range; exact Hc].
Qed.

Lemma NoDup_range (s t : Z) : NoDup (App.range s t).
Proof. unfold App.range. apply NoDup_seqZ. Qed.

Lemma NoDup_box_cells (box : Z * Z * Z * Z) : NoDup (box_cells box).
Proof.
  destruct box as [[[r0 r1] c0] c1]. unfold box_cells.
  apply NoDup_bind; [| |apply NoDup_range].
  - intros r r' p _ _ Hp Hp'.
    apply list_elem_of_bind in Hp as (c & Hp & _).
    apply list_elem_of_bind in Hp' as (c' & Hp' & _).
    apply list_elem_of_singleton in Hp, Hp'. congruence.
  - intros r _. apply NoDup_bind; [| |apply NoDup_range].
    + intros c c' p _ _ Hp Hp'. apply list_elem_of_singleton in Hp, Hp'. congruence.
    + intros c _. apply NoDup_singleton.
Qed.

Lemma py_slice_Forall {A} (P : A -> Prop) (l : list A) (s t : Z) :
  Forall P l -> Forall P (App.py_slice l s t).
Proof. intros Hl. unfold App.py_slice. apply Forall_take, Forall_drop, Hl. Qed.

Section EstimateBound.
Variable svc : App.service R.
Variable great_circle : R * R -> R * R -> R.
Hypothesis counts_nonneg :
  Forall (Forall (fun v => 0 <= v)%R) (App.POPULATION_COUNT_DATA svc).
Hypothesis shape_ok : well_formed svc.

Lemma slice_sum_nonneg (r0 r1 c0 c1 : Z) :
  (0 <= Rsum (concat (App.py_slice2 (App.POPULATION_COUNT_DATA svc) r0 r1 c0 c1)))%R.
Proof.
  apply Rsum_nonneg. unfold App.py_slice2. apply Forall_concat.
  apply Forall_forall. intros row Hrow.
  apply list_elem_of_In, in_map_iff in Hrow as (row' & <- & Hin).
  apply py_slice_Forall.
  apply list_elem_of_In in Hin.
  eapply (proj1 (Forall_forall _ _) (py_slice_Forall _ _ r0 r1 counts_nonneg)). exact Hin.
Qed.

(** The cells of a box that lies in the raster, summed over a set of
    its pixels and over the whole slice. *)
Lemma covered_sum_le_slice_sum (X : gset (Z * Z)) (r0 r1 c0 c1 : Z) :
  (forall p, p ∈ X -> (r0 <= p.1 < r1)%Z /\ (c0 <= p.2 < c1)%Z) ->
  (0 <= r0)%Z -> (r1 <= (App.RASTER_SHAPE svc).1)%Z ->
  (0 <= c0)%Z -> (c1 <= (App.RASTER_SHAPE svc).2)%Z ->
  (Rsum (map (cell_value svc) (elements X))
   <= Rsum (concat (App.py_slice2 (App.POPULATION_COUNT_DATA svc) r0 r1 c0 c1)))%R.
Proof.
  intros HX Hr0 Hr1 Hc0 Hc1.
  destruct (decide (0 <= r1 /\ 0 <= c1)%Z) as [[Hr1' Hc1']|Hneg].
  - rewrite (py_slice2_box_values svc r0 r1 c0 c1 shape_ok) by lia.
    unfold box_values. rewrite <- (map_box_cells (cell_value svc)).
    set (Y := list_to_set (box_cells (r0, r1, c0, c1)) : gset (Z * Z)).
    assert (HXY : X ⊆ Y).
    { intros p Hp. apply elem_of_list_to_set, elem_of_box_cells. cbn [fst snd].
      apply HX. exact Hp. }
    etransitivity; [apply (Rsum_cell_values_subseteq svc counts_nonneg X Y HXY)|].
    right. apply Rsum_Permutation, Permutation_map.
    apply elements_list_to_set, NoDup_box_cells.
  - assert (X = ∅) as ->.
    { apply leibniz_equiv, set_equiv. intros p. split; [|set_solver].
      intros Hp. apply HX in Hp. lia. }
    rewrite elements_empty. cbn [map Rsum foldr]. apply slice_sum_nonneg.
Qed.

Lemma estimate_bounds_coverage_lemma (lat lon radius_km : R) (s : Z) :
  (0 <= radius_km)%R ->
  (0 < Affine.a (App.RASTER_TRANSFORM svc))%R ->
  App.coverage_score svc great_circle [(lat, lon)] radius_km = Ok s ->
  (s <= App.get_population_estimate svc (App.Num lat) (App.Num lon) (App.Num radius_km))%Z.
Proof.
  intros Hrad Ha Hs.
  apply coverage_score_exact_inv in Hs as (X & HX & _ & ->).
  pose proof (sweep_spec svc great_circle radius_km [(lat, lon)] ∅ X) as Hspec.
  assert (Hbox : exists box, App.sample_box svc radius_km (lat, lon) = Ok box).
  { apply (sweep_Ok_iff svc great_circle radius_km [(lat, lon)] ∅); [eauto | left]. }
  destruct Hbox as (box & Hbox). pose proof Hbox as Hbox'.
  unfold App.sample_box in Hbox'.
  apply bind_Ok_inv in Hbox' as ([ccol crow] & Hc & Hbox').
  apply bind_Ok_inv in Hbox' as (cr & Hcr & Hbox').
  apply bind_Ok_inv in Hbox' as (rr & Hrr & Hbox').
  revert Hbox'; intros [= <-].
  pose proof (coverage_col_radius_estimate svc lat radius_km cr Hrad Ha Hcr) as Hcr'.
  unfold App.get_population_estimate.
  rewrite (estimate_body_unfold svc lat lon radius_km ccol crow cr rr Hc Hcr' Hrr).
  cbn [f_int exact]. rewrite np_nansum_exact.
  pose proof (slice_sum_nonneg (Z.max 0 (crow - rr))
                (Z.min (App.RASTER_SHAPE svc).1 (crow + rr + 1))
                (Z.max 0 (ccol - cr))
                (Z.min (App.RASTER_SHAPE svc).2 (ccol + cr + 1))) as Hnn.
  apply py_int_mono_nonneg. split.
  - apply (Rsum_cell_values_nonneg svc counts_nonneg).
  - apply covered_sum_le_slice_sum; try lia.
    intros p Hp. apply (Hspec p HX) in Hp.
    destruct Hp as [Hp|(sample & Hin & box' & Hbox'' & Hr & Hcc & _)]; [set_solver|].
    apply list_elem_of_singleton in Hin as ->.
    rewrite Hbox in Hbox''. revert Hbox''; intros [= <-].
    unfold App.bounding_box in Hr, Hcc. cbn [fst snd] in Hr, Hcc. lia.
Qed.

End EstimateBound.

(** For a single sample the box of the point query holds the circle of
    the sweep: with counts that are not negative, a radius that is not
    negative and a positive pixel width, the score of the one-sample
    track is at most the point estimate at that sample. *)
Theorem estimate_bounds_single_sample_coverage (svc : App.service R)
    (great_circle : R * R -> R * R -> R) (lat lon radius_km : R) (s : Z) :
  Forall (Forall (fun v => 0 <= v)%R) (App.POPULATION_COUNT_DATA svc) ->
  well_formed svc ->
  (0 <= radius_km)%R ->
  (0 < Affine.a (App.RASTER_TRANSFORM svc))%R ->
  App.coverage_score svc great_circle [(lat, lon)] radius_km = Ok s ->
  (s <= App.get_population_estimate svc (App.Num lat) (App.Num lon) (App.Num radius_km))%Z.
Proof.
  intros Hnn Hwf Hrad Ha Hs.
  exact (estimate_bounds_coverage_lemma svc great_circle Hnn Hwf lat lon radius_km s
           Hrad Ha Hs).
Qed.

Lemma estimate_bounds_single_sample_coverage_witness :
  (0 <= App.get_population_estimate service_3x3 (App.Num 0) (App.Num 0) (App.Num 1300))%Z.
Proof.
  apply (estimate_bounds_single_sample_coverage service_3x3 App.geopy_great_circle
           0 0 1300 0).
  - repeat constructor; lra.
  - split; [reflexivity | repeat constructor].
  - lra.
  - simpl. lra.
  - exact coverage_3x3_origin.
Defined.

(** ** center_pixel *)

Lemma center_pixel_of_pixel_point_witness :
  App.center_pixel (service_1deg ones_1deg)
    (snd (Affine.apply transform_1deg (-0.5, 3.5)%R))
    (fst (Affine.apply transform_1deg (-0.5, 3.5)%R))
  = Ok (0, 3)%Z.
Proof.
  apply (center_pixel_of_pixel_point (service_1deg ones_1deg) (-0.5) 3.5 0 3).
  - cbv [Affine.determinant App.RASTER_TRANSFORM service_1deg transform_1deg
         Affine.a Affine.b Affine.d Affine.e]. lra.
  - lia.
  - lia.
  - right. split; [reflexivity | lra].
  - left. simpl. lra.
Defined.

(** ** The samples of one period *)

Lemma py_ceil_bounds (x : R) : (IZR (App.py_ceil x) - 1 < x <= IZR (App.py_ceil x))%R.
Proof.
  unfold App.py_ceil. pose proof (Int_part_bounds (- x)) as Hb.
  rewrite opp_IZR. lra.
Qed.

Lemma elem_of_np_arange (start stop step t : R) :
  (0 < step)%R ->
  t ∈ App.np_arange start stop step
  <-> exists i : Z, (0 <= i)%Z /\ t = (start + IZR i * step)%R /\ (t < stop)%R.
Proof.
  intros Hstep. unfold App.np_arange.
  pose proof (py_ceil_bounds ((stop - start) / step)) as Hc.
  set (n := App.py_ceil ((stop - start) / step)) in *.
  assert (Hq : forall i : Z, (i < n)%Z <-> (start + IZR i * step < stop)%R).
  { intros i. split.
    - intros Hi. assert (IZR i <= IZR n - 1)%R.
      { rewrite <- minus_IZR. apply IZR_le. lia. }
      assert (IZR i < (stop - start) / step)%R by lra.
      apply (Rmult_lt_compat_r step) in H0; [|exact Hstep].
      unfold Rdiv in H0. rewrite Rmult_assoc, Rinv_l, Rmult_1_r in H0 by lra. lra.
    - intros Hi. apply lt_IZR.
      assert (IZR i < (stop - start) / step)%R; [|lra].
      apply (Rmult_lt_reg_r step); [exact Hstep|].
      unfold Rdiv. rewrite Rmult_assoc, Rinv_l, Rmult_1_r by lra. lra. }
  rewrite list_elem_of_fmap. split.
  - intros (i & -> & Hi). apply elem_of_range in Hi. exists i.
    split; [lia|]. split; [reflexivity|]. apply Hq. lia.
  - intros (i & Hi & -> & Hlt). exists i. split; [reflexivity|].
    apply elem_of_range. split; [lia|]. apply Hq. exact Hlt.
Qed.

Lemma np_arange_empty (start stop step : R) :
  (0 < step)%R -> (stop <= start)%R -> App.np_arange start stop step = [].
Proof.
  intros Hstep Hle. destruct (App.np_arange start stop step) as [|t l] eqn:E; [reflexivity|].
  assert (Ht : t ∈ App.np_arange start stop step) by (rewrite E; left).
  apply elem_of_np_arange in Ht as (i & Hi & -> & Hlt); [|exact Hstep].
  apply IZR_le in Hi. nra.
Qed.

(** For a positive mean motion n the track holds the sub-satellite
    points at the times 0, 10, 20, ... below the period 86400 / n, the
    end of the period left out, and every instant of the period is less
    than one step after a sample. *)
Theorem ground_track_samples_one_period (subpoint : R -> R * R)
    (mean_motion_revs_per_day : R) :
  (0 < mean_motion_revs_per_day)%R ->
  exists times : list R,
    App.ground_track subpoint mean_motion_revs_per_day = Ok (map subpoint times)
    /\ (forall t, t ∈ times
          <-> exists i : Z, (0 <= i)%Z /\ t = (10 * IZR i)%R
                            /\ (t < 86400 / mean_motion_revs_per_day)%R)
    /\ (forall t, (0 <= t < 86400 / mean_motion_revs_per_day)%R ->
          exists s, s ∈ times /\ (s <= t < s + 10)%R).
Proof.
  intros Hn. unfold App.ground_track, App.period_seconds, App.py_div.
  destruct (Req_dec_T mean_motion_revs_per_day 0) as [E|_]; [lra|]. cbn [bind].
  replace (24 * 60 * 60)%R with 86400%R by lra.
  set (period := (86400 / mean_motion_revs_per_day)%R).
  exists (App.np_arange 0 period App.time_step_seconds).
  assert (Hmem : forall t, t ∈ App.np_arange 0 period App.time_step_seconds
            <-> exists i : Z, (0 <= i)%Z /\ t = (10 * IZR i)%R /\ (t < period)%R).
  { intros t. rewrite elem_of_np_arange by (unfold App.time_step_seconds; lra).
    unfold App.time_step_seconds.
    split; intros (i & Hi & -> & Hlt); exists i;
      (split; [exact Hi|]); (split; [lra|lra]). }
  split; [reflexivity|]. split; [exact Hmem|].
  intros t [Ht0 Htp]. pose proof (Int_part_bounds (t / 10)) as Hb.
  exists (10 * IZR (Int_part (t / 10)))%R. split; [|lra].
  apply Hmem. exists (Int_part (t / 10)). split; [|split; [reflexivity|lra]].
  assert (Hm : (Int_part 0 <= Int_part (t / 10))%Z) by (apply Int_part_mono; lra).
  rewrite (Int_part_unique 0 0) in Hm by lra. exact Hm.
Qed.

Lemma ground_track_samples_one_period_witness :
  exists times : list R,
    App.ground_track (fun t => (0, t)%R) 15 = Ok (map (fun t => (0, t)%R) times)
    /\ (forall t, t ∈ times
          <-> exists i : Z, (0 <= i)%Z /\ t = (10 * IZR i)%R /\ (t < 86400 / 15)%R)
    /\ (forall t, (0 <= t < 86400 / 15)%R ->
          exists s, s ∈ times /\ (s <= t < s + 10)%R).
Proof.
  apply (ground_track_samples_one_period (fun t => (0, t)%R) 15). lra.
Defined.

Lemma sweep_nil {F : Type} `{Float64 F} (svc : App.service F)
    (great_circle : R * R -> R * R -> R) (radius_km : R) (acc : gset (Z * Z)) :
  App.sweep svc great_circle radius_km [] acc = Ok acc.
Proof. reflexivity. Qed.

(** The mean motion is not checked: 0 raises ZeroDivisionError (the
    endpoint answers with an error), and a negative one gives a negative
    period, no sample, an empty covered set and the score 0. *)
Theorem orbit_score_of_nonpositive_mean_motion (svc : App.service float)
    (great_circle : R * R -> R * R -> R) (subpoint : R -> R * R)
    (mean_motion_revs_per_day : R) :
  (mean_motion_revs_per_day <= 0)%R ->
  App.coverage_score_of_orbit svc great_circle subpoint mean_motion_revs_per_day
  = if Req_dec_T mean_motion_revs_per_day 0 then Raise ZeroDivisionError else Ok 0%Z.
Proof.
  intros Hn. unfold App.coverage_score_of_orbit, App.ground_track, App.period_seconds,
    App.py_div.
  destruct (Req_dec_T mean_motion_revs_per_day 0) as [E|E]; [reflexivity|].
  cbn [bind]. rewrite np_arange_empty.
  - cbn [map]. unfold App.get_coverage_score, App.coverage_score.
    rewrite sweep_nil. cbn [bind]. unfold App.total_population, App.total_population_in.
    rewrite elements_empty. reflexivity.
  - unfold App.time_step_seconds. lra.
  - assert (0 < - mean_motion_revs_per_day)%R by lra.
    assert (0 < / - mean_motion_revs_per_day)%R by (apply Rinv_0_lt_compat; assumption).
    unfold Rdiv. replace (/ mean_motion_revs_per_day)%R
      with (- / - mean_motion_revs_per_day)%R by (field; lra). nra.
Qed.

Lemma orbit_score_of_nonpositive_mean_motion_witness :
  App.coverage_score_of_orbit (service_1deg ones_1deg) App.geopy_great_circle
    (fun t => (0, t)%R) (-15)
  = if Req_dec_T (-15) 0 then Raise ZeroDivisionError else Ok 0%Z.
Proof.
  apply (orbit_score_of_nonpositive_mean_motion (service_1deg ones_1deg)
           App.geopy_great_circle (fun t => (0, t)%R) (-15)). lra.
Defined.

(** ** calculate_spotbeam_polygon *)

Lemma range_0_succ (n : Z) :
  (1 <= n)%Z -> App.range 0 n = 0%Z :: App.range 1 n.
Proof.
  intros Hn. unfold App.range.
  replace (n - 0)%Z with (Z.succ (n - 1)) by lia.
  rewrite seqZ_cons by lia. f_equal. f_equal; lia.
Qed.

Lemma range_length (s t : Z) : length (App.range s t) = Z.to_nat (t - s).
Proof. unfold App.range. apply length_seqZ. Qed.

Lemma range_lookup (s t : Z) (i : nat) :
  (Z.of_nat i < t - s)%Z -> App.range s t !! i = Some (s + Z.of_nat i)%Z.
Proof. intros Hi. unfold App.range. apply lookup_seqZ. split; [reflexivity | lia]. Qed.

(** With at least one point the polygon is a closed ring of
    num_points + 1 vertices: vertex i is the [longitude, latitude] of the
    destination at bearing i * 360 / num_points, and the last vertex
    repeats the first, the one at bearing 0. *)
Theorem spotbeam_polygon_is_closed_ring (destination : R * R -> R -> R -> R * R)
    (center_lat center_lon radius_km : R) (num_points : Z) :
  (1 <= num_points)%Z ->
  let vertex := fun bearing : R =>
    (snd (destination (center_lat, center_lon) bearing radius_km),
     fst (destination (center_lat, center_lon) bearing radius_km)) in
  exists ring : list (R * R),
    App.calculate_spotbeam_polygon destination center_lat center_lon radius_km num_points
      = Ok ring
    /\ length ring = Z.to_nat (num_points + 1)
    /\ (forall i : Z, (0 <= i < num_points)%Z ->
          ring !! Z.to_nat i = Some (vertex (IZR i * (360 / IZR num_points))%R))
    /\ ring !! Z.to_nat num_points = Some (vertex 0%R).
Proof.
  intros Hn vertex. unfold App.calculate_spotbeam_polygon.
  change (map _ (App.range 0 num_points))
    with (map (fun i => vertex (IZR i * (360 / IZR num_points))%R) (App.range 0 num_points)).
  set (v := fun i : Z => vertex (IZR i * (360 / IZR num_points))%R).
  rewrite (range_0_succ num_points Hn). cbn [map].
  set (points := v 0%Z :: map v (App.range 1 num_points)).
  assert (Hpoints : points = map v (App.range 0 num_points)).
  { unfold points. rewrite (range_0_succ num_points Hn). reflexivity. }
  assert (Hlen : length points = Z.to_nat num_points).
  { rewrite Hpoints, length_map, range_length. f_equal. lia. }
  exists (points ++ [v 0%Z]). split; [reflexivity|].
  split; [|split].
  - rewrite length_app, Hlen. simpl. lia.
  - intros i Hi. rewrite lookup_app_l by (rewrite Hlen; lia).
    rewrite Hpoints, list_lookup_fmap, range_lookup by lia.
    cbn [fmap option_fmap option_map]. replace (0 + Z.of_nat (Z.to_nat i))%Z with i by lia.
    reflexivity.
  - rewrite lookup_app_r by (rewrite Hlen; lia).
    rewrite Hlen, Nat.sub_diag. cbn. unfold v. rewrite Rmult_0_l. reflexivity.
Qed.

Lemma spotbeam_polygon_is_closed_ring_witness :
  let vertex := fun bearing : R => (20, 10 + bearing)%R in
  exists ring : list (R * R),
    App.calculate_spotbeam_polygon (fun p bearing _ => (fst p + bearing, snd p)%R)
      10 20 1000 50 = Ok ring
    /\ length ring = Z.to_nat (50 + 1)
    /\ (forall i : Z, (0 <= i < 50)%Z ->
          ring !! Z.to_nat i = Some (vertex (IZR i * (360 / IZR 50))%R))
    /\ ring !! Z.to_nat 50 = Some (vertex 0%R).
Proof.
  apply (spotbeam_polygon_is_closed_ring
           (fun p bearing _ => (fst p + bearing, snd p)%R) 10 20 1000 50). lia.
Defined.

(** Without a point the loop does not run and indexing the empty list
    raises IndexError, whatever the centre and the radius. *)
Theorem spotbeam_polygon_without_points_raises (destination : R * R -> R -> R -> R * R)
    (center_lat center_lon radius_km : R) (num_points : Z) :
  (num_points <= 0)%Z ->
  App.calculate_spotbeam_polygon destination center_lat center_lon radius_km num_points
  = Raise IndexError.
Proof.
  intros Hn. unfold App.calculate_spotbeam_polygon, App.range.
  rewrite (seqZ_nil 0 (num_points - 0)) by lia. reflexivity.
Qed.

Lemma spotbeam_polygon_without_points_raises_witness :
  App.calculate_spotbeam_polygon (fun p _ _ => p) 10 20 1000 0 = Raise IndexError.
Proof.
  apply (spotbeam_polygon_without_points_raises (fun p _ _ => p) 10 20 1000 0). lia.
Defined.

(** ** The rolled map *)

Lemma np_roll_length {A} (row : list A) (shift : Z) :
  length (PopulationMap.np_roll row shift) = length row.
Proof.
  unfold PopulationMap.np_roll. destruct (Z.of_nat (length row) =? 0)%Z eqn:E; [reflexivity|].
  apply Z.eqb_neq in E.
  rewrite length_app, length_drop, length_take.
  pose proof (Z.mod_pos_bound (- shift) (Z.of_nat (length row))). lia.
Qed.

Lemma np_roll_lookup {A} (row : list A) (shift : Z) (j : nat) :
  (j < length row)%nat ->
  PopulationMap.np_roll row shift !! j
  = row !! Z.to_nat ((Z.of_nat j - shift) mod Z.of_nat (length row)).
Proof.
  intros Hj. unfold PopulationMap.np_roll.
  destruct (Z.of_nat (length row) =? 0)%Z eqn:E; [apply Z.eqb_eq in E; lia|].
  set (n := Z.of_nat (length row)).
  assert (Hn : (0 < n)%Z) by (unfold n; lia).
  pose proof (Z.mod_pos_bound (- shift) n Hn) as Hk.
  set (k := ((- shift) mod n)%Z) in *.
  assert (Hmod : ((Z.of_nat j - shift) mod n
                  = if decide (Z.of_nat j + k < n) then Z.of_nat j + k
                    else Z.of_nat j + k - n)%Z).
  { replace (Z.of_nat j - shift)%Z with (Z.of_nat j + - shift)%Z by lia.
    rewrite <- Zplus_mod_idemp_r. fold k.
    destruct (decide (Z.of_nat j + k < n)%Z).
    - apply Z.mod_small. lia.
    - transitivity ((Z.of_nat j + k - n + 1 * n) mod n)%Z; [f_equal; lia|].
      rewrite Z_mod_plus_full. apply Z.mod_small. unfold n. lia. }
  rewrite Hmod. destruct (decide (Z.of_nat j + k < n)%Z) as [Hlt|Hge].
  - rewrite lookup_app_l by (rewrite length_drop; unfold n in *; lia).
    rewrite lookup_drop. f_equal. lia.
  - rewrite lookup_app_r by (rewrite length_drop; unfold n in *; lia).
    rewrite length_drop, lookup_take_lt by (unfold n in *; lia).
    f_equal. unfold n in *. lia.
Qed.

Lemma np_roll_zip_with {A B C} (f : A -> B -> C) (l1 : list A) (l2 : list B) (shift : Z) :
  length l1 = length l2 ->
  PopulationMap.np_roll (zip_with f l1 l2) shift = zip_with f (PopulationMap.np_roll l1 shift) (PopulationMap.np_roll l2 shift).
Proof.
  intros Hlen. unfold PopulationMap.np_roll. rewrite length_zip_with, <- Hlen, Nat.min_id.
  destruct (Z.of_nat (length l1) =? 0)%Z; [reflexivity|].
  set (k := Z.to_nat _).
  rewrite zip_with_app by (rewrite !length_drop; lia).
  rewrite zip_with_drop, zip_with_take. reflexivity.
Qed.

(** Rolling the raster and the land mask by half the width and then
    filling the sea gives what filling the sea on the unrolled raster
    and rolling the result gives: the two rolls keep every pixel with
    its own mask bit. *)
Theorem roll_commutes_with_land_mask {A} (land_mask : list (list bool))
    (data : list (list A)) (fill : A) (rows cols : nat) :
  PopulationMap.has_shape land_mask rows cols ->
  PopulationMap.has_shape data rows cols ->
  PopulationMap.data_land land_mask data fill
  = PopulationMap.roll_columns (PopulationMap.np_where land_mask data fill) (Z.of_nat cols / 2).
Proof.
  intros [Hm1 Hm2] [Hd1 Hd2]. unfold PopulationMap.data_land, PopulationMap.roll_columns.
  assert (Hs : rows = 0%nat \/ PopulationMap.shape1 data = Z.of_nat cols).
  { destruct data as [|d data]; simpl in *; [left; lia|right].
    apply Forall_cons in Hd2 as [Hd _]. congruence. }
  destruct Hs as [-> | ->].
  { destruct land_mask, data; simpl in *; try lia. reflexivity. }
  set (k := (Z.of_nat cols / 2)%Z). clearbody k.
  subst rows. unfold PopulationMap.np_where. revert data Hd1 Hd2.
  induction Hm2 as [|m mask Hm _ IH]; intros [|d data] Hd1 Hd2; simpl in *;
    try reflexivity; try lia.
  apply Forall_cons in Hd2 as [Hd Hd2]. f_equal.
  - symmetry. apply np_roll_zip_with. congruence.
  - apply IH; [lia | assumption].
Qed.

Lemma roll_commutes_with_land_mask_witness :
  PopulationMap.data_land [[true; false; true; true]; [false; true; true; false]]
            [[1; 2; 3; 4]; [5; 6; 7; 8]]%Z (-9999)%Z
  = PopulationMap.roll_columns (PopulationMap.np_where [[true; false; true; true]; [false; true; true; false]]
                           [[1; 2; 3; 4]; [5; 6; 7; 8]]%Z (-9999)%Z)
                 (Z.of_nat 4 / 2).
Proof.
  apply (roll_commutes_with_land_mask
           [[true; false; true; true]; [false; true; true; false]]
           [[1; 2; 3; 4]; [5; 6; 7; 8]]%Z (-9999)%Z 2 4).
  - split; [reflexivity | repeat constructor].
  - split; [reflexivity | repeat constructor].
Defined.

(** Cell (r, j) of the map after the roll and the fill is cell
    (r, (j - cols // 2) mod cols) of the raster where that cell is land,
    and the fill value where it is sea: for a raster from -180 to 180 of
    even width, the column of longitude 0, cols // 2, becomes column 0. *)
Theorem rolled_map_cell {A} (land_mask : list (list bool)) (data : list (list A))
    (fill : A) (rows cols : nat) (r j : nat) (m : bool) (v : A) :
  PopulationMap.has_shape land_mask rows cols ->
  PopulationMap.has_shape data rows cols ->
  (j < cols)%nat ->
  let source := Z.to_nat ((Z.of_nat j - Z.of_nat cols / 2) mod Z.of_nat cols) in
  (land_mask !! r) ≫= (.!! source) = Some m ->
  (data !! r) ≫= (.!! source) = Some v ->
  (PopulationMap.data_land land_mask data fill !! r) ≫= (.!! j) = Some (if m then v else fill).
Proof.
  intros [Hm1 Hm2] [Hd1 Hd2] Hj source Hm Hv. unfold PopulationMap.data_land, PopulationMap.roll_columns, PopulationMap.np_where.
  destruct (land_mask !! r) as [mrow|] eqn:Emask; [|discriminate].
  destruct (data !! r) as [drow|] eqn:Edata; [|discriminate].
  cbn in Hm, Hv.
  assert (Hml : length mrow = cols) by apply (proj1 (Forall_lookup _ _) Hm2 r mrow Emask).
  assert (Hdl : length drow = cols) by apply (proj1 (Forall_lookup _ _) Hd2 r drow Edata).
  assert (Hs : PopulationMap.shape1 data = Z.of_nat cols).
  { destruct data as [|d data]; [discriminate|]. simpl.
    apply Forall_cons in Hd2 as [Hd _]. congruence. }
  rewrite Hs, lookup_zip_with, !list_lookup_fmap, Emask, Edata. cbn.
  rewrite lookup_zip_with, !np_roll_lookup, Hml, Hdl by lia.
  fold source. rewrite Hm, Hv. reflexivity.
Qed.

Lemma rolled_map_cell_witness :
  (PopulationMap.data_land [[true; false; true; true]; [false; true; true; false]]
             [[1; 2; 3; 4]; [5; 6; 7; 8]]%Z (-9999)%Z !! 1%nat) ≫= (.!! 0%nat)
  = Some 7%Z.
Proof.
  apply (rolled_map_cell [[true; false; true; true]; [false; true; true; false]]
           [[1; 2; 3; 4]; [5; 6; 7; 8]]%Z (-9999)%Z 2 4 1 0 true 7%Z).
  - split; [reflexivity | repeat constructor].
  - split; [reflexivity | repeat constructor].
  - lia.
  - reflexivity.
  - reflexivity.
Defined.

(** * The sweep, for every iteration order of the set *)

Lemma py_sum_in_order {F : Type} `{Float64 F} (xs : list F) :
  App.py_sum xs = sum_in_order xs.
Proof.
  unfold App.py_sum, sum_in_order. rewrite fold_left_rev_right. reflexivity.
Qed.

Lemma cell_count_at {F : Type} `{Float64 F} (svc : App.service F) (p : Z * Z) :
  well_formed svc ->
  (0 <= p.1 < (App.RASTER_SHAPE svc).1)%Z -> (0 <= p.2 < (App.RASTER_SHAPE svc).2)%Z ->
  App.cell svc p = Ok (count_at svc p).
Proof.
  intros [Hrows Hcols] Hr Hc. destruct p as [r c]. cbn [fst snd] in *.
  unfold App.cell, count_at. cbn [fst snd].
  destruct (App.POPULATION_COUNT_DATA svc !! Z.to_nat r) as [row|] eqn:Er.
  - rewrite (nth_lookup_Some _ _ _ _ Er).
    pose proof (Forall_lookup_1 _ _ _ _ Hcols Er) as Hlen. cbn beta in Hlen.
    destruct (row !! Z.to_nat c) as [v|] eqn:Ec.
    + rewrite (nth_lookup_Some _ _ _ _ Ec). reflexivity.
    + apply lookup_ge_None in Ec. lia.
  - apply lookup_ge_None in Er. lia.
Qed.

Lemma iterates_elements (X : gset (Z * Z)) : App.iterates X (elements X).
Proof. split; [apply NoDup_elements | intros p; apply elem_of_elements]. Qed.

Lemma iterates_Permutation (X : gset (Z * Z)) (order : list (Z * Z)) :
  App.iterates X order -> order ≡ₚ elements X.
Proof.
  intros [Hnd Hin]. apply NoDup_Permutation; [exact Hnd | apply NoDup_elements|].
  intros p. rewrite Hin, elem_of_elements. reflexivity.
Qed.

Section SweepOrders.
Context {F : Type} `{Float64 F}.
Variable svc : App.service F.
Variable great_circle : R * R -> R * R -> R.

Lemma total_population_in_grid (order : list (Z * Z)) :
  well_formed svc ->
  (forall p, p ∈ order ->
     (0 <= p.1 < (App.RASTER_SHAPE svc).1)%Z /\ (0 <= p.2 < (App.RASTER_SHAPE svc).2)%Z) ->
  App.total_population_in svc order = Ok (sum_in_order (map (count_at svc) order)).
Proof.
  intros Hwf Hin. unfold App.total_population_in.
  rewrite (map_result_Ok_intro _ (count_at svc)).
  - cbn [bind]. rewrite py_sum_in_order. reflexivity.
  - intros p Hp. destruct (Hin p Hp). apply cell_count_at; assumption.
Qed.

Lemma coverage_score_in_grid (track : list (R * R)) (radius_km : R)
    (covered : gset (Z * Z)) (order : list (Z * Z)) :
  well_formed svc ->
  App.sweep svc great_circle radius_km track ∅ = Ok covered ->
  App.iterates covered order ->
  App.coverage_score_in svc great_circle order track radius_km
  = f_int (sum_in_order (map (count_at svc) order)).
Proof.
  intros Hwf Hsweep [_ Hin]. unfold App.coverage_score_in. rewrite Hsweep. cbn [bind].
  rewrite total_population_in_grid; [reflexivity | exact Hwf|].
  intros p Hp. apply Hin in Hp.
  exact (covered_in_grid svc great_circle radius_km track covered p Hsweep Hp).
Qed.

Lemma coverage_score_elements (track : list (R * R)) (radius_km : R)
    (covered : gset (Z * Z)) :
  App.sweep svc great_circle radius_km track ∅ = Ok covered ->
  App.coverage_score svc great_circle track radius_km
  = App.coverage_score_in svc great_circle (elements covered) track radius_km.
Proof.
  intros Hsweep. unfold App.coverage_score, App.coverage_score_in, App.total_population.
  rewrite Hsweep. reflexivity.
Qed.

Lemma single_footprint_subseteq (track : list (R * R)) (radius_km : R) (p : R * R)
    (covered : gset (Z * Z)) :
  p ∈ track ->
  App.sweep svc great_circle radius_km track ∅ = Ok covered ->
  exists footprint,
    App.sweep svc great_circle radius_km [p] ∅ = Ok footprint /\ footprint ⊆ covered.
Proof.
  intros Hp Hsweep.
  assert (Hbox : exists box, App.sample_box svc radius_km p = Ok box).
  { apply (sweep_Ok_iff svc great_circle radius_km track ∅); eauto. }
  destruct (proj2 (sweep_Ok_iff svc great_circle radius_km [p] ∅)) as (footprint & Hfoot).
  { intros sample Hin. apply list_elem_of_singleton in Hin as ->. exact Hbox. }
  exists footprint. split; [exact Hfoot|]. intros q Hq.
  apply (sweep_spec svc great_circle _ _ _ _ q Hfoot) in Hq.
  apply (sweep_spec svc great_circle _ _ _ _ q Hsweep).
  destruct Hq as [Hq|(sample & Hin & Hf)]; [set_solver|].
  apply list_elem_of_singleton in Hin as ->. right. eauto.
Qed.

Lemma same_samples_same_set (track1 track2 : list (R * R)) (radius_km : R)
    (covered : gset (Z * Z)) :
  (forall sample, sample ∈ track1 <-> sample ∈ track2) ->
  App.sweep svc great_circle radius_km track1 ∅ = Ok covered ->
  App.sweep svc great_circle radius_km track2 ∅ = Ok covered.
Proof.
  intros Hsame Hsweep.
  destruct (proj2 (sweep_Ok_iff svc great_circle radius_km track2 ∅)) as (covered2 & H2).
  { intros sample Hin. apply Hsame in Hin.
    apply (sweep_Ok_iff svc great_circle radius_km track1 ∅); eauto. }
  rewrite H2. f_equal. apply leibniz_equiv, set_equiv. intros q.
  rewrite (sweep_spec svc great_circle _ _ _ _ q H2),
          (sweep_spec svc great_circle _ _ _ _ q Hsweep).
  split; (intros [Hq|(sample & Hin & Hf)]; [left; exact Hq|]);
    right; exists sample; (split; [apply Hsame; exact Hin | exact Hf]).
Qed.

End SweepOrders.

(** C5.  When the array has the declared shape and every sample of the
    track has an index box, the sweep completes with a set that holds
    pixel (r, c) exactly when some sample has (r, c) in its clamped box
    with the great-circle distance from the sample to the pixel centre
    [RASTER_TRANSFORM * (c + 0.5, r + 0.5)] at most the radius; and in
    whatever order the set is iterated, each of its pixels once, the
    score is [int] of the sum, in that order, of the cells of CountRaster
    at those pixels. *)
Theorem coverage_score_sums_unique_footprint_pixels {F : Type} `{Float64 F}
    (svc : App.service F) (great_circle : R * R -> R * R -> R)
    (track : list (R * R)) (radius_km : R) :
  well_formed svc ->
  (forall sample, sample ∈ track ->
     exists box, App.sample_box svc radius_km sample = Ok box) ->
  exists covered,
    App.sweep svc great_circle radius_km track ∅ = Ok covered
    /\ (forall p, p ∈ covered
          <-> exists sample, sample ∈ track
                             /\ in_footprint svc great_circle radius_km sample p)
    /\ (forall order, App.iterates covered order ->
          App.coverage_score_in svc great_circle order track radius_km
          = f_int (sum_in_order (map (count_at svc) order)))
    /\ App.coverage_score svc great_circle track radius_km
       = f_int (sum_in_order (map (count_at svc) (elements covered))).
Proof.
  intros Hwf Hall.
  destruct (proj2 (sweep_Ok_iff svc great_circle radius_km track ∅) Hall)
    as (covered & Hsweep).
  exists covered. split; [exact Hsweep|]. split; [|split].
  - intros p. rewrite (sweep_spec svc great_circle _ _ _ _ p Hsweep).
    split; [intros [Hin|Hex]; [set_solver | exact Hex] | auto].
  - intros order Horder.
    exact (coverage_score_in_grid svc great_circle track radius_km covered order
             Hwf Hsweep Horder).
  - rewrite (coverage_score_elements svc great_circle track radius_km covered Hsweep).
    exact (coverage_score_in_grid svc great_circle track radius_km covered
             (elements covered) Hwf Hsweep (iterates_elements covered)).
Qed.

(** ** Scores in exact arithmetic *)

Lemma sum_in_order_exact (xs : list R) : sum_in_order xs = Rsum xs.
Proof. rewrite <- py_sum_in_order. apply py_sum_exact. Qed.

Lemma Rsum_iterates (f : Z * Z -> R) (X : gset (Z * Z)) (order : list (Z * Z)) :
  App.iterates X order -> Rsum (map f order) = Rsum (map f (elements X)).
Proof.
  intros Horder. apply Rsum_Permutation, Permutation_map, iterates_Permutation, Horder.
Qed.

(** A sum over a set only sees the members at which the summand is not
    zero. *)
Lemma Rsum_support (f : Z * Z -> R) (X S : gset (Z * Z)) :
  S ⊆ X -> (forall p, p ∈ X -> p ∉ S -> f p = 0%R) ->
  Rsum (map f (elements X)) = Rsum (map f (elements S)).
Proof.
  intros Hsub Hzero.
  assert (Hperm : elements X ≡ₚ elements S ++ elements (X ∖ S)).
  { rewrite (union_difference_L S X Hsub) at 1.
    apply elements_disj_union.
    intros q Hq1 Hq2. apply elem_of_difference in Hq2 as [_ Hn]. exact (Hn Hq1). }
  rewrite (Rsum_Permutation _ _ (Permutation_map f Hperm)), map_app, Rsum_app.
  rewrite (Rsum_zeros (map f (elements (X ∖ S)))); [lra|].
  apply Forall_forall. intros v Hv.
  apply list_elem_of_In, in_map_iff in Hv as (p & <- & Hp).
  apply list_elem_of_In, elem_of_elements, elem_of_difference in Hp as [HpX HpS].
  apply Hzero; assumption.
Qed.

Lemma Rsum_pair (f : Z * Z -> R) (a b : Z * Z) :
  a <> b -> Rsum (map f (elements ({[ a; b ]} : gset (Z * Z)))) = (f a + f b)%R.
Proof.
  intros Hab.
  assert (Hperm : elements ({[ a; b ]} : gset (Z * Z)) ≡ₚ [a] ++ [b]).
  { rewrite elements_disj_union by set_solver. rewrite !elements_singleton. reflexivity. }
  rewrite (Rsum_Permutation _ _ (Permutation_map f Hperm)). simpl. lra.
Qed.

Lemma Rsum_single (f : Z * Z -> R) (a : Z * Z) :
  Rsum (map f (elements ({[ a ]} : gset (Z * Z)))) = f a.
Proof. rewrite elements_singleton. simpl. lra. Qed.

Section ExactOrders.
Variable svc : App.service R.
Variable great_circle : R * R -> R * R -> R.

Lemma total_population_in_exact (order : list (Z * Z)) (total : R) :
  App.total_population_in svc order = Ok total ->
  total = Rsum (map (cell_value svc) order)
  /\ forall p, p ∈ order -> exists v, App.cell svc p = Ok v.
Proof.
  unfold App.total_population_in. intros E.
  apply bind_Ok_inv in E as (cells & Hcells & E). revert E; intros [= <-].
  split.
  - rewrite (map_result_cell_values svc _ _ Hcells). apply py_sum_exact.
  - intros p Hp. exact (map_result_Ok_elem _ _ _ p Hcells Hp).
Qed.

Lemma total_population_in_exact_intro (order : list (Z * Z)) :
  (forall p, p ∈ order -> exists v, App.cell svc p = Ok v) ->
  App.total_population_in svc order = Ok (Rsum (map (cell_value svc) order)).
Proof.
  intros Hall. unfold App.total_population_in.
  rewrite (map_result_Ok_intro _ (cell_value svc)).
  - cbn [bind]. rewrite py_sum_exact. reflexivity.
  - intros p Hp. destruct (Hall p Hp) as (v & Hv). unfold cell_value. rewrite Hv.
    reflexivity.
Qed.

(** In exact arithmetic the score of a run is the same for every
    iteration order: [int] of the sum over the set. *)
Lemma coverage_score_in_exact (track : list (R * R)) (radius_km : R)
    (covered : gset (Z * Z)) (order : list (Z * Z)) (s : Z) :
  App.sweep svc great_circle radius_km track ∅ = Ok covered ->
  App.iterates covered order ->
  App.coverage_score_in svc great_circle order track radius_km = Ok s ->
  s = py_int (Rsum (map (cell_value svc) (elements covered)))
  /\ forall p, p ∈ covered -> exists v, App.cell svc p = Ok v.
Proof.
  intros Hsweep Horder Hs. unfold App.coverage_score_in in Hs. rewrite Hsweep in Hs.
  cbn [bind] in Hs. apply bind_Ok_inv in Hs as (total & Htotal & Hs).
  cbn [f_int exact] in Hs. revert Hs; intros [= <-].
  apply total_population_in_exact in Htotal as [-> Hcells]. split.
  - rewrite (Rsum_iterates _ covered order Horder). reflexivity.
  - intros p Hp. apply Hcells, Horder. exact Hp.
Qed.

Lemma coverage_score_in_exact_intro (track : list (R * R)) (radius_km : R)
    (covered : gset (Z * Z)) (order : list (Z * Z)) :
  App.sweep svc great_circle radius_km track ∅ = Ok covered ->
  App.iterates covered order ->
  (forall p, p ∈ covered -> exists v, App.cell svc p = Ok v) ->
  App.coverage_score_in svc great_circle order track radius_km
  = Ok (py_int (Rsum (map (cell_value svc) (elements covered)))).
Proof.
  intros Hsweep Horder Hcells. unfold App.coverage_score_in. rewrite Hsweep. cbn [bind].
  rewrite total_population_in_exact_intro.
  - cbn [bind f_int exact]. rewrite (Rsum_iterates _ covered order Horder). reflexivity.
  - intros p Hp. apply Hcells, Horder. exact Hp.
Qed.

End ExactOrders.

(** C3 (as amended).  The set of pixels a track covers holds the
    circular footprint of every one of its samples, whatever the cells
    are.  In exact arithmetic and with counts that are not negative it
    follows that the score of the track, in whatever order the set is
    iterated, is at least the score of the one-sample track of any of
    its points, in whatever order that set is iterated. *)
Theorem coverage_score_at_least_single_footprint :
  (forall (F : Type) (cells : Float64 F) (svc : App.service F)
          (great_circle : R * R -> R * R -> R) (track : list (R * R)) (radius_km : R)
          (p : R * R) (covered : gset (Z * Z)),
      p ∈ track ->
      App.sweep svc great_circle radius_km track ∅ = Ok covered ->
      exists footprint,
        App.sweep svc great_circle radius_km [p] ∅ = Ok footprint
        /\ footprint ⊆ covered)
  /\ (forall (svc : App.service R) (great_circle : R * R -> R * R -> R)
             (track : list (R * R)) (radius_km : R) (p : R * R)
             (covered : gset (Z * Z)) (order : list (Z * Z)) (s : Z),
      Forall (Forall (fun v => 0 <= v)%R) (App.POPULATION_COUNT_DATA svc) ->
      p ∈ track ->
      App.sweep svc great_circle radius_km track ∅ = Ok covered ->
      App.iterates covered order ->
      App.coverage_score_in svc great_circle order track radius_km = Ok s ->
      exists footprint s',
        App.sweep svc great_circle radius_km [p] ∅ = Ok footprint
        /\ (s' <= s)%Z
        /\ forall order', App.iterates footprint order' ->
             App.coverage_score_in svc great_circle order' [p] radius_km = Ok s').
Proof.
  split.
  - intros F cells svc great_circle track radius_km p covered Hp Hsweep.
    exact (single_footprint_subseteq svc great_circle track radius_km p covered Hp Hsweep).
  - intros svc great_circle track radius_km p covered order s Hnn Hp Hsweep Horder Hs.
    destruct (single_footprint_subseteq svc great_circle track radius_km p covered
                Hp Hsweep) as (footprint & Hfoot & Hsub).
    destruct (coverage_score_in_exact svc great_circle track radius_km covered order s
                Hsweep Horder Hs) as [-> Hcells].
    exists footprint, (py_int (Rsum (map (cell_value svc) (elements footprint)))).
    split; [exact Hfoot|]. split.
    + apply py_int_mono_nonneg. split.
      * apply Rsum_nonneg. apply Forall_forall. intros v Hv.
        apply list_elem_of_In, in_map_iff in Hv as (q & <- & _).
        apply (cell_value_nonneg svc Hnn).
      * apply (Rsum_cell_values_subseteq svc Hnn). exact Hsub.
    + intros order' Horder'.
      apply (coverage_score_in_exact_intro svc great_circle [p] radius_km footprint order'
               Hfoot Horder').
      intros q Hq. apply Hcells, Hsub. exact Hq.
Qed.

(** ** Two samples on the 3 x 3 raster *)

Lemma great_circle_same_point (p : R * R) : App.geopy_great_circle p p = 0%R.
Proof.
  unfold App.geopy_great_circle.
  replace (radians p.2 - radians p.2)%R with 0%R by lra. rewrite sin_0, cos_0.
  set (phi := radians p.1).
  replace ((cos phi * 0) ^ 2 + (cos phi * sin phi - sin phi * cos phi * 1) ^ 2)%R
    with 0%R by ring.
  rewrite sqrt_0.
  replace (sin phi * sin phi + cos phi * cos phi * 1)%R with 1%R
    by (pose proof (sin2_cos2 phi) as E; unfold Rsqr in E; lra).
  unfold App.atan2. destruct (Rlt_dec 0 1); [|lra].
  replace (0 / 1)%R with 0%R by lra. rewrite atan_0. lra.
Qed.

Lemma km_per_deg_lon_60 : App.km_per_deg_lon 60 = 55.66%R.
Proof. unfold App.km_per_deg_lon. rewrite radians_60, cos_PI3. lra. Qed.

Lemma center_pixel_3x3_north_west {F : Type} (data : list (list F)) :
  App.center_pixel (service_3x3_of data) 60 (-120) = Ok (0, 0)%Z.
Proof.
  svc_unfold. not_zero. cbn [bind].
  f_equal. f_equal; apply py_int_nonneg; lra.
Qed.

Lemma coverage_col_radius_3x3_60 {F : Type} (data : list (list F)) :
  App.coverage_col_radius (service_3x3_of data) 60 1300 = Ok 1%Z.
Proof.
  svc_unfold. rewrite km_per_deg_lon_60. not_zero. cbn [bind].
  rewrite (py_round_near _ 0); [reflexivity|]. lra.
Qed.

Lemma sample_box_3x3_north_west {F : Type} (data : list (list F)) :
  App.sample_box (service_3x3_of data) 1300 (60, -120)%R = Ok (0, 2, 0, 2)%Z.
Proof.
  unfold App.sample_box.
  rewrite center_pixel_3x3_north_west, coverage_col_radius_3x3_60, row_radius_3x3.
  reflexivity.
Qed.

(** The sample over the centre of the north-west pixel covers that
    pixel, and the sample at (0, 0) covers the middle pixel. *)
Lemma footprint_3x3_north_west {F : Type} `{Float64 F} (data : list (list F)) :
  in_footprint (service_3x3_of data) App.geopy_great_circle 1300 (60, -120)%R (0, 0)%Z.
Proof.
  exists (0, 2, 0, 2)%Z. split; [apply sample_box_3x3_north_west|].
  cbn [fst snd]. split; [lia|]. split; [lia|].
  rewrite pixel_center_3x3_corner. cbn [fst snd].
  rewrite great_circle_same_point. lra.
Qed.

Lemma footprint_3x3_middle {F : Type} `{Float64 F} (data : list (list F)) :
  in_footprint (service_3x3_of data) App.geopy_great_circle 1300 (0, 0)%R (1, 1)%Z.
Proof.
  exists (0, 3, 0, 3)%Z. split; [apply sample_box_3x3_origin|].
  cbn [fst snd]. split; [lia|]. split; [lia|].
  rewrite pixel_center_3x3_middle. cbn [fst snd].
  rewrite great_circle_same_point. lra.
Qed.

Lemma well_formed_3x3_towns : well_formed service_3x3_towns.
Proof. split; [reflexivity | repeat constructor]. Qed.

Lemma cell_3x3_towns (p : Z * Z) :
  (0 <= p.1 < 3)%Z -> (0 <= p.2 < 3)%Z ->
  App.cell service_3x3_towns p
  = Ok (if decide (p = (0, 0)%Z) then 5%R else if decide (p = (1, 1)%Z) then 7%R else 0%R).
Proof.
  destruct p as [r c]. cbn [fst snd]. intros Hr Hc.
  assert (Hrc : (r = 0 \/ r = 1 \/ r = 2)%Z /\ (c = 0 \/ c = 1 \/ c = 2)%Z) by lia.
  destruct Hrc as [[-> | [-> | ->]] [-> | [-> | ->]]]; reflexivity.
Qed.

Lemma boxes_3x3_towns (track : list (R * R)) :
  (forall sample, sample ∈ track -> sample = (60, -120)%R \/ sample = (0, 0)%R) ->
  forall sample, sample ∈ track ->
    exists box, App.sample_box service_3x3_towns 1300 sample = Ok box.
Proof.
  intros Hall sample Hin. unfold service_3x3_towns.
  destruct (Hall sample Hin) as [-> | ->].
  - rewrite sample_box_3x3_north_west. eauto.
  - rewrite sample_box_3x3_origin. eauto.
Qed.

(** The sum over a covered set of the towns raster that holds both
    populated pixels. *)
Lemma Rsum_3x3_towns (X : gset (Z * Z)) :
  (forall p, p ∈ X -> (0 <= p.1 < 3)%Z /\ (0 <= p.2 < 3)%Z) ->
  (0, 0)%Z ∈ X -> (1, 1)%Z ∈ X ->
  Rsum (map (cell_value service_3x3_towns) (elements X)) = 12%R.
Proof.
  intros Hgrid H00 H11.
  rewrite (Rsum_support _ X {[ (0, 0)%Z; (1, 1)%Z ]}).
  - rewrite Rsum_pair by discriminate. unfold cell_value.
    rewrite !cell_3x3_towns by (cbn [fst snd]; lia). simpl. lra.
  - intros q Hq. apply elem_of_union in Hq as [Hq|Hq];
      apply elem_of_singleton in Hq as ->; assumption.
  - intros p Hp Hn. destruct (Hgrid p Hp) as [Hr Hc]. unfold cell_value.
    rewrite cell_3x3_towns by assumption.
    destruct (decide (p = (0, 0)%Z)) as [->|_].
    { exfalso. apply Hn, elem_of_union. left. apply elem_of_singleton. reflexivity. }
    destruct (decide (p = (1, 1)%Z)) as [->|_]; [|reflexivity].
    exfalso. apply Hn, elem_of_union. right. apply elem_of_singleton. reflexivity.
Qed.

(** A track over the two towns, in any order and with any repetition,
    scores 12, in whatever order the set is iterated. *)
Lemma coverage_3x3_towns (track : list (R * R)) :
  (forall sample, sample ∈ track -> sample = (60, -120)%R \/ sample = (0, 0)%R) ->
  (60, -120)%R ∈ track -> (0, 0)%R ∈ track ->
  exists covered,
    App.sweep service_3x3_towns App.geopy_great_circle 1300 track ∅ = Ok covered
    /\ (0, 0)%Z ∈ covered /\ (1, 1)%Z ∈ covered
    /\ (forall order, App.iterates covered order ->
          App.coverage_score_in service_3x3_towns App.geopy_great_circle order track 1300
          = Ok 12%Z)
    /\ App.coverage_score service_3x3_towns App.geopy_great_circle track 1300 = Ok 12%Z.
Proof.
  intros Hall Hq Hp.
  destruct (proj2 (sweep_Ok_iff service_3x3_towns App.geopy_great_circle 1300 track ∅)
              (boxes_3x3_towns track Hall)) as (covered & Hsweep).
  assert (Hgrid : forall p, p ∈ covered -> (0 <= p.1 < 3)%Z /\ (0 <= p.2 < 3)%Z).
  { intros p Hin.
    exact (covered_in_grid service_3x3_towns App.geopy_great_circle 1300 track covered p
             Hsweep Hin). }
  assert (H00 : (0, 0)%Z ∈ covered).
  { apply (sweep_spec _ _ _ _ _ _ _ Hsweep). right. exists (60, -120)%R.
    split; [exact Hq | apply footprint_3x3_north_west]. }
  assert (H11 : (1, 1)%Z ∈ covered).
  { apply (sweep_spec _ _ _ _ _ _ _ Hsweep). right. exists (0, 0)%R.
    split; [exact Hp | apply footprint_3x3_middle]. }
  assert (Hin : forall order, App.iterates covered order ->
            App.coverage_score_in service_3x3_towns App.geopy_great_circle order track 1300
            = Ok 12%Z).
  { intros order Horder.
    rewrite (coverage_score_in_exact_intro _ _ track 1300 covered order Hsweep Horder).
    - rewrite (Rsum_3x3_towns covered Hgrid H00 H11).
      change 12%R with (IZR 12). rewrite py_int_IZR. reflexivity.
    - intros p Hpin. destruct (Hgrid p Hpin). rewrite cell_3x3_towns by assumption. eauto. }
  exists covered. repeat split; try assumption.
  rewrite (coverage_score_elements _ _ track 1300 covered Hsweep).
  apply Hin, iterates_elements.
Qed.

(** The sample at (0, 0) alone covers the middle town and not the corner
    one: it scores 7. *)
Lemma coverage_3x3_towns_origin :
  App.coverage_score service_3x3_towns App.geopy_great_circle [(0, 0)%R] 1300 = Ok 7%Z.
Proof.
  destruct (proj2 (sweep_Ok_iff service_3x3_towns App.geopy_great_circle 1300
                     [(0, 0)%R] ∅)) as (covered & Hsweep).
  { apply boxes_3x3_towns. intros sample Hin.
    apply list_elem_of_singleton in Hin as ->. auto. }
  assert (Hgrid : forall p, p ∈ covered -> (0 <= p.1 < 3)%Z /\ (0 <= p.2 < 3)%Z).
  { intros p Hin.
    exact (covered_in_grid service_3x3_towns App.geopy_great_circle 1300 _ covered p
             Hsweep Hin). }
  assert (H11 : (1, 1)%Z ∈ covered).
  { apply (sweep_spec _ _ _ _ _ _ _ Hsweep). right. exists (0, 0)%R.
    split; [left | apply footprint_3x3_middle]. }
  assert (H00 : (0, 0)%Z ∉ covered).
  { intros Hin. apply (sweep_spec _ _ _ _ _ _ _ Hsweep) in Hin.
    destruct Hin as [Hin|(sample & Hs & box & _ & _ & _ & Hd)]; [set_solver|].
    apply list_elem_of_singleton in Hs as ->. unfold service_3x3_towns in Hd.
    rewrite pixel_center_3x3_corner in Hd. cbn [fst snd] in Hd.
    pose proof great_circle_corner_far. lra. }
  rewrite (coverage_score_elements _ _ _ 1300 covered Hsweep).
  rewrite (coverage_score_in_exact_intro _ _ _ 1300 covered (elements covered) Hsweep
             (iterates_elements covered)).
  - rewrite (Rsum_support _ covered {[ (1, 1)%Z ]}).
    + rewrite Rsum_single. unfold cell_value.
      rewrite cell_3x3_towns by (cbn [fst snd]; lia). simpl.
      change 7%R with (IZR 7). rewrite py_int_IZR. reflexivity.
    + intros q Hq. apply elem_of_singleton in Hq as ->. exact H11.
    + intros p Hp Hn. destruct (Hgrid p Hp) as [Hr Hc]. unfold cell_value.
      rewrite cell_3x3_towns by assumption.
      destruct (decide (p = (0, 0)%Z)) as [->|_]; [contradiction|].
      destruct (decide (p = (1, 1)%Z)) as [->|_]; [|reflexivity].
      exfalso. apply Hn, elem_of_singleton. reflexivity.
  - intros p Hpin. destruct (Hgrid p Hpin). rewrite cell_3x3_towns by assumption. eauto.
Qed.

(** C5 on the 3 x 3 towns raster: the sample at (0, 0) is visited twice
    and the middle pixel counts once, the score is 5 + 7. *)
Lemma coverage_score_sums_unique_footprint_pixels_witness :
  (exists covered,
     App.sweep service_3x3_towns App.geopy_great_circle 1300
       [(0, 0)%R; (60, -120)%R; (0, 0)%R] ∅ = Ok covered
     /\ (forall p, p ∈ covered
           <-> exists sample, sample ∈ [(0, 0)%R; (60, -120)%R; (0, 0)%R]
                 /\ in_footprint service_3x3_towns App.geopy_great_circle 1300 sample p)
     /\ (forall order, App.iterates covered order ->
           App.coverage_score_in service_3x3_towns App.geopy_great_circle order
             [(0, 0)%R; (60, -120)%R; (0, 0)%R] 1300
           = f_int (sum_in_order (map (count_at service_3x3_towns) order)))
     /\ App.coverage_score service_3x3_towns App.geopy_great_circle
          [(0, 0)%R; (60, -120)%R; (0, 0)%R] 1300
        = f_int (sum_in_order (map (count_at service_3x3_towns) (elements covered))))
  /\ App.coverage_score service_3x3_towns App.geopy_great_circle
       [(0, 0)%R; (60, -120)%R; (0, 0)%R] 1300 = Ok 12%Z.
Proof.
  assert (Hall : forall sample, sample ∈ [(0, 0)%R; (60, -120)%R; (0, 0)%R] ->
            sample = (60, -120)%R \/ sample = (0, 0)%R).
  { intros sample Hin. rewrite !elem_of_cons in Hin.
    destruct Hin as [->|[->|[->|Hin]]]; auto. inversion Hin. }
  split.
  - apply (coverage_score_sums_unique_footprint_pixels service_3x3_towns
             App.geopy_great_circle [(0, 0)%R; (60, -120)%R; (0, 0)%R] 1300).
    + exact well_formed_3x3_towns.
    + exact (boxes_3x3_towns _ Hall).
  - destruct (coverage_3x3_towns [(0, 0)%R; (60, -120)%R; (0, 0)%R] Hall)
      as (covered & _ & _ & _ & _ & Hscore); [right; left | left | exact Hscore].
Defined.

(** C3 on the towns raster: the track over both towns scores 12, the
    sample at (0, 0) alone scores 7, and the theorem bounds the score of
    that sample, in whatever order its set is iterated, by 12. *)
Lemma coverage_score_at_least_single_footprint_witness :
  App.coverage_score service_3x3_towns App.geopy_great_circle
    [(60, -120)%R; (0, 0)%R] 1300 = Ok 12%Z
  /\ App.coverage_score service_3x3_towns App.geopy_great_circle [(0, 0)%R] 1300 = Ok 7%Z
  /\ exists footprint s',
       App.sweep service_3x3_towns App.geopy_great_circle 1300 [(0, 0)%R] ∅ = Ok footprint
       /\ (s' <= 12)%Z
       /\ forall order', App.iterates footprint order' ->
            App.coverage_score_in service_3x3_towns App.geopy_great_circle order'
              [(0, 0)%R] 1300 = Ok s'.
Proof.
  assert (Hall : forall sample, sample ∈ [(60, -120)%R; (0, 0)%R] ->
            sample = (60, -120)%R \/ sample = (0, 0)%R).
  { intros sample Hin. rewrite !elem_of_cons in Hin.
    destruct Hin as [->|[->|Hin]]; auto. inversion Hin. }
  destruct (coverage_3x3_towns [(60, -120)%R; (0, 0)%R] Hall)
    as (covered & Hsweep & _ & _ & Hin & Hscore); [left | right; left |].
  split; [exact Hscore|]. split; [exact coverage_3x3_towns_origin|].
  apply (proj2 coverage_score_at_least_single_footprint service_3x3_towns
           App.geopy_great_circle [(60, -120)%R; (0, 0)%R] 1300%R (0, 0)%R covered
           (elements covered) 12%Z).
  - repeat constructor; lra.
  - right; left.
  - exact Hsweep.
  - apply iterates_elements.
  - apply Hin, iterates_elements.
Defined.

(** ** The iteration order and rounding *)

(** With binary64 cells the total depends on the order in which the set
    is iterated: the first row of [service_3x3_tenths] adds up to 1.0
    from left to right and to 0.9999999999999999 from right to left, and
    [int] gives 1 and 0. *)
Lemma binary64_total_depends_on_order :
  (let* total := App.total_population_in service_3x3_tenths
                   [(0, 0); (0, 1); (0, 2)]%Z in f_int total) = Ok 1%Z
  /\ (let* total := App.total_population_in service_3x3_tenths
                      [(0, 2); (0, 1); (0, 0)]%Z in f_int total) = Ok 0%Z.
Proof. split; vm_compute; reflexivity. Qed.

(** The covered set depends only on which samples the ground track
    contains, not on their order or their repetitions, whatever the
    cells are; in exact arithmetic, where the total does not depend on
    the order in which the set is iterated, so does the score. *)
Theorem coverage_ignores_order_and_repeats :
  (forall (F : Type) (cells : Float64 F) (svc : App.service F)
          (great_circle : R * R -> R * R -> R) (track1 track2 : list (R * R))
          (radius_km : R) (covered : gset (Z * Z)),
      (forall sample, sample ∈ track1 <-> sample ∈ track2) ->
      App.sweep svc great_circle radius_km track1 ∅ = Ok covered ->
      App.sweep svc great_circle radius_km track2 ∅ = Ok covered)
  /\ (forall (svc : App.service R) (great_circle : R * R -> R * R -> R)
             (track1 track2 : list (R * R)) (radius_km : R)
             (covered : gset (Z * Z)) (order1 order2 : list (Z * Z)) (s : Z),
      (forall sample, sample ∈ track1 <-> sample ∈ track2) ->
      App.sweep svc great_circle radius_km track1 ∅ = Ok covered ->
      App.iterates covered order1 ->
      App.iterates covered order2 ->
      App.coverage_score_in svc great_circle order1 track1 radius_km = Ok s ->
      App.coverage_score_in svc great_circle order2 track2 radius_km = Ok s).
Proof.
  split.
  - intros F cells svc great_circle track1 track2 radius_km covered Hsame Hsweep.
    exact (same_samples_same_set svc great_circle track1 track2 radius_km covered
             Hsame Hsweep).
  - intros svc great_circle track1 track2 radius_km covered order1 order2 s
      Hsame Hsweep H1 H2 Hs.
    pose proof (same_samples_same_set svc great_circle track1 track2 radius_km covered
                  Hsame Hsweep) as Hsweep2.
    destruct (coverage_score_in_exact svc great_circle track1 radius_km covered order1 s
                Hsweep H1 Hs) as [-> Hcells].
    exact (coverage_score_in_exact_intro svc great_circle track2 radius_km covered order2
             Hsweep2 H2 Hcells).
Qed.

Lemma coverage_ignores_order_and_repeats_witness :
  exists covered,
    App.sweep service_3x3_towns App.geopy_great_circle 1300
      [(0, 0)%R; (60, -120)%R; (0, 0)%R] ∅ = Ok covered
    /\ App.coverage_score_in service_3x3_towns App.geopy_great_circle
         (reverse (elements covered)) [(0, 0)%R; (60, -120)%R; (0, 0)%R] 1300 = Ok 12%Z.
Proof.
  assert (Hall : forall sample, sample ∈ [(60, -120)%R; (0, 0)%R] ->
            sample = (60, -120)%R \/ sample = (0, 0)%R).
  { intros sample Hin. rewrite !elem_of_cons in Hin.
    destruct Hin as [->|[->|Hin]]; auto. inversion Hin. }
  assert (Hsame : forall sample, sample ∈ [(60, -120)%R; (0, 0)%R]
                    <-> sample ∈ [(0, 0)%R; (60, -120)%R; (0, 0)%R]).
  { intros sample. rewrite !elem_of_cons. tauto. }
  destruct (coverage_3x3_towns [(60, -120)%R; (0, 0)%R] Hall)
    as (covered & Hsweep & _ & _ & Hin & _); [left | right; left |].
  exists covered. split.
  - exact (proj1 coverage_ignores_order_and_repeats R exact service_3x3_towns
             App.geopy_great_circle _ _ 1300%R covered Hsame Hsweep).
  - apply (proj2 coverage_ignores_order_and_repeats service_3x3_towns
             App.geopy_great_circle [(60, -120)%R; (0, 0)%R]
             [(0, 0)%R; (60, -120)%R; (0, 0)%R] 1300%R covered
             (elements covered) (reverse (elements covered)) 12%Z Hsame Hsweep).
    + apply iterates_elements.
    + split; [rewrite reverse_Permutation; apply NoDup_elements|].
      intros p. rewrite elem_of_reverse. apply elem_of_elements.
    + apply Hin, iterates_elements.
Defined.

(** On the towns raster: the track over both towns scores 12, the
    sub-track with the sample at (0, 0) alone scores 7. *)
Lemma coverage_score_monotone_witness :
  (exists s1, App.coverage_score service_3x3_towns App.geopy_great_circle [(0, 0)%R] 1300
              = Ok s1
              /\ (s1 <= 12)%Z)
  /\ App.coverage_score service_3x3_towns App.geopy_great_circle
       [(60, -120)%R; (0, 0)%R] 1300 = Ok 12%Z
  /\ App.coverage_score service_3x3_towns App.geopy_great_circle [(0, 0)%R] 1300 = Ok 7%Z.
Proof.
  assert (Hall : forall sample, sample ∈ [(60, -120)%R; (0, 0)%R] ->
            sample = (60, -120)%R \/ sample = (0, 0)%R).
  { intros sample Hin. rewrite !elem_of_cons in Hin.
    destruct Hin as [->|[->|Hin]]; auto. inversion Hin. }
  destruct (coverage_3x3_towns [(60, -120)%R; (0, 0)%R] Hall)
    as (covered & _ & _ & _ & _ & Hscore); [left | right; left |].
  split; [|split; [exact Hscore | exact coverage_3x3_towns_origin]].
  apply (coverage_score_monotone service_3x3_towns App.geopy_great_circle
           [(0, 0)%R] [(60, -120)%R; (0, 0)%R] 1300 12).
  - repeat constructor; lra.
  - intros sample Hin. right. exact Hin.
  - exact Hscore.
Defined.

(** * Bounds on pi *)

Lemma PI_lower_bound :
  (3141592653589793238462643383279502 / 1000000000000000000000000000000000 < PI)%R.
Proof.
  pose proof (proj1 (PI_2_3_7_ineq 16)) as H.
  unfold sum_f_R0, tg_alt, PI_2_3_7_tg, Ratan_seq in H. simpl in H. lra.
Qed.

Lemma PI_upper_bound :
  (PI < 3141592653589793238462643383279503 / 1000000000000000000000000000000000)%R.
Proof.
  pose proof (proj2 (PI_2_3_7_ineq 18)) as H.
  unfold sum_f_R0, tg_alt, PI_2_3_7_tg, Ratan_seq in H. simpl in H. lra.
Qed.

Lemma B2R_radians_90 : App.B2R (App.math_radians 90) = (7074237752028440 / 4503599627370496)%R.
Proof.
  unfold App.B2R.
  replace (Prim2SF (App.math_radians 90)) with (S754_finite false 7074237752028440 (-52))
    by (vm_compute; reflexivity).
  cbv iota beta zeta. replace (0 <=? -52)%Z with false by reflexivity.
  replace (2 ^ (- -52))%Z with 4503599627370496%Z by reflexivity. reflexivity.
Qed.

Lemma B2R_radians_180 : App.B2R (App.math_radians 180) = (7074237752028440 / 2251799813685248)%R.
Proof.
  unfold App.B2R.
  replace (Prim2SF (App.math_radians 180)) with (S754_finite false 7074237752028440 (-51))
    by (vm_compute; reflexivity).
  cbv iota beta zeta. replace (0 <=? -51)%Z with false by reflexivity.
  replace (2 ^ (- -51))%Z with 2251799813685248%Z by reflexivity. reflexivity.
Qed.

(** The binary64 number [math.radians(90)] lies below pi / 2, by less
    than 2.3e-16: its cosine is positive and tiny. *)
Lemma sin_lower_cubic (y : R) : (0 <= y <= 1)%R -> (y - y ^ 3 / 6 <= sin y)%R.
Proof.
  intros Hy. pose proof PI2_3_2.
  destruct (SIN y) as [Hlb _]; [lra | lra |].
  unfold sin_lb, sin_approx, sum_f_R0, sin_term in Hlb. simpl in Hlb.
  assert (0 <= y ^ 5 * (1 - y ^ 2 / 42))%R; [|nra].
  apply Rmult_le_pos; [apply pow_le; lra | nra].
Qed.

Lemma cos_radians_90 :
  (1300 / (111.32 * 120 * (1589307938013084 + 1 / 2))
   < cos (App.B2R (App.math_radians 90))
   < 1300 / (111.32 * 120 * (1589307938013084 - 1 / 2)))%R.
Proof.
  rewrite B2R_radians_90. pose proof PI_lower_bound. pose proof PI_upper_bound.
  set (x := (7074237752028440 / 4503599627370496)%R).
  set (y := (PI / 2 - x)%R).
  assert (Hlo : (3141592653589793238462643383279502 / 1000000000000000000000000000000000 / 2
                 - x < y)%R) by (unfold y; lra).
  assert (Hhi : (y < 3141592653589793238462643383279503 / 1000000000000000000000000000000000 / 2
                     - x)%R) by (unfold y; lra).
  unfold x in Hlo, Hhi.
  rewrite <- (sin_shift x). fold y.
  split.
  - pose proof (sin_lower_cubic y) as Hs.
    assert (Hy1 : (0 <= y <= 1)%R) by lra. specialize (Hs Hy1).
    assert (Hcube : (y ^ 3 <= y * (/ 1000000000000000 * / 1000000000000000))%R).
    { assert (y * y <= / 1000000000000000 * / 1000000000000000)%R
        by (apply Rmult_le_compat; lra).
      simpl. rewrite Rmult_1_r. apply Rmult_le_compat_l; lra. }
    lra.
  - pose proof (sin_lt_x y). lra.
Qed.

Lemma cos_radians_180 : (cos (App.B2R (App.math_radians 180)) < 0)%R.
Proof.
  rewrite B2R_radians_180. pose proof PI_lower_bound. pose proof PI_upper_bound.
  apply cos_lt_0; lra.
Qed.

(** * The guard of the column radius *)

Lemma Rdiv_lt_iff (a b d : R) : (0 < d)%R -> (a / d < b)%R <-> (a < b * d)%R.
Proof.
  intros Hd. split; intros Hlt.
  - replace a with (a / d * d)%R by (field; lra). apply Rmult_lt_compat_r; assumption.
  - apply (Rmult_lt_reg_r d); [assumption|].
    replace (a / d * d)%R with a by (field; lra). exact Hlt.
Qed.

Lemma Rlt_div_iff (a b d : R) : (0 < d)%R -> (a < b / d)%R <-> (a * d < b)%R.
Proof.
  intros Hd. split; intros Hlt.
  - replace b with (b / d * d)%R by (field; lra). apply Rmult_lt_compat_r; assumption.
  - apply (Rmult_lt_reg_r d); [assumption|].
    replace (b / d * d)%R with b by (field; lra). exact Hlt.
Qed.

Lemma km_per_deg_lon_b64_180 : (App.km_per_deg_lon_b64 180 < 0)%R.
Proof. unfold App.km_per_deg_lon_b64. pose proof cos_radians_180. lra. Qed.

Lemma col_radius_guarded_nonpos {F : Type} `{Float64 F} (svc : App.service F)
    (km_per_deg_lon radius_km : R) :
  (km_per_deg_lon <= 0)%R -> App.col_radius_guarded svc km_per_deg_lon radius_km = Ok 1%Z.
Proof.
  intros Hk. unfold App.col_radius_guarded.
  destruct (Rlt_dec 0 km_per_deg_lon); [lra | reflexivity].
Qed.

(** C9 (as amended).  The guard of line 160 tests the factor as it was
    computed: whenever that value is not positive, the column radius is
    1 and no division is made, whatever the pixel width (zero included)
    and the radius.  This holds of the factor however computed, of the
    factor at a binary64 latitude and of the factor in exact
    arithmetic. *)
Theorem estimate_col_radius_guard {F : Type} `{Float64 F} (svc : App.service F)
    (radius_km : R) :
  (forall km_per_deg_lon : R,
      (km_per_deg_lon <= 0)%R ->
      App.col_radius_guarded svc km_per_deg_lon radius_km = Ok 1%Z)
  /\ (forall lat : float,
        (App.km_per_deg_lon_b64 lat <= 0)%R ->
        App.estimate_col_radius_b64 svc lat radius_km = Ok 1%Z)
  /\ (forall lat : R,
        (App.km_per_deg_lon lat <= 0)%R ->
        App.estimate_col_radius svc lat radius_km = Ok 1%Z).
Proof.
  split; [|split].
  - intros km Hk. unfold App.col_radius_guarded.
    destruct (Rlt_dec 0 km) as [Hpos|_]; [exfalso; lra | reflexivity].
  - intros lat Hk. unfold App.estimate_col_radius_b64, App.col_radius_guarded.
    destruct (Rlt_dec 0 (App.km_per_deg_lon_b64 lat)) as [Hpos|_];
      [exfalso; lra | reflexivity].
  - intros lat Hk. unfold App.estimate_col_radius, App.col_radius_guarded.
    destruct (Rlt_dec 0 (App.km_per_deg_lon lat)) as [Hpos|_];
      [exfalso; lra | reflexivity].
Qed.

(** At latitude 180 the computed factor is negative: column radius 1. *)
Lemma estimate_col_radius_guard_witness :
  App.estimate_col_radius_b64 service_3x3 180 1300 = Ok 1%Z.
Proof.
  apply (proj1 (proj2 (estimate_col_radius_guard service_3x3 1300)) 180%float).
  pose proof km_per_deg_lon_b64_180. lra.
Defined.

(** C9 (as stated) fails at its own example.  At latitude 90 the machine
    takes the cosine of the binary64 number [math.radians(90)], which is
    below pi / 2 by 6.1e-17: the factor is positive, the guard passes,
    the division is made, and on the 3 x 3 raster the column radius for
    1300 km is 1589307938013084, not 1. *)
Lemma col_radius_at_latitude_90 :
  (0 < App.km_per_deg_lon_b64 90)%R
  /\ App.estimate_col_radius_b64 service_3x3 90 1300 = Ok 1589307938013084%Z.
Proof.
  pose proof cos_radians_90 as [Hlo Hhi].
  assert (Hpos : (0 < cos (App.B2R (App.math_radians 90)))%R).
  { eapply Rlt_trans; [|exact Hlo]. apply Rdiv_lt_0_compat; lra. }
  clear Hlo Hhi. pose proof cos_radians_90 as [Hlo Hhi].
  assert (Hk : (0 < App.km_per_deg_lon_b64 90)%R) by (unfold App.km_per_deg_lon_b64; lra).
  split; [exact Hk|].
  unfold App.estimate_col_radius_b64, App.col_radius_guarded, App.py_div.
  destruct (Rlt_dec 0 (App.km_per_deg_lon_b64 90)) as [_|N]; [|contradiction].
  cbn [App.RASTER_TRANSFORM service_3x3 service_3x3_of transform_3x3 Affine.a].
  destruct (Req_dec_T (App.km_per_deg_lon_b64 90 * 120) 0) as [E|_]; [exfalso; lra|].
  cbn [bind]. rewrite (py_round_near _ 1589307938013084); [reflexivity|].
  unfold App.km_per_deg_lon_b64.
  set (c := cos (App.B2R (App.math_radians 90))) in *.
  assert (Hd : (0 < 111.32 * c * 120)%R) by lra.
  apply Rlt_div_iff in Hhi; [|lra]. apply Rdiv_lt_iff in Hlo; [|lra].
  split.
  - apply Rlt_div_iff; [lra|]. lra.
  - apply Rdiv_lt_iff; [lra|]. lra.
Qed.

(** * The normalised total in rounded arithmetic *)

Lemma u53_bounds : (0 < u53 < / 9000000000000000)%R.
Proof.
  unfold u53. split.
  - apply Rinv_0_lt_compat. apply pow_lt. lra.
  - apply Rinv_lt_contravar; [|simpl; lra].
    apply Rmult_lt_0_compat; [lra | apply pow_lt; lra].
Qed.

Section Rounding.
Variable rnd : R -> R.
Hypothesis rnd_ok : standard_model rnd.

Lemma Rabs_le_between (x b : R) : (Rabs x <= b)%R -> (- b <= x <= b)%R.
Proof.
  intros Hb. unfold Rabs in Hb. destruct (Rcase_abs x); lra.
Qed.

(** A rounded value has the sign of the exact one and lies within the
    relative error of it; [sgn] is 1 or -1. *)
Lemma rnd_bounds (sgn y : R) :
  sgn = 1%R \/ sgn = (-1)%R -> (0 <= sgn * y)%R ->
  ((1 - u53) * (sgn * y) <= sgn * rnd y <= (1 + u53) * (sgn * y))%R.
Proof.
  intros Hs Hy. pose proof (rnd_ok y) as Hr. fold u53 in Hr.
  unfold Rdiv in Hr. fold u53 in Hr.
  assert (Habs : Rabs y = (sgn * y)%R).
  { destruct Hs as [-> | ->].
    - rewrite Rabs_pos_eq; lra.
    - rewrite Rabs_left1; lra. }
  rewrite Habs in Hr.
  apply Rabs_le_between in Hr. destruct Hs as [-> | ->]; lra.
Qed.

Lemma pow_lo_le (k m : nat) : (k <= m)%nat -> ((1 - u53) ^ m <= (1 - u53) ^ k)%R.
Proof.
  pose proof u53_bounds. intros Hkm.
  induction Hkm as [|m Hkm IH]; [lra|].
  simpl. assert (0 <= (1 - u53) ^ m)%R by (apply pow_le; lra). nra.
Qed.

Lemma pow_up_le (k m : nat) : (k <= m)%nat -> ((1 + u53) ^ k <= (1 + u53) ^ m)%R.
Proof. pose proof u53_bounds. intros Hkm. apply Rle_pow; [lra | exact Hkm]. Qed.

(** The rounded sum of values of one sign lies between the exact sum
    times (1 - u)^k and times (1 + u)^k. *)
Lemma summation_bounds (sgn : R) (k : nat) (xs : list R) (v : R) :
  sgn = 1%R \/ sgn = (-1)%R ->
  @Preprocess.summation R (rounded rnd) k xs v ->
  Forall (fun x => 0 <= sgn * x)%R xs ->
  ((1 - u53) ^ k * (sgn * Rsum xs) <= sgn * v <= (1 + u53) ^ k * (sgn * Rsum xs))%R.
Proof.
  intros Hs Hsum. pose proof u53_bounds as Hu.
  induction Hsum as [|x|k1 k2 xs ys a b Ha IHa Hb IHb|k xs ys a Hperm Ha IHa];
    intros Hall.
  - simpl. lra.
  - simpl. apply Forall_cons in Hall as [Hx _]. lra.
  - apply Forall_app in Hall as [Hxs Hys].
    specialize (IHa Hxs). specialize (IHb Hys).
    assert (Hsx : (0 <= sgn * Rsum xs)%R).
    { clear -Hxs. induction Hxs; simpl; lra. }
    assert (Hsy : (0 <= sgn * Rsum ys)%R).
    { clear -Hys. induction Hys; simpl; lra. }
    rewrite Rsum_app.
    set (m := Nat.max k1 k2).
    pose proof (pow_lo_le k1 m (Nat.le_max_l _ _)) as Hl1.
    pose proof (pow_lo_le k2 m (Nat.le_max_r _ _)) as Hl2.
    pose proof (pow_up_le k1 m (Nat.le_max_l _ _)) as Hu1.
    pose proof (pow_up_le k2 m (Nat.le_max_r _ _)) as Hu2.
    assert (Hlo0 : (0 <= (1 - u53) ^ m)%R) by (apply pow_le; lra).
    assert (Hlo1 : (0 <= (1 - u53) ^ k1)%R) by (apply pow_le; lra).
    assert (Hlo2 : (0 <= (1 - u53) ^ k2)%R) by (apply pow_le; lra).
    assert (Hab_lo : ((1 - u53) ^ m * (sgn * (Rsum xs + Rsum ys)) <= sgn * (a + b))%R).
    { assert ((1 - u53) ^ m * (sgn * Rsum xs) <= (1 - u53) ^ k1 * (sgn * Rsum xs))%R
        by (apply Rmult_le_compat_r; assumption).
      assert ((1 - u53) ^ m * (sgn * Rsum ys) <= (1 - u53) ^ k2 * (sgn * Rsum ys))%R
        by (apply Rmult_le_compat_r; assumption).
      lra. }
    assert (Hab_up : (sgn * (a + b) <= (1 + u53) ^ m * (sgn * (Rsum xs + Rsum ys)))%R).
    { assert ((1 + u53) ^ k1 * (sgn * Rsum xs) <= (1 + u53) ^ m * (sgn * Rsum xs))%R
        by (apply Rmult_le_compat_r; assumption).
      assert ((1 + u53) ^ k2 * (sgn * Rsum ys) <= (1 + u53) ^ m * (sgn * Rsum ys))%R
        by (apply Rmult_le_compat_r; assumption).
      lra. }
    assert (Hab0 : (0 <= sgn * (a + b))%R).
    { assert (0 <= (1 - u53) ^ m * (sgn * (Rsum xs + Rsum ys)))%R; [|lra].
      apply Rmult_le_pos; [exact Hlo0 | lra]. }
    pose proof (rnd_bounds sgn (a + b) Hs Hab0) as [Hr1 Hr2].
    cbn [f_add rounded]. simpl pow. split.
    + assert ((1 - u53) * ((1 - u53) ^ m * (sgn * (Rsum xs + Rsum ys)))
              <= (1 - u53) * (sgn * (a + b)))%R
        by (apply Rmult_le_compat_l; lra).
      lra.
    + assert ((1 + u53) * (sgn * (a + b))
              <= (1 + u53) * ((1 + u53) ^ m * (sgn * (Rsum xs + Rsum ys))))%R
        by (apply Rmult_le_compat_l; lra).
      lra.
  - rewrite <- (Rsum_Permutation _ _ Hperm). apply IHa.
    rewrite Hperm. exact Hall.
Qed.

(** The cells times a rounded scale factor, each product rounded. *)
Lemma scaled_bounds (sgn s : R) (xs : list R) :
  sgn = 1%R \/ sgn = (-1)%R -> (0 <= sgn * s)%R ->
  Forall (fun x => 0 <= x)%R xs ->
  Forall (fun y => 0 <= sgn * y)%R (map (fun x => rnd (x * s)) xs)
  /\ ((1 - u53) * (sgn * s * Rsum xs)
       <= sgn * Rsum (map (fun x => rnd (x * s)) xs)
       <= (1 + u53) * (sgn * s * Rsum xs))%R.
Proof.
  intros Hs Hw Hall. pose proof u53_bounds as Hu.
  induction Hall as [|x xs Hx Hall [IH1 IH2]]; simpl.
  - split; [constructor | lra].
  - assert (Hxs : (0 <= sgn * (x * s))%R).
    { replace (sgn * (x * s))%R with (x * (sgn * s))%R by ring.
      apply Rmult_le_pos; assumption. }
    pose proof (rnd_bounds sgn (x * s) Hs Hxs) as [Hr1 Hr2].
    split.
    + constructor; [|exact IH1].
      assert (0 <= (1 - u53) * (sgn * (x * s)))%R by (apply Rmult_le_pos; lra). lra.
    + lra.
Qed.

End Rounding.

Lemma pow_lo_bernoulli (m : nat) : (1 - INR m * u53 <= (1 - u53) ^ m)%R.
Proof.
  pose proof u53_bounds as Hu. induction m as [|m IH].
  - simpl. lra.
  - rewrite S_INR. simpl pow.
    assert (H1 : ((1 - u53) * (1 - INR m * u53) <= (1 - u53) * (1 - u53) ^ m)%R)
      by (apply Rmult_le_compat_l; lra).
    pose proof (pos_INR m). nra.
Qed.

Lemma pow_up_bound (m : nat) :
  (INR m * u53 < 1)%R -> ((1 + u53) ^ m * (1 - INR m * u53) <= 1)%R.
Proof.
  pose proof u53_bounds as Hu. induction m as [|m IH]; intros Hm.
  - simpl. lra.
  - rewrite S_INR in *. pose proof (pos_INR m) as Hpos.
    assert (Hm' : (INR m * u53 < 1)%R) by nra. specialize (IH Hm').
    simpl pow.
    assert (H0 : (0 <= (1 + u53) ^ m)%R) by (apply pow_le; lra).
    assert (H1 : ((1 + u53) * (1 - (INR m + 1) * u53) <= 1 - INR m * u53)%R) by nra.
    assert (H2 : ((1 + u53) ^ m * ((1 + u53) * (1 - (INR m + 1) * u53))
                  <= (1 + u53) ^ m * (1 - INR m * u53))%R)
      by (apply Rmult_le_compat_l; assumption).
    lra.
Qed.

(** The arithmetic of the two chains of bounds: [l] bounds the sums'
    factors, the quantities are those of the proof below. *)
Lemma tolerance_chain (A Yh P wS wSh l L1 L2 U1 U2 : R) :
  (0 < A)%R -> (9999998 / 10000000 <= l <= 1)%R ->
  (l <= L1)%R -> (l <= L2)%R -> (0 <= U1)%R -> (0 <= U2)%R ->
  (U1 * l <= 1)%R -> (U2 * l <= 1)%R ->
  (0 <= wS)%R ->
  (L2 * P <= Yh <= U2 * P)%R ->
  ((1 - u53) * wS <= P <= (1 + u53) * wS)%R ->
  (L1 * wS <= wSh <= U1 * wS)%R ->
  ((1 - u53) * A <= wSh <= (1 + u53) * A)%R ->
  (Rabs (Yh - A) <= 1e-6 * A)%R
  /\ (Rabs (P - A) <= 1e-6 * A)%R.
Proof.
  intros HA Hl HL1 HL2 HU1 HU2 HUl1 HUl2 HwS HY HP HS HA2.
  pose proof u53_bounds as Hu.
  assert (HP0 : (0 <= P)%R).
  { assert (0 <= (1 - u53) * wS)%R by (apply Rmult_le_pos; lra). lra. }
  (* wS between l (1-u) A and (1+u) A / l *)
  assert (HwS_up : (l * wS <= (1 + u53) * A)%R).
  { assert (l * wS <= L1 * wS)%R by (apply Rmult_le_compat_r; lra). lra. }
  assert (HwS_lo : (l * ((1 - u53) * A) <= wS)%R).
  { assert (l * ((1 - u53) * A) <= l * (U1 * wS))%R by (apply Rmult_le_compat_l; lra).
    assert ((U1 * l) * wS <= 1 * wS)%R by (apply Rmult_le_compat_r; lra).
    lra. }
  assert (HP_up : (l * P <= (1 + u53) * ((1 + u53) * A))%R).
  { assert (l * P <= l * ((1 + u53) * wS))%R by (apply Rmult_le_compat_l; lra).
    assert ((1 + u53) * (l * wS) <= (1 + u53) * ((1 + u53) * A))%R
      by (apply Rmult_le_compat_l; lra).
    lra. }
  assert (HP_lo : ((1 - u53) * (l * ((1 - u53) * A)) <= P)%R).
  { assert ((1 - u53) * (l * ((1 - u53) * A)) <= (1 - u53) * wS)%R
      by (apply Rmult_le_compat_l; lra).
    lra. }
  assert (HY_up : (l * (l * Yh) <= (1 + u53) * ((1 + u53) * A))%R).
  { assert (l * Yh <= l * (U2 * P))%R by (apply Rmult_le_compat_l; lra).
    assert ((U2 * l) * P <= 1 * P)%R by (apply Rmult_le_compat_r; lra).
    assert (l * (l * Yh) <= l * P)%R by (apply Rmult_le_compat_l; lra).
    lra. }
  assert (HY_lo : (l * ((1 - u53) * (l * ((1 - u53) * A))) <= Yh)%R).
  { assert (l * P <= L2 * P)%R by (apply Rmult_le_compat_r; lra).
    assert (l * ((1 - u53) * (l * ((1 - u53) * A))) <= l * P)%R
      by (apply Rmult_le_compat_l; lra).
    lra. }
  assert (Hnum_up : ((1 + u53) * ((1 + u53) * A) <= l * (l * ((1 + 1e-6) * A)))%R).
  { assert (Hll : (99999959 / 100000000 <= l * l)%R) by nra.
    assert (Huu : ((1 + u53) * (1 + u53) <= 1 + / 1000000000)%R) by nra.
    assert (((1 + u53) * (1 + u53)) * A <= (1 + / 1000000000) * A)%R
      by (apply Rmult_le_compat_r; lra).
    assert ((99999959 / 100000000) * ((1 + 1e-6) * A) <= (l * l) * ((1 + 1e-6) * A))%R
      by (apply Rmult_le_compat_r; [apply Rmult_le_pos; lra | lra]).
    lra. }
  assert (Hnum_lo : ((1 - 1e-6) * A <= l * ((1 - u53) * (l * ((1 - u53) * A))))%R).
  { assert (Hll : (99999959 / 100000000 <= l * l)%R) by nra.
    assert (Huu : (1 - / 1000000000 <= (1 - u53) * (1 - u53))%R) by nra.
    assert (Hprod : ((99999959 / 100000000) * (1 - / 1000000000)
                     <= (l * l) * ((1 - u53) * (1 - u53)))%R)
      by (apply Rmult_le_compat; lra).
    assert (((99999959 / 100000000) * (1 - / 1000000000)) * A
            <= ((l * l) * ((1 - u53) * (1 - u53))) * A)%R
      by (apply Rmult_le_compat_r; lra).
    lra. }
  assert (Hl2 : (0 < l * l)%R) by nra.
  assert (HYle : (Yh <= (1 + 1e-6) * A)%R).
  { apply (Rmult_le_reg_l (l * l)); [exact Hl2|]. lra. }
  assert (HPle : (P <= (1 + 1e-6) * A)%R).
  { assert (l * (l * P) <= l * ((1 + u53) * ((1 + u53) * A)))%R
      by (apply Rmult_le_compat_l; lra).
    assert (l * ((1 + u53) * ((1 + u53) * A)) <= 1 * ((1 + u53) * ((1 + u53) * A)))%R.
    { apply Rmult_le_compat_r; [|lra].
      apply Rmult_le_pos; [lra|]. apply Rmult_le_pos; lra. }
    apply (Rmult_le_reg_l (l * l)); [exact Hl2|]. lra. }
  assert (HPge : ((1 - 1e-6) * A <= P)%R).
  { assert (l * ((1 - u53) * (l * ((1 - u53) * A))) <= 1 * ((1 - u53) * (l * ((1 - u53) * A))))%R.
    { apply Rmult_le_compat_r; [|lra].
      apply Rmult_le_pos; [lra|]. apply Rmult_le_pos; [lra|]. apply Rmult_le_pos; lra. }
    lra. }
  split; apply Rabs_le; lra.
Qed.

Lemma Forall_nonneg_one (xs : list R) :
  Forall (fun x => 0 <= x)%R xs -> Forall (fun x => 0 <= 1 * x)%R xs.
Proof. intros Hall. eapply Forall_impl; [exact Hall|]. intros x Hx. cbn beta. lra. Qed.

Lemma map_length_scaled {A B} (f : A -> B) (g : list (list A)) :
  map length (map (map f) g) = map length g.
Proof.
  induction g as [|row g IH]; simpl; [reflexivity|]. rewrite length_map, IH. reflexivity.
Qed.


(** ** The loop that adds the cells in index order *)

Lemma fold_left_summation {F : Type} `{Float64 F} (rest : list F) (k : nat)
    (xs : list F) (a : F) :
  Preprocess.summation k xs a ->
  Preprocess.summation (k + length rest) (xs ++ rest) (fold_left f_add rest a).
Proof.
  revert k xs a. induction rest as [|y rest IH]; intros k xs a Ha; simpl.
  - rewrite Nat.add_0_r, app_nil_r. exact Ha.
  - replace (k + S (length rest))%nat with (S (Nat.max k 0) + length rest)%nat by lia.
    replace (xs ++ y :: rest) with ((xs ++ [y]) ++ rest)
      by (rewrite <- app_assoc; reflexivity).
    apply IH. apply Preprocess.summation_add; [exact Ha | apply Preprocess.summation_cell].
Qed.

Lemma np_sum_summation {F : Type} `{Float64 F} (g : list (list F)) :
  Preprocess.summation (length (concat g) - 1) (concat g) (Preprocess.np_sum g).
Proof.
  unfold Preprocess.np_sum, Preprocess.np_sum1.
  destruct (concat g) as [|x rest]; [apply Preprocess.summation_zero|].
  simpl length. replace (S (length rest) - 1)%nat with (0 + length rest)%nat by lia.
  apply (fold_left_summation rest 0 [x] x). apply Preprocess.summation_cell.
Qed.

Lemma length_concat_shape {A} (g g' : list (list A)) :
  map length g = map length g' -> length (concat g) = length (concat g').
Proof.
  revert g'. induction g as [|row g IH]; intros [|row' g'] E; simpl in *;
    try discriminate; [reflexivity|].
  injection E as E1 E2. rewrite !length_app, E1, (IH g' E2). reflexivity.
Qed.

Lemma round_down_standard : standard_model round_down.
Proof.
  intros x. unfold round_down.
  replace (x * (1 - / 2 ^ 53) - x)%R with (- (x * / 2 ^ 53))%R by ring.
  rewrite Rabs_Ropp, Rabs_mult.
  rewrite (Rabs_pos_eq (/ 2 ^ 53)).
  - unfold Rdiv. lra.
  - apply Rlt_le, Rinv_0_lt_compat, pow_lt. lra.
Qed.


(** With cells of both signs the sum can cancel, and the bound fails in
    binary64 without any overflow: the cells 1e16, 1.5 and -1e16 have
    raw total 2.0, and their scaled values add up to 2^32, not to
    7e9. *)
#[warnings="-inexact-float"]
Lemma normalized_total_cancels :
  exists conv,
    Preprocess.convert_projected [[1e16; 1.5; -1e16]]%float (-9999)%float
      (1000, 1000)%float "per_pixel" 7e9%float = Ok conv
    /\ Preprocess.total_raw conv = 2%float
    /\ Preprocess.total_adjusted conv = 4294967296%float.
Proof. eexists. split; [vm_compute; reflexivity|]. split; reflexivity. Qed.

(** An ordinary run on the machine: six cells with a raw total that
    rounds, 3.8; the binary64 run saves cells whose total is the target
    itself and passes the tolerance test. *)
#[warnings="-inexact-float"]
Lemma normalized_total_binary64_sample :
  exists conv,
    Preprocess.convert_projected [[0.1; 0.2; 0.7]; [0.3; 0.6; 1.9]]%float (-9999)%float
      (1000, 1000)%float "per_pixel" 7e9%float = Ok conv
    /\ Preprocess.scale_factor conv = 1842105263.1578948%float
    /\ Preprocess.total_adjusted conv = 7e9%float
    /\ PrimFloat.leb (PrimFloat.abs (Preprocess.total_adjusted conv - 7e9))
                     (1e-6 * PrimFloat.abs 7e9) = true.
Proof. eexists. split; [vm_compute; reflexivity|]. repeat split; reflexivity. Qed.
